(** * FastEstimator: dataset composition, sample collection and padding helpers

    A shallow embedding of these pieces of the FastEstimator sources:

    - [fastestimator/dataset/combined_dataset.py]  (module [CombinedDataset])
    - [fastestimator/trace/xai/saliency.py]        (modules [Saliency], [Blend],
                                                    [LabelMapping])
    - [fastestimator/util/util.py], [pad_data]     (module [Pad])
    - [fastestimator/util/util.py], [pad_batch]
      and [get_batch_size]                         (module [Batch])
    - [fastestimator/util/util.py], [cpu_count]    (module [CpuCount])

    Python integers are [Z]; dictionaries are [gmap]s keyed by strings; a
    function that may raise returns a [result].  The first part of the file
    holds the embedding, one module per piece; the second part, from
    "Properties" on, holds the lemmas and theorems, in the modules
    [CombinedDatasetSpec], [SaliencySpec], [PadSpec], [CpuCountSpec],
    [BlendSpec], [LabelMappingSpec] and [BatchSpec]. *)

From Stdlib Require Import ZArith List Lia Bool Ascii Floats.
From stdpp Require Import gmap strings list fin_maps.

Local Open Scope Z_scope.

(** ** Python exceptions and the error monad *)

Inductive exn : Type :=
| AssertionError
| KeyError
| IndexError
| ValueError
| TypeError
| AttributeError
| RuntimeError.

Inductive result (A : Type) : Type :=
| Ok (a : A)
| Raise (e : exn).

Arguments Ok {A} a.
Arguments Raise {A} e.

#[export] Instance result_ret : MRet result := fun A a => Ok a.

#[export] Instance result_bind : MBind result := fun A B k r =>
  match r with
  | Ok a => k a
  | Raise e => Raise e
  end.

Definition is_ok {A : Type} (r : result A) : bool :=
  match r with Ok _ => true | Raise _ => false end.

(** [len(l)] as a Python integer. *)
Definition len {A : Type} (l : list A) : Z := Z.of_nat (length l).

(** [l[i]] on a Python list: a negative index counts from the end, and an
    index outside [-len(l) <= i < len(l)] raises [IndexError]. *)
Definition py_getitem {A : Type} (l : list A) (i : Z) : result A :=
  let j := if i <? 0 then i + len l else i in
  if j <? 0 then Raise IndexError
  else match l !! Z.to_nat j with
       | Some x => Ok x
       | None => Raise IndexError
       end.

(** ** combined_dataset.py *)

Module CombinedDataset.
Section Dataset.

(** The values stored in a record are never inspected. *)
Variable V : Type.

(** A record is a dictionary from string keys to values; a source is an
    indexable collection of records with a length. *)
Definition record : Type := gmap string V.
Definition source : Type := list record.

Record t : Type := Build { datasets : list source }.

(** [for ds in datasets[1:]: if ds[0].keys() != keys: raise KeyError] *)
Fixpoint check_keys (keys : gset string) (rest : list source) : result unit :=
  match rest with
  | [] => Ok tt
  | ds :: rest' =>
      r ← py_getitem ds 0;
      if decide (dom r ≠ keys) then Raise KeyError
      else check_keys keys rest'
  end.

(** [CombinedDataset.__init__] *)
Definition __init__ (dss : list source) : result t :=
  if len dss <? 2 then Raise AssertionError
  else
    d0 ← py_getitem dss 0;
    r0 ← py_getitem d0 0;
    _ ← check_keys (dom r0) (drop 1 dss);
    Ok (Build dss).

(** [CombinedDataset.__len__] *)
Definition __len__ (c : t) : Z :=
  foldr Z.add 0 (map len (datasets c)).

(** The loop of [CombinedDataset.__getitem__]: [start] and [end_] are the
    two running offsets.  Leaving the loop without a hit is Python's
    implicit [return None], modelled by [Ok None]. *)
Fixpoint getitem_loop (dss : list source) (idx start end_ : Z)
  : result (option record) :=
  match dss with
  | [] => Ok None
  | ds :: rest =>
      let end_ := end_ + len ds in
      if (start <=? idx) && (idx <? end_)
      then r ← py_getitem ds (idx - start); Ok (Some r)
      else getitem_loop rest idx (start + end_) end_
  end.

(** [CombinedDataset.__getitem__] *)
Definition __getitem__ (c : t) (idx : Z) : result (option record) :=
  getitem_loop (datasets c) idx 0 0.

(** The records of all sources, flattened in order: the sequence the
    composite is meant to present. *)
Definition flatten (c : t) : list record := concat (datasets c).

(** The first record's key set of a source, if it has a first record. *)
Definition first_keys (ds : source) : option (gset string) :=
  dom <$> head ds.

End Dataset.

Arguments Build {V} _.
Arguments datasets {V} _.
Arguments check_keys {V} _ _.
Arguments __init__ {V} _.
Arguments __len__ {V} _.
Arguments getitem_loop {V} _ _ _ _.
Arguments __getitem__ {V} _ _.
Arguments flatten {V} _.
Arguments first_keys {V} _.

(** Sample records used to exercise the statements. *)
Definition rec_x (v : Z) : record Z := {[ "x" := v ]}.
Definition rec_y (v : Z) : record Z := {[ "y" := v ]}.

End CombinedDataset.

(** ** trace/xai/saliency.py: collecting the samples *)

(** Looking a key up in a plain dictionary raises [KeyError] when absent. *)
Definition dict_getitem {A : Type} (m : gmap string A) (k : string) : result A :=
  match m !! k with
  | Some a => Ok a
  | None => Raise KeyError
  end.

Module Saliency.
Section Collector.

(** One row (one datapoint) of a batched tensor; never inspected. *)
Variable row : Type.

(** A batched tensor, seen as its rows along the batch axis: [len(t)] is
    the number of rows and [t[:n]] keeps the first [n] of them. *)
Abbreviation tensor := (list row) (only parsing).

(** The batch handed to [on_batch_end]: [data[key]] is a column. *)
Abbreviation Data := (gmap string (list row)) (only parsing).

(** What [self.samples[mode]] holds under a key: while collecting, the
    list of the columns appended so far; once finalized (or when the user
    supplied the samples), one tensor. *)
Inductive value : Type :=
| Pending (cols : list tensor)
| Column (t : tensor).

(** [self.samples[mode]] is a [defaultdict(list)] while collecting and a
    plain [dict] afterwards; the two differ on a missing key. *)
Record pydict : Type := Dict {
  is_defaultdict : bool;
  items : gmap string value
}.

(** The [samples] argument of the constructor: [None], an [int], or a
    dictionary [{model_input_key: model_input}]. *)
Inductive samples_arg : Type :=
| SNone
| SInt (n : Z)
| SDict (d : gmap string tensor).

(** The [mode] argument of the constructor: [None], one string, or an
    iterable of strings. *)
Inductive mode_arg : Type :=
| MNone
| MStr (s : string)
| MIter (l : list string).

(** The fields of the trace that the two callbacks read and write, for a
    trace built without [label_mapping] (the translation of the classes is
    modelled on its own, in [LabelMapping]).  [model_inputs] is
    [to_list(model_inputs)]. *)
Record t : Type := Build {
  class_key : option string;
  model_inputs : list string;
  samples : gmap string pydict;
  n_found : gmap string Z;
  n_required : gmap string Z
}.

(** Modelled from the spec: [to_list] (fastestimator.util) is not among the
    sources; it turns [None] into the empty list and wraps a string into a
    list. *)
Definition to_list (o : option string) : list string :=
  match o with
  | Some key => [key]
  | None => []
  end.

(** [self.inputs], which [Trace.__init__] sets from its [inputs] argument,
    here [to_list(self.class_key) + to_list(model_inputs)]; nothing assigns
    it afterwards. *)
Definition inputs (self : t) : list string :=
  to_list (class_key self) ++ model_inputs self.

(** The characters of a string, each as a one-character string: what a
    [for] loop over a Python [str] yields. *)
Fixpoint chars (s : string) : list string :=
  match s with
  | EmptyString => []
  | String a s' => String a EmptyString :: chars s'
  end.

(** [mode or ("train", "eval", "test")], as the sequence the loop of the
    constructor runs over. *)
Definition modes_of (m : mode_arg) : list string :=
  match m with
  | MNone => ["train"; "eval"; "test"]
  | MStr EmptyString => ["train"; "eval"; "test"]
  | MStr s => chars s
  | MIter [] => ["train"; "eval"; "test"]
  | MIter l => l
  end.

(** The body of the constructor's loop, for one mode. *)
Definition init_mode (arg : samples_arg) (self : t) (mode : string) : t :=
  match arg with
  | SInt n =>
      Build (class_key self) (model_inputs self)
            (<[mode := Dict true ∅]> (samples self))
            (<[mode := 0]> (n_found self))
            (<[mode := n]> (n_required self))
  | SNone =>
      Build (class_key self) (model_inputs self)
            (<[mode := Dict true ∅]> (samples self))
            (<[mode := 0]> (n_found self))
            (<[mode := 0]> (n_required self))
  | SDict d =>
      Build (class_key self) (model_inputs self)
            (<[mode := Dict false (Column <$> d)]> (samples self))
            (<[mode := 0]> (n_found self))
            (<[mode := 0]> (n_required self))
  end.

(** [Saliency.__init__], restricted to the fields of [t]. *)
Definition __init__ (class_key : option string) (model_inputs : list string)
    (arg : samples_arg) (mode : mode_arg) : t :=
  foldl (init_mode arg) (Build class_key model_inputs ∅ ∅ ∅) (modes_of mode).

(** [not d] for a dictionary. *)
Definition dict_is_empty (d : pydict) : bool :=
  (size (items d) =? 0)%nat.

(** [self.samples[mode][key]]: a [defaultdict(list)] creates the entry
    [[]] for a missing key, a plain [dict] raises [KeyError]. *)
Definition samples_getitem (d : pydict) (key : string)
  : result (pydict * value) :=
  match items d !! key with
  | Some v => Ok (d, v)
  | None =>
      if is_defaultdict d
      then Ok (Dict true (<[key := Pending []]> (items d)), Pending [])
      else Raise KeyError
  end.

(** [self.samples[mode][key].append(data[key])]: the receiver is
    evaluated first, then its [append] attribute (a tensor has none), then
    the argument. *)
Definition append_column (d : pydict) (data : Data) (key : string)
  : result (pydict * tensor) :=
  '(d1, v) ← samples_getitem d key;
  match v with
  | Column _ => Raise AttributeError
  | Pending cols =>
      col ← dict_getitem data key;
      Ok (Dict (is_defaultdict d1)
               (<[key := Pending (cols ++ [col])]> (items d1)), col)
  end.

(** The loop [for key in self.inputs] of [on_batch_end], threading the
    dictionary and [n_samples]. *)
Fixpoint collect (keys : list string) (data : Data) (d : pydict) (n_samples : Z)
  : result (pydict * Z) :=
  match keys with
  | [] => Ok (d, n_samples)
  | key :: keys' =>
      '(d', col) ← append_column d data key;
      collect keys' data d' (len col)
  end.

(** [Saliency.on_batch_end], with [self.system.mode] as an argument. *)
Definition on_batch_end (self : t) (mode : string) (data : Data) : result t :=
  d ← dict_getitem (samples self) mode;
  go ← (if dict_is_empty d then Ok true
        else found ← dict_getitem (n_found self) mode;
             required ← dict_getitem (n_required self) mode;
             Ok (found <? required));
  if go : bool then
    '(d', n_samples) ← collect (inputs self) data d 0;
    found ← dict_getitem (n_found self) mode;
    Ok (Build (class_key self) (model_inputs self)
              (<[mode := d']> (samples self))
              (<[mode := found + n_samples]> (n_found self))
              (n_required self))
  else Ok self.

(** Modelled from the spec: [fastestimator.backend._concat.concat] is not
    among the sources; the spec has it "concatenate each key's pending list
    along the batch axis". *)
Definition concat (cols : list tensor) : tensor := List.concat cols.

(** [concat(val)[:n_required]] for one value of the dictionary.  A value
    that is already a tensor is no list of tensors; the collector never
    meets one here (see [on_epoch_end_reachable_ok]). *)
Definition keep_required (required : Z) (v : value) : result value :=
  match v with
  | Pending cols => Ok (Column (take (Z.to_nat required) (concat cols)))
  | Column _ => Raise TypeError
  end.

(** [val[0]] for one value of the dictionary: the first appended
    column.  As above for a value that is already a tensor. *)
Definition keep_first (v : value) : result value :=
  match v with
  | Pending (col :: _) => Ok (Column col)
  | Pending [] => Raise IndexError
  | Column _ => Raise TypeError
  end.

(** A dictionary comprehension [{key: f(val) for key, val in d.items()}]
    whose [f] may raise. *)
Fixpoint comprehension (f : value -> result value)
    (kvs : list (string * value)) : result (list (string * value)) :=
  match kvs with
  | [] => Ok []
  | (key, val) :: kvs' =>
      val' ← f val;
      rest ← comprehension f kvs';
      Ok ((key, val') :: rest)
  end.

Definition dict_comprehension (f : value -> result value) (d : pydict)
  : result pydict :=
  kvs ← comprehension f (map_to_list (items d));
  Ok (Dict false (list_to_map kvs)).

(** [Saliency.on_epoch_end] up to the assignment of [n_required]: the
    finalization of the collected samples. *)
Definition finalize (self : t) (mode : string) : result t :=
  found ← dict_getitem (n_found self) mode;
  if 0 <? found then
    required ← dict_getitem (n_required self) mode;
    d ← dict_getitem (samples self) mode;
    d' ← (if 0 <? required
          then dict_comprehension (keep_required required) d
          else dict_comprehension keep_first d);
    Ok (Build (class_key self) (model_inputs self)
              (<[mode := d']> (samples self))
              (<[mode := 0]> (n_found self))
              (<[mode := 0]> (n_required self)))
  else Ok self.

(** [if self.class_key: classes = self.samples[mode][self.class_key]]:
    the empty string is falsy; the lookup creates the entry in a
    [defaultdict] and raises [KeyError] on a plain [dict] without the
    key. *)
Definition lookup_classes (class_key : option string) (d : pydict)
  : result pydict :=
  match class_key with
  | Some (String a key) => '(d1, _) ← samples_getitem d (String a key); Ok d1
  | _ => Ok d
  end.

(** Modelled from the spec: [reduce_min] and [reduce_max]
    (fastestimator.backend) are not among the sources; they reduce a tensor
    of one of the backends and refuse any other value, such as the Python
    list of a pending entry, with [ValueError].  A tensor is taken to have
    elements (what the reduction of an empty tensor does depends on the
    backend).  The value they compute is the subject of [Blend]. *)
Definition reduce_min (v : value) : result unit :=
  match v with
  | Column _ => Ok tt
  | Pending _ => Raise ValueError
  end.

(** The loop [for key, val in self.samples[mode].items()] of
    [on_epoch_end], as far as it can fail on the buffer: every value but the
    one of the class key goes through [reduce_min].  The keys of a collected
    buffer are the strings of [self.inputs], so that [key is not
    self.class_key] tells the class key from the others; in a dictionary of
    the user every value is a tensor, and the test only selects what is
    blended. *)
Fixpoint blend_items (class_key : option string) (kvs : list (string * value))
  : result unit :=
  match kvs with
  | [] => Ok tt
  | (key, val) :: kvs' =>
      _ ← (if decide (class_key = Some key) then Ok tt else reduce_min val);
      blend_items class_key kvs'
  end.

(** The rest of [Saliency.on_epoch_end]: the masks and the image are
    computed from [self.samples[mode]].  The calls into the saliency network,
    [ImgData] and [data.write_without_log] are calls into code that is not
    among the sources; they read the buffer, assign no field of [t], and are
    taken to return.  What is left is what the method itself does to the
    buffer: the lookup of the classes and the reductions of the loop. *)
Definition present (self : t) (mode : string) : result t :=
  d ← dict_getitem (samples self) mode;
  d1 ← lookup_classes (class_key self) d;
  _ ← blend_items (class_key self) (map_to_list (items d1));
  Ok (Build (class_key self) (model_inputs self)
            (<[mode := d1]> (samples self))
            (n_found self)
            (n_required self)).

(** [Saliency.on_epoch_end], with [self.system.mode] as an argument. *)
Definition on_epoch_end (self : t) (mode : string) : result t :=
  self1 ← finalize self mode;
  present self1 mode.

(** The callbacks the training loop sends to the trace. *)
Inductive event : Type :=
| BatchEnd (mode : string) (data : Data)
| EpochEnd (mode : string).

Definition step (self : t) (ev : event) : result t :=
  match ev with
  | BatchEnd mode data => on_batch_end self mode data
  | EpochEnd mode => on_epoch_end self mode
  end.

Fixpoint run (self : t) (evs : list event) : result t :=
  match evs with
  | [] => Ok self
  | ev :: evs' => self' ← step self ev; run self' evs'
  end.

(** The states a trace can be in: built by the constructor, then driven by
    callbacks that returned normally. *)
Inductive reachable : t -> Prop :=
| reach_init class_key model_inputs arg mode :
    reachable (__init__ class_key model_inputs arg mode)
| reach_step self ev self' :
    reachable self -> step self ev = Ok self' -> reachable self'.

End Collector.

Abbreviation tensor row := (list row) (only parsing).
Abbreviation Data row := (gmap string (list row)) (only parsing).

Arguments Pending {row} _.
Arguments Column {row} _.
Arguments Dict {row} _ _.
Arguments is_defaultdict {row} _.
Arguments items {row} _.
Arguments SNone {row}.
Arguments SInt {row} _.
Arguments SDict {row} _.
Arguments Build {row} _ _ _ _ _.
Arguments class_key {row} _.
Arguments model_inputs {row} _.
Arguments inputs {row} _.
Arguments samples {row} _.
Arguments n_found {row} _.
Arguments n_required {row} _.
Arguments init_mode {row} _ _ _.
Arguments __init__ {row} _ _ _ _.
Arguments dict_is_empty {row} _.
Arguments samples_getitem {row} _ _.
Arguments append_column {row} _ _ _.
Arguments collect {row} _ _ _ _.
Arguments on_batch_end {row} _ _ _.
Arguments concat {row} _.
Arguments keep_required {row} _ _.
Arguments keep_first {row} _.
Arguments comprehension {row} _ _.
Arguments dict_comprehension {row} _ _.
Arguments finalize {row} _ _.
Arguments lookup_classes {row} _ _.
Arguments reduce_min {row} _.
Arguments blend_items {row} _ _.
Arguments present {row} _ _.
Arguments on_epoch_end {row} _ _.
Arguments BatchEnd {row} _ _.
Arguments EpochEnd {row} _.
Arguments step {row} _ _.
Arguments run {row} _ _.
Arguments reachable {row} _.

(** *** Notions used to state the properties of the collector *)

Section Notions.
Context {row : Type}.
Implicit Types (d : pydict row) (v : value row) (data : Data row)
         (m : gmap string (value row)) (self : t row) (key mode : string)
         (keys : list string).

(** A value that is still a list of appended columns. *)
Definition is_pending v : Prop :=
  match v with Pending _ => True | Column _ => False end.

(** A list of appended columns with at least one column. *)
Definition pending_nonempty v : Prop :=
  match v with Pending (_ :: _) => True | _ => False end.

(** The columns appended so far under a key; none if the key is absent. *)
Definition cols_of (o : option (value row)) : list (tensor row) :=
  match o with Some (Pending cols) => cols | _ => [] end.

(** The effect of one [append] on the items of the dictionary. *)
Definition append_spec data m key : gmap string (value row) :=
  <[key := Pending (cols_of (m !! key) ++ [default [] (data !! key)])]> m.

(** The effect of the whole loop over the tracked keys. *)
Definition appended data m keys : gmap string (value row) :=
  foldl (append_spec data) m keys.

(** [n_samples] after the loop: the length of the last key's column. *)
Definition last_len data keys (n : Z) : Z :=
  foldl (fun _ key => len (default [] (data !! key))) n keys.

(** What [keep_required] and [keep_first] return on the values they
    accept. *)
Definition required_total (required : Z) v : value row :=
  match v with
  | Pending cols => Column (take (Z.to_nat required) (concat cols))
  | Column t => Column t
  end.

Definition first_total v : value row :=
  match v with
  | Pending (col :: _) => Column col
  | Pending [] => Column []
  | Column t => Column t
  end.

(** A value that is one tensor. *)
Definition is_column v : Prop :=
  match v with Column _ => True | Pending _ => False end.

(** The class key the method looks up: [self.class_key] if it is
    truthy. *)
Definition truthy (class_key : option string) : option string :=
  match class_key with
  | Some EmptyString => None
  | other => other
  end.

(** The buffer has an entry for the class key, if there is one to look
    up. *)
Definition has_class_key (class_key : option string) m : Prop :=
  forall key, truthy class_key = Some key -> is_Some (m !! key).

(** The buffer after the lookup of the classes in a [defaultdict]: a
    missing class key has been given the empty list. *)
Definition with_class_key (class_key : option string) d : pydict row :=
  match truthy class_key with
  | Some key =>
      match items d !! key with
      | Some _ => d
      | None => Dict true (<[key := Pending []]> (items d))
      end
  | None => d
  end.

(** What holds of a [defaultdict] that is collecting: it has pending
    columns, each with at least one column, under none or all of the tracked
    keys, and it is not empty once something was found. *)
Definition collecting_inv keys m (found : Z) : Prop :=
  map_Forall (fun _ v => pending_nonempty v) m /\
  (m ≠ ∅ -> forall key, key ∈ keys -> is_Some (m !! key)) /\
  (0 < found -> m ≠ ∅).

(** What holds of a [defaultdict] in which a lookup of the classes came
    before the first batch: it has the empty list under the class key and
    nothing else, and nothing was found. *)
Definition looked_up_inv (class_key : option string) m (found : Z) : Prop :=
  exists key, truthy class_key = Some key /\
              m = {[key := Pending []]} /\ found <= 0.

(** Per mode: either the buffer is still the [defaultdict], collecting or
    looked up early; or it is a plain dictionary of tensors and both counts
    are zero. *)
Definition mode_inv (class_key : option string) keys d (found required : Z)
  : Prop :=
  (is_defaultdict d = true /\
   (collecting_inv keys (items d) found \/
    looked_up_inv class_key (items d) found))
  \/ (is_defaultdict d = false /\ found = 0 /\ required = 0 /\
      map_Forall (fun _ v => is_column v) (items d)).

(** The three dictionaries of the trace have the same modes, and every mode
    satisfies [mode_inv]. *)
Definition consistent self : Prop :=
  forall mode,
    (exists d found required,
        samples self !! mode = Some d /\
        n_found self !! mode = Some found /\
        n_required self !! mode = Some required /\
        mode_inv (class_key self) (inputs self) d found required)
    \/ (samples self !! mode = None /\
        n_found self !! mode = None /\
        n_required self !! mode = None).

(** A mode whose samples are final: a plain, non-empty dictionary [d] of
    tensors that has the class key, and both counts zero. *)
Definition settled self mode d : Prop :=
  samples self !! mode = Some d /\
  is_defaultdict d = false /\
  items d ≠ ∅ /\
  n_found self !! mode = Some 0 /\
  n_required self !! mode = Some 0 /\
  map_Forall (fun _ v => is_column v) (items d) /\
  has_class_key (class_key self) (items d).

(** The first column under a key is the one of the first batch, also
    when a key is tracked twice. *)
Definition first_is data m : Prop :=
  forall key v, m !! key = Some v ->
    exists rest, v = Pending (default [] (data !! key) :: rest).

(** What the constructor leaves in a configured mode. *)
Definition initial_buffer (arg : samples_arg row) : pydict row :=
  match arg with
  | SDict d => Dict false (Column <$> d)
  | _ => Dict true ∅
  end.

Definition initial_required (arg : samples_arg row) : Z :=
  match arg with
  | SInt n => n
  | _ => 0
  end.

(** The mode a callback is sent in. *)
Definition event_mode (ev : event row) : string :=
  match ev with
  | BatchEnd mode _ => mode
  | EpochEnd mode => mode
  end.

(** The column a batch has under a key (empty if it has none). *)
Definition column_of key data : tensor row := default [] (data !! key).

(** The rows of a batch are the rows of its columns: every tracked key has
    a column of [n] rows. *)
Definition uniform keys data (n : Z) : Prop :=
  forall key, key ∈ keys -> exists col, data !! key = Some col /\ len col = n.

(** One [on_batch_end] on the pending buffer [m] with found-count [found],
    as a function of the two: the batch is appended while the buffer is
    empty or fewer rows than required were found. *)
Definition batch_step keys (required : Z) (st : gmap string (value row) * Z)
    data : gmap string (value row) * Z :=
  if (size st.1 =? 0)%nat || (st.2 <? required)
  then (appended data st.1 keys, st.2 + last_len data keys 0)
  else st.

(** The trace with the pending buffer [m] and found-count [found] in one
    mode. *)
Definition with_buffer self mode m (found : Z) : t row :=
  Build (class_key self) (model_inputs self)
        (<[mode := Dict true m]> (samples self))
        (<[mode := found]> (n_found self))
        (n_required self).

(** The rows of a list of batches, as [on_batch_end] counts them. *)
Definition sum_rows keys (batches : list (Data row)) : Z :=
  foldr (fun data acc => last_len data keys 0 + acc) 0 batches.

(** The state of a collection: of the batches seen so far, the list
    [taken] was appended and the list [skipped] after it was not. *)
Definition collecting keys (required : Z) (st : gmap string (value row) * Z)
    (taken skipped : list (Data row)) : Prop :=
  (forall key, key ∈ keys ->
     cols_of (st.1 !! key) = map (column_of key) taken) /\
  st.2 = sum_rows keys taken /\
  (skipped ≠ [] -> required <= st.2 /\ taken ≠ []) /\
  (taken ≠ [] -> dom st.1 = list_to_set keys) /\
  (taken = [] -> st.1 = ∅) /\
  map_Forall (fun _ v => pending_nonempty v) st.1.

End Notions.

(** Two batches of two rows for the tracked keys [x] and [y]. *)
Definition batch1 : Data Z := {[ "x" := [1; 2]; "y" := [10; 20] ]}.
Definition batch2 : Data Z := {[ "x" := [3; 4]; "y" := [30; 40] ]}.
Definition batch3 : Data Z := {[ "x" := [5; 6]; "y" := [50; 60] ]}.

(** A trace asked for one batch ([samples=None]) and one asked for three
    samples ([samples=3]), both without class key and with the default
    modes. *)
Definition one_batch_trace : t Z := __init__ None ["x"; "y"] SNone MNone.
Definition three_samples_trace : t Z :=
  __init__ None ["x"; "y"] (SInt 3) MNone.

(** A trace asked for one batch, with the class key [y] and the model
    input [x]. *)
Definition keyed_trace : t Z := __init__ (Some "y"%string) ["x"] SNone MNone.

(** A trace given the samples of [batch1] by the user. *)
Definition user_trace : t Z := __init__ None ["x"; "y"] (SDict batch1) MNone.

(** The trace with the class key after [on_epoch_end] in mode [eval], sent
    before any batch. *)
Definition keyed_trace_looked_up : t Z :=
  match on_epoch_end keyed_trace "eval" with
  | Ok self => self
  | Raise _ => keyed_trace
  end.

(** The trace asked for three samples, after one batch of two rows in mode
    [eval]. *)
Definition after_one_batch : t Z :=
  match on_batch_end three_samples_trace "eval" batch1 with
  | Ok self => self
  | Raise _ => three_samples_trace
  end.

End Saliency.

(** ** util/util.py: [pad_data] *)

Module Pad.

(** The element type of numpy's integer and floating-point arrays, as far
    as it matters for the arrays of shapes [pad_data] computes with. *)
Inductive dtype : Type := Int | Float.

(** A one-dimensional array of integers such as [np.array(target_shape)].
    The values of a [Float] array are whole numbers here. *)
Record vector : Type := Vector { v_dtype : dtype; v_vals : list Z }.

(** [np.array(t)] for a tuple of Python integers; numpy gives the empty
    array the default floating-point type. *)
Definition np_array (t : list Z) : vector :=
  Vector (match t with [] => Float | _ => Int end) t.

(** The type of the result of an arithmetic operation on two arrays. *)
Definition promote (a b : dtype) : dtype :=
  match a, b with
  | Int, Int => Int
  | _, _ => Float
  end.

(** [a - b] on one-dimensional arrays with numpy's broadcasting: equal
    lengths, or one operand of length one, which is stretched; any other pair
    of lengths raises [ValueError]. *)
Definition np_sub (a b : vector) : result vector :=
  let dt := promote (v_dtype a) (v_dtype b) in
  if (length (v_vals a) =? length (v_vals b))%nat
  then Ok (Vector dt (zip_with Z.sub (v_vals a) (v_vals b)))
  else match v_vals a, v_vals b with
       | [x], ys => Ok (Vector dt (map (fun y => x - y) ys))
       | xs, [y] => Ok (Vector dt (map (fun x => x - y) xs))
       | _, _ => Raise ValueError
       end.

(** [np.zeros_like(a)] *)
Definition np_zeros_like (a : vector) : vector :=
  Vector (v_dtype a) (map (fun _ => 0) (v_vals a)).

(** A two-column array of integers: the [pad_width] argument of [np.pad],
    one [(before, after)] row per axis. *)
Record pairs : Type := Pairs { p_dtype : dtype; p_rows : list (Z * Z) }.

(** [np.array([a, b]).T] for two one-dimensional arrays of the same
    length and type. *)
Definition np_stack_T (a b : vector) : pairs :=
  Pairs (promote (v_dtype a) (v_dtype b)) (zip (v_vals a) (v_vals b)).

Section Arrays.

(** The elements of the padded arrays; [pad_value] is one of them. *)
Variable A : Type.

(** An n-dimensional array as numpy stores it: its shape and its
    elements in row-major order. *)
Record ndarray : Type := NdArray { shape : list nat; elems : list A }.

(** The number of elements of an array of a given shape. *)
Definition size_of (sh : list nat) : nat := foldr Nat.mul 1%nat sh.

(** The representation invariant of [ndarray]. *)
Definition wf (a : ndarray) : Prop := length (elems a) = size_of (shape a).

(** The first [n] consecutive blocks of [k] elements. *)
Fixpoint chunks (n k : nat) (l : list A) : list (list A) :=
  match n with
  | O => []
  | S n' => take k l :: chunks n' k (drop k l)
  end.

(** [a[i0, i1, ...]] for a full index of non-negative integers, on the
    elements of an array of shape [sh]: the [i0]-th block along the first
    axis, then the rest of the index inside it. *)
Fixpoint item (sh : list nat) (idx : list nat) (l : list A) : option A :=
  match sh, idx with
  | [], [] => head l
  | n :: sh', i :: idx' =>
      if (i <? n)%nat
      then item sh' idx' (take (size_of sh') (drop (i * size_of sh') l))
      else None
  | _, _ => None
  end.

Definition getitem (a : ndarray) (idx : list nat) : option A :=
  item (shape a) idx (elems a).

(** The shape after padding every axis by its [(before, after)] widths. *)
Definition padded_shape (sh : list nat) (pw : list (nat * nat)) : list nat :=
  zip_with (fun n w => (w.1 + n + w.2)%nat) sh pw.

(** Constant padding of the elements, axis by axis: each block along the
    first axis is padded along the remaining axes, and whole blocks of the
    constant are put before and after them. *)
Fixpoint pad_axes (sh : list nat) (pw : list (nat * nat)) (v : A)
    (l : list A) : list A :=
  match sh, pw with
  | n :: sh', w :: pw' =>
      let block := size_of (padded_shape sh' pw') in
      replicate (w.1 * block) v
      ++ concat (map (pad_axes sh' pw' v) (chunks n (size_of sh') l))
      ++ replicate (w.2 * block) v
  | _, _ => l
  end.

(** [np.pad(a, pad_width, 'constant', constant_values=v)] as numpy 1.17
    and later define it.  [pad_width] must be of integer type
    ([TypeError]) and without negative entries ([ValueError]); a single row
    stands for every axis, otherwise there must be one row per axis
    ([ValueError]). *)
Definition np_pad (a : ndarray) (pad_width : pairs) (v : A) : result ndarray :=
  match p_dtype pad_width with
  | Float => Raise TypeError
  | Int =>
      let rows := p_rows pad_width in
      let ndim := length (shape a) in
      if forallb (fun w => (0 <=? w.1) && (0 <=? w.2)) rows
      then
        widths ← match rows with
                 | [] => Raise ValueError
                 | [w] => Ok (replicate ndim w)
                 | _ => if (length rows =? ndim)%nat then Ok rows
                        else Raise ValueError
                 end;
        let pw := map (fun w => (Z.to_nat w.1, Z.to_nat w.2)) widths in
        Ok (NdArray (padded_shape (shape a) pw)
                    (pad_axes (shape a) pw v (elems a)))
      else Raise ValueError
  end.

(** [pad_data] *)
Definition pad_data (data : ndarray) (target_shape : list Z) (pad_value : A)
  : result ndarray :=
  shape_difference ←
    np_sub (np_array target_shape) (np_array (map Z.of_nat (shape data)));
  let padded_shape :=
    np_stack_T (np_zeros_like shape_difference) shape_difference in
  np_pad data padded_shape pad_value.

(** An index lies inside an array of shape [sh]. *)
Definition in_box (sh : list nat) (idx : list nat) : Prop :=
  Forall2 (fun i n => (i < n)%nat) idx sh.

End Arrays.

Arguments NdArray {A} _ _.
Arguments shape {A} _.
Arguments elems {A} _.
Arguments wf {A} _.
Arguments chunks {A} _ _ _.
Arguments item {A} _ _ _.
Arguments getitem {A} _ _.
Arguments pad_axes {A} _ _ _ _.
Arguments np_pad {A} _ _ _.
Arguments pad_data {A} _ _ _.

(** *** Notions used to state the properties of [pad_data] *)

Definition high_pad (after : list nat) : list (nat * nat) :=
  map (fun d => (0%nat, d)) after.

(** The differences [target - shape], one per axis. *)
Definition differences (sh : list nat) (target : list Z) : list Z :=
  zip_with Z.sub target (map Z.of_nat sh).

(** [a'] is [a] padded with [v] at the high end of every axis up to the
    shape [target]. *)
Definition pads_to {A : Type} (v : A) (target : list nat) (a a' : ndarray A)
  : Prop :=
  wf a' /\
  shape a' = target /\
  forall idx, in_box target idx ->
    (in_box (shape a) idx ->
     exists x, getitem a idx = Some x /\ getitem a' idx = Some x) /\
    (~ in_box (shape a) idx -> getitem a' idx = Some v).

(** The array [[1, 1]] of the docstring, and the scalar array [np.array(5)]. *)
Definition ones_1x2 : ndarray Z := NdArray [1; 2]%nat [1; 1].
Definition scalar_5 : ndarray Z := NdArray [] [5].
Definition grid_2x2 : ndarray Z := NdArray [2; 2]%nat [1; 2; 3; 4].

End Pad.

(** ** util/util.py: [pad_batch] and [get_batch_size] *)

Module Batch.
Import Pad.

Section Batches.

(** The elements of the arrays, and the values that are no arrays. *)
Context {A B : Type}.

(** A value of a record: a numpy array, or a value without a [shape]
    attribute (a Python number, a string). *)
Inductive datum : Type :=
| Arr (a : ndarray A)
| Plain (b : B).

(** [d.shape] where [hasattr(d, "shape")]. *)
Definition shape_of (d : datum) : option (list nat) :=
  match d with
  | Arr a => Some (shape a)
  | Plain _ => None
  end.

(** [len(set(l))] *)
Definition distinct {X : Type} `{EqDecision X} (l : list X) : nat :=
  length (remove_dups l).

(** [[data[key].shape for data in batch if hasattr(data[key], "shape")]] *)
Fixpoint shapes_at (key : string) (batch : list (gmap string datum))
  : result (list (list nat)) :=
  match batch with
  | [] => Ok []
  | data :: rest =>
      d ← dict_getitem data key;
      shapes ← shapes_at key rest;
      Ok (match shape_of d with
          | Some s => s :: shapes
          | None => shapes
          end)
  end.

(** [np.max(np.array(shapes), axis=0)] for shapes of one rank: the largest
    size along every axis. *)
Definition max_shapes (shapes : list (list nat)) : list nat :=
  match shapes with
  | [] => []
  | s :: rest => foldl (zip_with Nat.max) s rest
  end.

(** [for data in batch: data[key] = pad_data(data[key], max_shapes,
    pad_value)]; a value without [shape] makes [pad_data] raise
    [AttributeError] at [data.shape]. *)
Fixpoint pad_records (key : string) (target : list Z) (pad_value : A)
    (batch : list (gmap string datum)) : result (list (gmap string datum)) :=
  match batch with
  | [] => Ok []
  | data :: rest =>
      d ← dict_getitem data key;
      padded ← match d with
               | Arr a => a' ← pad_data a target pad_value; Ok (Arr a')
               | Plain _ => Raise AttributeError
               end;
      rest' ← pad_records key target pad_value rest;
      Ok (<[key := padded]> data :: rest')
  end.

(** The body of the loop [for key in keys] of [pad_batch]. *)
Definition pad_key (pad_value : A) (batch : list (gmap string datum))
    (key : string) : result (list (gmap string datum)) :=
  shapes ← shapes_at key batch;
  if (1 <? distinct shapes)%nat then
    if (distinct (map length shapes) =? 1)%nat
    then pad_records key (map Z.of_nat (max_shapes shapes)) pad_value batch
    else Raise AssertionError
  else Ok batch.

Fixpoint pad_keys (pad_value : A) (keys : list string)
    (batch : list (gmap string datum)) : result (list (gmap string datum)) :=
  match keys with
  | [] => Ok batch
  | key :: keys' =>
      batch' ← pad_key pad_value batch key;
      pad_keys pad_value keys' batch'
  end.

(** [for one_batch in batch: assert one_batch.keys() == keys] *)
Fixpoint check_batch_keys (keys : gset string)
    (batch : list (gmap string datum)) : result unit :=
  match batch with
  | [] => Ok tt
  | one_batch :: rest =>
      if decide (dom one_batch = keys) then check_batch_keys keys rest
      else Raise AssertionError
  end.

(** [pad_batch]: the padding is done in place, so the result is the
    batch as the call leaves it.  The keys are visited in the order of the
    first record's items. *)
Definition pad_batch (batch : list (gmap string datum)) (pad_value : A)
  : result (list (gmap string datum)) :=
  first ← py_getitem batch 0;
  _ ← check_batch_keys (dom first) batch;
  pad_keys pad_value (map fst (map_to_list first)) batch.

(** The first sizes of the values that have a non-empty shape. *)
Definition first_dims (data : gmap string datum) : list nat :=
  omap (fun kv => match kv.2 with
                  | Arr a => head (shape a)
                  | Plain _ => None
                  end) (map_to_list data).

(** [get_batch_size] *)
Definition get_batch_size (data : gmap string datum) : result nat :=
  match remove_dups (first_dims data) with
  | [n] => Ok n
  | _ => Raise AssertionError
  end.

(** *** Notions used to state the properties of [pad_batch] *)

Implicit Types (d : datum) (data : gmap string datum)
         (batch : list (gmap string datum)).

(** The values under [key], record by record. *)
Definition column (key : string) batch : list datum :=
  omap (fun data => data !! key) batch.

(** The shapes of the arrays under [key]. *)
Definition shapes_of (key : string) batch : list (list nat) :=
  omap shape_of (column key batch).

(** All arrays under [key] have one shape. *)
Definition same_shape (key : string) batch : Prop :=
  forall s1 s2,
    s1 ∈ shapes_of key batch -> s2 ∈ shapes_of key batch -> s1 = s2.

(** All arrays under [key] have one rank. *)
Definition same_rank (key : string) batch : Prop :=
  forall s1 s2,
    s1 ∈ shapes_of key batch -> s2 ∈ shapes_of key batch ->
    length s1 = length s2.

(** Every value under [key] is an array. *)
Definition all_arrays (key : string) batch : Prop :=
  Forall (fun d => is_Some (shape_of d)) (column key batch).

(** Every array of the batch has as many elements as its shape says. *)
Definition well_formed batch : Prop :=
  Forall (map_Forall (fun _ d => match d with
                                 | Arr a => wf a
                                 | Plain _ => True
                                 end)) batch.

(** [d'] is [d] when [d] is no array, and [d] padded to [target] when it
    is one. *)
Definition padded_datum (v : A) (target : list nat) d d' : Prop :=
  match d with
  | Plain b => d' = Plain b
  | Arr a => exists a', d' = Arr a' /\ pads_to v target a a'
  end.

(** [data'] has the keys of [data], and under every key the value of
    [data] padded to the largest shape found under that key in [batch]. *)
Definition padded_record (v : A) batch data data' : Prop :=
  dom data' = dom data /\
  forall key d, data !! key = Some d ->
    exists d', data' !! key = Some d' /\
               padded_datum v (max_shapes (shapes_of key batch)) d d'.

(** One record after the padding under [key] to [target]. *)
Definition key_padded (v : A) (key : string) (target : list nat) data data' : Prop :=
  exists d d',
    data !! key = Some d /\ data' = <[key := d']> data /\
    padded_datum v target d d'.

(** What lets the padding of one array succeed. *)
Definition fits (target : list nat) d : Prop :=
  match d with
  | Arr a => wf a /\ shape a <> [] /\ Forall2 le (shape a) target
  | Plain _ => True
  end.

(** Under [key], [pad_batch] has nothing to do or can pad. *)
Definition paddable (key : string) batch : Prop :=
  same_shape key batch \/ (all_arrays key batch /\ same_rank key batch).

(** Under [key], the loop body of [pad_batch] raises [e]. *)
Definition fails (e : exn) (key : string) batch : Prop :=
  match e with
  | AssertionError => ~ same_rank key batch
  | AttributeError =>
      same_rank key batch /\ ~ same_shape key batch /\ ~ all_arrays key batch
  | _ => False
  end.

(** One record after the padding under the keys [keys] of the batch
    [batch]. *)
Definition keys_padded (v : A) (keys : list string) batch data data' : Prop :=
  dom data' = dom data /\
  forall key d, data !! key = Some d ->
    exists d', data' !! key = Some d' /\
      (key ∈ keys -> padded_datum v (max_shapes (shapes_of key batch)) d d') /\
      (key ∉ keys -> d' = d).

End Batches.

Arguments datum : clear implicits.

(** The batch of the docstring of [pad_batch]: a 2x2 and a 3x1 array of
    ones under [x], and a number under [y]. *)
Definition docstring_batch : list (gmap string (datum Z Z)) :=
  [ {[ "x" := Arr (NdArray [2; 2]%nat [1; 1; 1; 1]); "y" := Plain 8 ]};
    {[ "x" := Arr (NdArray [3; 1]%nat [1; 1; 1]); "y" := Plain 4 ]} ].

(** Two records whose arrays under [x] have one shape. *)
Definition square_batch : list (gmap string (datum Z Z)) :=
  [ {[ "x" := Arr (NdArray [2; 2]%nat [1; 2; 3; 4]); "y" := Plain 8 ]};
    {[ "x" := Arr (NdArray [2; 2]%nat [5; 6; 7; 8]); "y" := Plain 4 ]} ].

(** Two records with different keys. *)
Definition mixed_keys_batch : list (gmap string (datum Z Z)) :=
  [ {[ "x" := Arr (NdArray [2]%nat [1; 2]) ]};
    {[ "y" := Arr (NdArray [2]%nat [3; 4]) ]} ].

(** A vector and a matrix under one key. *)
Definition mixed_rank_batch : list (gmap string (datum Z Z)) :=
  [ {[ "x" := Arr (NdArray [2]%nat [1; 2]) ]};
    {[ "x" := Arr (NdArray [1; 1]%nat [3]) ]} ].

(** Two vectors of different lengths and a number under one key. *)
Definition number_batch : list (gmap string (datum Z Z)) :=
  [ {[ "x" := Arr (NdArray [2]%nat [1; 2]) ]};
    {[ "x" := Arr (NdArray [3]%nat [3; 4; 5]) ]};
    {[ "x" := Plain 5 ]} ].

End Batch.

(** ** util/util.py: [cpu_count] *)

Module CpuCount.

(** *** [int(s)] and [str(n)] for decimal integers *)

Definition is_space (a : ascii) : bool :=
  let n := nat_of_ascii a in
  ((9 <=? n) && (n <=? 13) || (28 <=? n) && (n <=? 32))%nat.

Definition digit_of (a : ascii) : option Z :=
  let n := nat_of_ascii a in
  if ((48 <=? n) && (n <=? 57))%nat then Some (Z.of_nat n - 48) else None.

Fixpoint lstrip (s : string) : string :=
  match s with
  | String a s' => if is_space a then lstrip s' else s
  | EmptyString => EmptyString
  end.

Fixpoint rstrip (s : string) : string :=
  match s with
  | String a s' =>
      match rstrip s' with
      | EmptyString => if is_space a then EmptyString else String a EmptyString
      | r => String a r
      end
  | EmptyString => EmptyString
  end.

(** The digits of a literal: underscores may stand between two digits.
    [after_digit] tells whether the previous character was a digit. *)
Fixpoint parse_digits (s : string) (acc : Z) (after_digit : bool) : option Z :=
  match s with
  | EmptyString => if after_digit then Some acc else None
  | String a s' =>
      match digit_of a with
      | Some d => parse_digits s' (10 * acc + d) true
      | None =>
          if Ascii.eqb a "_"%char && after_digit then parse_digits s' acc false
          else None
      end
  end.

(** [int(s)] for a string of ASCII characters: surrounding whitespace, an
    optional sign, decimal digits; anything else raises [ValueError]. *)
Definition py_int (s : string) : result Z :=
  let parsed :=
    match rstrip (lstrip s) with
    | String "+"%char r => parse_digits r 0 false
    | String "-"%char r => Z.opp <$> parse_digits r 0 false
    | r => parse_digits r 0 false
    end in
  match parsed with
  | Some n => Ok n
  | None => Raise ValueError
  end.

(** The decimal digits of a positive number, most significant first,
    in front of [tail]; [fuel] bounds the number of digits. *)
Fixpoint digits_of (fuel : nat) (n : Z) (tail : string) : string :=
  match fuel with
  | O => tail
  | S fuel' =>
      let tail' := String (ascii_of_nat (Z.to_nat (48 + n mod 10))) tail in
      if n / 10 =? 0 then tail' else digits_of fuel' (n / 10) tail'
  end.

(** [f"{n}"] for an integer. *)
Definition py_str (n : Z) : string :=
  if n =? 0 then "0"
  else if n <? 0 then String "-"%char (digits_of (Z.to_nat (- n)) (- n) EmptyString)
  else digits_of (Z.to_nat n) n EmptyString.

(** *** The process state [cpu_count] reads and writes *)

(** [os.environ], and what torch keeps of its thread pools: the two thread
    counts once they were set, and whether inter-op parallel work has
    started. *)
Record process : Type := Process {
  environ : gmap string string;
  torch_num_threads : option Z;
  torch_num_interop_threads : option Z;
  torch_parallel_started : bool
}.

(** [x or default] for an optional integer: [None] and [0] are falsy. *)
Definition or_else (x : option Z) (default : Z) : Z :=
  match x with
  | Some n => if n =? 0 then default else n
  | None => default
  end.

(** [if s:] for the result of [os.environ.get]: unset and empty are
    falsy. *)
Definition truthy (s : option string) : option string :=
  match s with
  | Some EmptyString => None
  | other => other
  end.

(** The five assignments to [os.environ]. *)
Definition set_thread_variables (value : string) (p : process) : process :=
  Process (<["TF_NUM_INTRAOP_THREADS" := value]>
           (<["TF_NUM_INTEROP_THREADS" := value]>
            (<["MKL_NUM_THREADS" := value]>
             (<["OMP_NUM_THREADS" := value]>
              (<["FE_NUM_THREADS_" := value]> (environ p))))))
          (torch_num_threads p) (torch_num_interop_threads p)
          (torch_parallel_started p).

(** Modelled from the spec: torch is not among the sources.
    [torch.set_num_threads(n)] sets the size of the intra-op pool, for a
    positive [n] at any time. *)
Definition set_num_threads (n : Z) (p : process) : process :=
  Process (environ p) (Some n) (torch_num_interop_threads p)
          (torch_parallel_started p).

(** Modelled from the spec: torch is not among the sources.
    [torch.set_num_interop_threads(n)] sets the size of the inter-op pool
    once, and only before inter-op parallel work has started; otherwise it
    raises [RuntimeError] and changes nothing. *)
Definition set_num_interop_threads (n : Z) (p : process)
  : result unit * process :=
  match torch_num_interop_threads p with
  | Some _ => (Raise RuntimeError, p)
  | None =>
      if torch_parallel_started p then (Raise RuntimeError, p)
      else (Ok tt, Process (environ p) (torch_num_threads p) (Some n)
                           (torch_parallel_started p))
  end.

(** [env_limit], as the lines up to the count of the cores leave it: the
    integer in [FE_NUM_THREADS], if the variable is set and not empty. *)
Definition env_limit_of (p : process) : result (option Z) :=
  match truthy (environ p !! "FE_NUM_THREADS") with
  | Some s => n ← py_int s; Ok (Some n)
  | None => Ok None
  end.

(** [cpu_count].  The call ends with a number or with an exception, and in
    both cases leaves a process state behind.  [cores] stands for what the
    operating system reports: [len(os.sched_getaffinity(0))], or
    [os.cpu_count()] where that is not available, which may be [None];
    [min] then raises [TypeError]. *)
Definition cpu_count (cores : option Z) (limit : option Z) (p : process)
  : result Z * process :=
  match truthy (environ p !! "FE_NUM_THREADS_") with
  | Some existing =>
      match py_int existing with
      | Raise e => (Raise e, p)
      | Ok existing_limit =>
          if match limit with
             | Some l => negb (l =? 0) && negb (l =? existing_limit)
             | None => false
             end
          then (Raise ValueError, p)
          else (Ok existing_limit, p)
      end
  | None =>
      match env_limit_of p with
      | Raise e => (Raise e, p)
      | Ok env_limit =>
          match cores with
          | None => (Raise TypeError, p)
          | Some cores =>
              let cores := Z.min (Z.min cores (or_else limit cores))
                                 (or_else env_limit cores) in
              if cores <? 1 then (Raise ValueError, p)
              else
                let p1 := set_thread_variables (py_str cores) p in
                let p2 := set_num_threads cores p1 in
                match set_num_interop_threads cores p2 with
                | (Ok _, p3) => (Ok cores, p3)
                | (Raise e, p3) => (Raise e, p3)
                end
          end
      end
  end.

(** The strings made of decimal digits only, as [f"{n}"] gives them for a
    natural number. *)
Fixpoint digits_only (s : string) : bool :=
  match s with
  | EmptyString => true
  | String a s' =>
      match digit_of a with
      | Some _ => digits_only s'
      | None => false
      end
  end.

(** The variables [cpu_count] writes. *)
Definition thread_variables : list string :=
  ["FE_NUM_THREADS_"; "OMP_NUM_THREADS"; "MKL_NUM_THREADS";
   "TF_NUM_INTEROP_THREADS"; "TF_NUM_INTRAOP_THREADS"].

(** Torch can still take an inter-op thread count. *)
Definition interop_free (p : process) : Prop :=
  torch_num_interop_threads p = None /\ torch_parallel_started p = false.

(** A process with an empty environment in which torch was not used. *)
Definition fresh_process : process := Process ∅ None None false.

(** The process [cpu_count(limit=3)] leaves behind when it starts from
    [fresh_process] on eight cores. *)
Definition settled_process : process :=
  Process (list_to_map (map (fun key => (key, "3"%string)) thread_variables))
          (Some 3) (Some 3) false.

(** A process with an empty environment in which torch's thread counts
    were set before. *)
Definition torch_set_process : process := Process ∅ (Some 3) (Some 3) false.

End CpuCount.

(** ** trace/xai/saliency.py: blending the samples with their masks *)

Module Blend.

(** The arithmetic of the backend's tensors on one element: the tensors of
    tensorflow, torch and numpy differ in element type and rounding, and the
    blend uses only these operations.  [of_float] converts a Python float
    literal to the element type. *)
Class Number (T : Type) : Type := {
  add : T -> T -> T;
  sub : T -> T -> T;
  mul : T -> T -> T;
  minimum : T -> T -> T;
  maximum : T -> T -> T;
  of_float : float -> T
}.

Section Tensors.
Context {T : Type} `{Number T}.

(** A tensor as the list of its elements in row-major order; the two
    tensors of an element-wise operation have the same shape. *)
Abbreviation tensor := (list T) (only parsing).

(** [c * t], [t * s], [t + s] and [t - s] for a scalar and a tensor;
    [a * b] and [a + b] for two tensors. *)
Definition scale (c : T) (t : tensor) : tensor := map (mul c) t.
Definition times_scalar (t : tensor) (s : T) : tensor := map (fun x => mul x s) t.
Definition plus_scalar (t : tensor) (s : T) : tensor := map (fun x => add x s) t.
Definition minus_scalar (t : tensor) (s : T) : tensor := map (fun x => sub x s) t.
Definition times (a b : tensor) : tensor := zip_with mul a b.
Definition plus (a b : tensor) : tensor := zip_with add a b.

(** Modelled from the spec: [fastestimator.backend._reduce_min] and
    [_reduce_max] are not among the sources; the spec has the minimum and
    the maximum "computed per the full sample tensor (not per-element)".
    The reduction of a tensor without elements raises. *)
Definition reduce_min (t : tensor) : result T :=
  match t with
  | [] => Raise ValueError
  | x :: xs => Ok (foldl minimum x xs)
  end.

Definition reduce_max (t : tensor) : result T :=
  match t with
  | [] => Raise ValueError
  | x :: xs => Ok (foldl maximum x xs)
  end.

(** The expression assigned to [args["{} {}".format(key, outkey)]];
    [0x1.3333333333333p-2] and [0x1.999999999999ap-2] are the doubles that
    the literals [0.3] and [0.4] denote:
    [0.3 * (sal * (val - min_val) + min_val) + 0.3 * val
     + 0.4 * sal * diff + min_val]. *)
Definition blend (sal val : tensor) (min_val diff : T) : tensor :=
  plus_scalar
    (plus
       (plus
          (scale (of_float 0x1.3333333333333p-2)
             (plus_scalar (times sal (minus_scalar val min_val)) min_val))
          (scale (of_float 0x1.3333333333333p-2) val))
       (times_scalar (scale (of_float 0x1.999999999999ap-2) sal) diff))
    min_val.

(** [smint or integrated or smoothed or masks]: the first dictionary
    that is not empty, or the last one. *)
Definition choose_sal (smint integrated smoothed masks : gmap string tensor)
  : gmap string tensor :=
  if negb (size smint =? 0)%nat then smint
  else if negb (size integrated =? 0)%nat then integrated
  else if negb (size smoothed =? 0)%nat then smoothed
  else masks.

(** The loop [for outkey in self.outputs], as the list of the
    assignments to [args] it makes, in order. *)
Fixpoint blend_outputs (sal : gmap string tensor) (key : string)
    (val : tensor) (min_val diff : T) (outputs : list string)
  : result (list (string * tensor)) :=
  match outputs with
  | [] => Ok []
  | outkey :: outputs' =>
      mask ← dict_getitem sal outkey;
      rest ← blend_outputs sal key val min_val diff outputs';
      Ok ((key +:+ " " +:+ outkey, blend mask val min_val diff) :: rest)
  end.

(** The loop [for key, val in self.samples[mode].items()] of
    [on_epoch_end], as the list of the assignments to [args] it makes, in
    order.  [key is not self.class_key] is read as inequality of the
    strings. *)
Fixpoint blend_samples (sal : gmap string tensor) (class_key : option string)
    (outputs : list string) (samples : list (string * tensor))
  : result (list (string * tensor)) :=
  match samples with
  | [] => Ok []
  | (key, val) :: samples' =>
      here ← (if decide (Some key = class_key) then Ok []
              else
                min_val ← reduce_min val;
                max_val ← reduce_max val;
                blended ← blend_outputs sal key val min_val
                            (sub max_val min_val) outputs;
                Ok ((key, val) :: blended));
      rest ← blend_samples sal class_key outputs samples';
      Ok (here ++ rest)
  end.

(** The blend for one element, as the spec writes it. *)
Definition blend_formula (mask value min_val max_val : T) : T :=
  add (add (add (mul (of_float 0x1.3333333333333p-2)
                     (add (mul mask (sub value min_val)) min_val))
                (mul (of_float 0x1.3333333333333p-2) value))
           (mul (mul (of_float 0x1.999999999999ap-2) mask)
                (sub max_val min_val)))
      min_val.

End Tensors.

(** Double-precision elements, with numpy's [0.3] and [0.4]. *)
#[export] Instance float_number : Number float := {|
  add := PrimFloat.add;
  sub := PrimFloat.sub;
  mul := PrimFloat.mul;
  minimum := fun x y => if PrimFloat.ltb y x then y else x;
  maximum := fun x y => if PrimFloat.ltb x y then y else x;
  of_float := fun x => x
|}.

End Blend.

(** ** trace/xai/saliency.py: the label mapping *)

Module LabelMapping.

(** [{val: key for key, val in label_mapping.items()}], on the items of
    the dictionary in their order: a later item replaces an earlier one with
    the same value.  The model output values are integers here. *)
Definition invert (label_mapping : list (string * Z)) : gmap Z string :=
  foldl (fun acc kv => <[kv.2 := kv.1]> acc) ∅ label_mapping.

(** [self.label_mapping] as the constructor sets it: the inverted
    dictionary, or [None] when no (or an empty) mapping was given. *)
Definition __init__ (label_mapping : option (list (string * Z)))
  : option (gmap Z string) :=
  match label_mapping with
  | Some (kv :: rest) => Some (invert (kv :: rest))
  | _ => None
  end.

(** A class as it is shown: the raw model output value, or its name. *)
Inductive label : Type :=
| Value (z : Z)
| Name (s : string).

(** [[self.label_mapping[clazz] for clazz in ...]]: a class without an
    entry raises [KeyError]. *)
Fixpoint lookup_all (m : gmap Z string) (classes : list Z) : result (list label) :=
  match classes with
  | [] => Ok []
  | clazz :: classes' =>
      name ← match m !! clazz with
             | Some s => Ok (Name s)
             | None => Raise KeyError
             end;
      rest ← lookup_all m classes';
      Ok (name :: rest)
  end.

(** Modelled from the spec: [squeeze] (fastestimator.backend) is not among
    the sources; it drops every axis of size one.  [classes] lists the class
    tensor by sample: one value per sample, of shape [(n,)] or [(n, 1)].
    [for clazz in to_number(squeeze(classes))]: for a single sample the
    squeezed array has rank 0, and iterating over it raises [TypeError]. *)
Definition iterate_squeezed (classes : list Z) : result (list Z) :=
  match classes with
  | [_] => Raise TypeError
  | _ => Ok classes
  end.

(** The two statements [if self.label_mapping: classes = ...] of
    [on_epoch_end]. *)
Definition remap (label_mapping : option (gmap Z string)) (classes : list Z)
  : result (list label) :=
  match label_mapping with
  | Some m => if (size m =? 0)%nat then Ok (map Value classes)
              else clazzes ← iterate_squeezed classes; lookup_all m clazzes
  | None => Ok (map Value classes)
  end.

(** A mapping from class names to the integers 0, 1, 2. *)
Definition animals : list (string * Z) := [("cat", 0); ("dog", 1); ("owl", 2)].

End LabelMapping.

(** * Properties *)

(** ** Python list indexing *)

Lemma len_nonneg {A : Type} (l : list A) : 0 <= len l.
Proof. unfold len. lia. Qed.

Lemma len_app {A : Type} (l1 l2 : list A) : len (l1 ++ l2) = len l1 + len l2.
Proof. unfold len. rewrite length_app. lia. Qed.

Lemma py_getitem_in_range {A : Type} (l : list A) (i : Z) :
  0 <= i < len l ->
  exists x, l !! Z.to_nat i = Some x /\ py_getitem l i = Ok x.
Proof.
  intros [Hlo Hhi]. unfold py_getitem.
  destruct (Z.ltb_spec i 0) as [Hneg|_]; [lia|].
  destruct (Z.ltb_spec i 0) as [Hneg|_]; [lia|].
  destruct (l !! Z.to_nat i) as [x|] eqn:Hx.
  - exists x. split; reflexivity.
  - apply lookup_ge_None in Hx. unfold len in Hhi. lia.
Qed.

Lemma py_getitem_lookup {A : Type} (l : list A) (i : Z) :
  0 <= i < len l ->
  (x ← py_getitem l i; Ok (Some x)) = Ok (l !! Z.to_nat i).
Proof.
  intros Hi. destruct (py_getitem_in_range l i Hi) as (x & Hx & Hget).
  rewrite Hget, Hx. reflexivity.
Qed.

(** ** CombinedDataset *)

Module CombinedDatasetSpec.
Import CombinedDataset.

Section Facts.
Context {V : Type}.
Implicit Types (c : t V) (dss : list (source V)) (ds : source V).

(** The total length is the length of the flattened sequence. *)
Lemma len_flatten c : __len__ c = len (flatten c).
Proof.
  destruct c as [dss]. unfold __len__, flatten. simpl.
  induction dss as [|ds dss IH]; simpl; [reflexivity|].
  rewrite len_app, IH. reflexivity.
Qed.

Lemma total_nonneg dss : 0 <= foldr Z.add 0 (map len dss).
Proof.
  induction dss as [|ds dss IH]; simpl; [lia|].
  pose proof (len_nonneg ds). lia.
Qed.

(** Once [start] has overtaken the index no source can match any more:
    [start] only grows. *)
Lemma getitem_loop_start_past dss idx start end_ :
  idx < start -> 0 <= end_ ->
  getitem_loop dss idx start end_ = Ok None.
Proof.
  revert start end_.
  induction dss as [|ds dss IH]; intros start end_ Hlt Hend; simpl;
    [reflexivity|].
  pose proof (len_nonneg ds) as Hds.
  destruct (Z.leb_spec start idx) as [Hle|_]; [lia|]. simpl.
  apply IH; lia.
Qed.

(** An index at or beyond the total length is never below [end_]. *)
Lemma getitem_loop_end_short dss idx start end_ :
  end_ + foldr Z.add 0 (map len dss) <= idx ->
  getitem_loop dss idx start end_ = Ok None.
Proof.
  revert start end_.
  induction dss as [|ds dss IH]; intros start end_ Hge; simpl in *;
    [reflexivity|].
  pose proof (total_nonneg dss) as Htot.
  destruct (Z.ltb_spec idx (end_ + len ds)) as [Hlt|_]; [lia|].
  rewrite andb_false_r. apply IH. lia.
Qed.

(** Indices that fall into the first or the second source are served
    correctly: the offset of the second source is still right. *)
Lemma getitem_first_two_sources ds1 ds2 dss idx :
  0 <= idx < len ds1 + len ds2 ->
  __getitem__ (Build (ds1 :: ds2 :: dss)) idx
  = Ok (flatten (Build (ds1 :: ds2 :: dss)) !! Z.to_nat idx).
Proof.
  intros [Hlo Hhi]. unfold __getitem__, flatten. simpl.
  destruct (Z.leb_spec 0 idx) as [_|?]; [|lia]. simpl.
  destruct (Z.ltb_spec idx (0 + len ds1)) as [Hin1|Hin2].
  - rewrite Z.sub_0_r, py_getitem_lookup by lia.
    rewrite lookup_app_l; [reflexivity|]. unfold len in Hin1. lia.
  - destruct (Z.leb_spec (0 + (0 + len ds1)) idx) as [_|?]; [|lia]. simpl.
    destruct (Z.ltb_spec idx (0 + len ds1 + len ds2)) as [_|?]; [|lia].
    rewrite py_getitem_lookup by lia.
    unfold len in *.
    rewrite lookup_app_r by lia.
    rewrite lookup_app_l by lia.
    f_equal. f_equal. lia.
Qed.

(** A composite of exactly two sources behaves as the flattened list on
    every valid index. *)
Lemma getitem_two_sources ds1 ds2 idx :
  0 <= idx < __len__ (Build [ds1; ds2]) ->
  __getitem__ (Build [ds1; ds2]) idx
  = Ok (flatten (Build [ds1; ds2]) !! Z.to_nat idx).
Proof.
  intros Hidx. apply getitem_first_two_sources.
  unfold __len__ in Hidx. simpl in Hidx. lia.
Qed.

(** *** The constructor's checks *)

Lemma py_getitem_0 {A : Type} (l : list A) :
  py_getitem l 0 = match head l with Some x => Ok x | None => Raise IndexError end.
Proof. destruct l; reflexivity. Qed.

Lemma check_keys_ok keys dss :
  Forall (fun ds => first_keys ds = Some keys) dss ->
  check_keys keys dss = Ok tt.
Proof.
  induction 1 as [|ds dss Hds _ IH]; simpl; [reflexivity|].
  rewrite py_getitem_0. unfold first_keys in Hds.
  destruct (head ds) as [r|]; simpl in *; [|discriminate].
  injection Hds as Hds.
  destruct (decide (dom r ≠ keys)) as [Hne|_]; [contradiction|].
  exact IH.
Qed.

Lemma check_keys_ok_inv keys dss :
  check_keys keys dss = Ok tt ->
  Forall (fun ds => first_keys ds = Some keys) dss.
Proof.
  induction dss as [|ds dss IH]; simpl; intros Hck; [constructor|].
  rewrite py_getitem_0 in Hck. unfold first_keys at 1.
  destruct (head ds) as [r|] eqn:Hhd; simpl in *; [|discriminate].
  destruct (decide (dom r ≠ keys)) as [Hne|Heq]; [discriminate|].
  constructor; [|auto].
  rewrite Hhd. simpl. f_equal.
  destruct (decide (dom r = keys)); [assumption|contradiction].
Qed.

Lemma check_keys_mismatch keys dss :
  Forall (fun ds => is_Some (first_keys ds)) dss ->
  Exists (fun ds => first_keys ds ≠ Some keys) dss ->
  check_keys keys dss = Raise KeyError.
Proof.
  induction 1 as [|ds dss [k Hk] _ IH]; intros Hex; [inversion Hex|].
  simpl. rewrite py_getitem_0. unfold first_keys in Hk.
  destruct (head ds) as [r|] eqn:Hhd; simpl in *; [|discriminate].
  destruct (decide (dom r ≠ keys)) as [Hne|Heq]; [reflexivity|].
  apply IH. inversion Hex as [? ? Hhere|]; subst; [|assumption].
  exfalso. apply Hhere. unfold first_keys. rewrite Hhd. simpl. f_equal.
  destruct (decide (dom r = keys)); [assumption|contradiction].
Qed.

(** What a successful construction tells about the sources. *)
Lemma init_ok_inv dss c :
  __init__ dss = Ok c ->
  c = Build dss /\ 2 <= len dss /\
  exists keys, Forall (fun ds => first_keys ds = Some keys) dss.
Proof.
  unfold __init__. destruct (Z.ltb_spec (len dss) 2) as [|Hlen]; [discriminate|].
  destruct dss as [|d0 rest]; [discriminate|].
  rewrite py_getitem_0. cbn [head hd_error mbind result_bind].
  rewrite py_getitem_0.
  destruct (head d0) as [r0|] eqn:Hhd; cbn [mbind result_bind drop];
    [|discriminate].
  rewrite drop_0.
  destruct (check_keys (dom r0) rest) as [[]|e] eqn:Hck; [|discriminate].
  intros [= <-]. split; [reflexivity|]. split; [assumption|].
  exists (dom r0). constructor.
  - unfold first_keys. rewrite Hhd. reflexivity.
  - apply check_keys_ok_inv. assumption.
Qed.

End Facts.

(** C6. The constructor rejects fewer than two sources with the
    [AssertionError] raised by its first check (the configuration error of
    the composite); it rejects, with [KeyError], a list of sources in which
    some non-first source's first record has a key set different from that of
    the first source's first record; and it accepts any list of at least two
    sources whose first records all have the same key set, whatever the keys
    of the later records are: only the first record of each source is
    compared. *)
Theorem init_checks (V : Type) :
  (forall dss : list (source V),
      len dss < 2 -> __init__ dss = Raise AssertionError) /\
  (forall (ds0 : source V) (rest : list (source V)) (keys : gset string),
      rest <> [] ->
      first_keys ds0 = Some keys ->
      Forall (fun ds => is_Some (first_keys ds)) rest ->
      Exists (fun ds => first_keys ds <> Some keys) rest ->
      __init__ (ds0 :: rest) = Raise KeyError) /\
  (forall (ds0 : source V) (rest : list (source V)) (keys : gset string),
      rest <> [] ->
      first_keys ds0 = Some keys ->
      Forall (fun ds => first_keys ds = Some keys) rest ->
      __init__ (ds0 :: rest) = Ok (Build (ds0 :: rest))).
Proof.
  split; [|split].
  - intros dss Hlen. unfold __init__.
    destruct (Z.ltb_spec (len dss) 2); [reflexivity|lia].
  - intros ds0 rest keys Hrest Hk0 Hall Hex. unfold __init__.
    destruct rest as [|ds1 rest]; [contradiction|].
    destruct (Z.ltb_spec (len (ds0 :: ds1 :: rest)) 2) as [Hlen|_].
    { unfold len in Hlen. simpl in Hlen. lia. }
    rewrite py_getitem_0. cbn [head hd_error mbind result_bind].
    rewrite py_getitem_0. unfold first_keys in Hk0.
    destruct (head ds0) as [r0|]; simpl in Hk0; [|discriminate].
    injection Hk0 as <-. cbn [mbind result_bind drop].
    rewrite (check_keys_mismatch _ _ Hall Hex). reflexivity.
  - intros ds0 rest keys Hrest Hk0 Hall. unfold __init__.
    destruct rest as [|ds1 rest]; [contradiction|].
    destruct (Z.ltb_spec (len (ds0 :: ds1 :: rest)) 2) as [Hlen|_].
    { unfold len in Hlen. simpl in Hlen. lia. }
    rewrite py_getitem_0. cbn [head hd_error mbind result_bind].
    rewrite py_getitem_0. unfold first_keys in Hk0.
    destruct (head ds0) as [r0|]; simpl in Hk0; [|discriminate].
    injection Hk0 as <-. cbn [mbind result_bind drop].
    rewrite (check_keys_ok _ _ Hall). reflexivity.
Qed.

(** One source is refused; a second source whose first record has key [y]
    instead of [x] is refused; a second source whose first record has key
    [x] is accepted although its second record has key [y]. *)
Lemma init_checks_witness :
  __init__ [[rec_x 1]] = Raise AssertionError /\
  __init__ [[rec_x 1]; [rec_y 2]] = Raise KeyError /\
  __init__ [[rec_x 1]; [rec_x 2; rec_y 3]]
  = Ok (Build [[rec_x 1]; [rec_x 2; rec_y 3]]).
Proof.
  destruct (init_checks Z) as (Hfew & Hkeys & Hok).
  split; [|split].
  - apply Hfew. vm_compute. reflexivity.
  - apply (Hkeys [rec_x 1] [[rec_y 2]] {[ "x" ]}).
    + discriminate.
    + vm_compute. reflexivity.
    + repeat constructor. exists {[ "y" ]}. vm_compute. reflexivity.
    + apply Exists_cons_hd. vm_compute. discriminate.
  - apply (Hok [rec_x 1] [[rec_x 2; rec_y 3]] {[ "x" ]}).
    + discriminate.
    + vm_compute. reflexivity.
    + repeat constructor.
Defined.

(** C7. An index outside [0 <= idx < len] (negative, or at or beyond the
    total length) matches no source: the loop ends and the call returns
    Python's [None]; no exception is raised. *)
Theorem getitem_out_of_range (V : Type) (c : t V) (idx : Z) :
  idx < 0 \/ __len__ c <= idx ->
  __getitem__ c idx = Ok None.
Proof.
  intros [Hneg|Hbig]; unfold __getitem__.
  - apply getitem_loop_start_past; lia.
  - apply getitem_loop_end_short. exact Hbig.
Qed.

Lemma getitem_out_of_range_witness :
  __getitem__ (Build [[rec_x 1]; [rec_x 2]]) 2 = Ok None /\
  __getitem__ (Build [[rec_x 1]; [rec_x 2]]) (-1) = Ok None.
Proof.
  split.
  - apply getitem_out_of_range. right. vm_compute. discriminate.
  - apply getitem_out_of_range. left. lia.
Defined.

(** On a composite of two one-record sources, index 2 (the length) and
    index -1 both return [None] normally instead of raising. *)
Lemma getitem_out_of_range_no_error :
  __init__ [[rec_x 1]; [rec_x 2]] = Ok (Build [[rec_x 1]; [rec_x 2]]) /\
  __len__ (Build [[rec_x 1]; [rec_x 2]]) = 2 /\
  __getitem__ (Build [[rec_x 1]; [rec_x 2]]) 2 = Ok None /\
  __getitem__ (Build [[rec_x 1]; [rec_x 2]]) 2 <> Raise IndexError /\
  is_ok (__getitem__ (Build [[rec_x 1]; [rec_x 2]]) (-1)) = true.
Proof. vm_compute. repeat split; discriminate. Qed.

(** C1. The length of a composite is the sum of the lengths of its sources,
    but [__getitem__] does not present the flattened sequence once there are
    three sources: after a source that does not hold the index, [start] is
    advanced by the cumulative [end_] instead of being set to it.  For every
    composite of three or more sources that the constructor accepts, the
    index [len ds1 + len ds2] is valid, the flattened sequence holds the
    first record of the third source there, and [__getitem__] returns
    [None]. *)
Theorem getitem_third_source_lost (V : Type)
    (ds1 ds2 ds3 : source V) (dss : list (source V)) (c : t V) :
  __init__ (ds1 :: ds2 :: ds3 :: dss) = Ok c ->
  __len__ c = len (flatten c) /\
  0 <= len ds1 + len ds2 < __len__ c /\
  is_Some (flatten c !! Z.to_nat (len ds1 + len ds2)) /\
  flatten c !! Z.to_nat (len ds1 + len ds2) = head ds3 /\
  __getitem__ c (len ds1 + len ds2) = Ok None.
Proof.
  intros Hinit. apply init_ok_inv in Hinit as (-> & _ & keys & Hall).
  apply Forall_cons in Hall as [H1 Hall].
  apply Forall_cons in Hall as [_ Hall].
  apply Forall_cons in Hall as [H3 _].
  unfold first_keys in H1, H3.
  destruct ds1 as [|r1 ds1]; [discriminate|].
  destruct ds3 as [|r3 ds3]; [discriminate|].
  clear H1 H3.
  pose proof (len_nonneg ds1) as Hn1. pose proof (len_nonneg ds2) as Hn2.
  pose proof (len_nonneg ds3) as Hn3. pose proof (total_nonneg dss) as Hn.
  assert (Hl1 : len (r1 :: ds1) = 1 + len ds1) by (unfold len; simpl; lia).
  assert (Hl3 : len (r3 :: ds3) = 1 + len ds3) by (unfold len; simpl; lia).
  assert (Hlook : flatten (Build ((r1 :: ds1) :: ds2 :: (r3 :: ds3) :: dss))
                    !! Z.to_nat (len (r1 :: ds1) + len ds2) = Some r3).
  { unfold flatten. cbn [datasets concat].
    rewrite app_assoc, lookup_app_r
      by (rewrite length_app; unfold len; lia).
    replace (Z.to_nat (len (r1 :: ds1) + len ds2)
             - base.length ((r1 :: ds1) ++ ds2))%nat with 0%nat
      by (rewrite length_app; unfold len; lia).
    reflexivity. }
  split; [apply len_flatten|].
  split.
  { unfold __len__. cbn [datasets map foldr]. lia. }
  split; [exists r3; exact Hlook|].
  split; [exact Hlook|].
  unfold __getitem__. cbn [datasets getitem_loop].
  destruct (Z.ltb_spec (len (r1 :: ds1) + len ds2) (0 + len (r1 :: ds1)))
    as [?|_]; [lia|].
  rewrite andb_false_r.
  destruct (Z.ltb_spec (len (r1 :: ds1) + len ds2)
              (0 + len (r1 :: ds1) + len ds2)) as [?|_]; [lia|].
  rewrite andb_false_r.
  destruct (Z.leb_spec
              (0 + (0 + len (r1 :: ds1))
               + (0 + len (r1 :: ds1) + len ds2))
              (len (r1 :: ds1) + len ds2)) as [?|_]; [lia|].
  cbn [andb]. apply getitem_loop_start_past; lia.
Qed.

(** Three one-record sources with the same key: index 2 is valid and the
    flattened sequence holds the record of the third source there, yet the
    lookup yields [None]. *)
Lemma getitem_third_source_lost_witness :
  __len__ (Build [[rec_x 10]; [rec_x 11]; [rec_x 12]]) = 3 /\
  flatten (Build [[rec_x 10]; [rec_x 11]; [rec_x 12]]) !! 2%nat
  = Some (rec_x 12) /\
  __getitem__ (Build [[rec_x 10]; [rec_x 11]; [rec_x 12]]) 2 = Ok None.
Proof.
  pose proof (getitem_third_source_lost Z
                [rec_x 10] [rec_x 11] [rec_x 12] []
                (Build [[rec_x 10]; [rec_x 11]; [rec_x 12]])) as H.
  destruct H as (_ & _ & _ & _ & Hget).
  - vm_compute. reflexivity.
  - split; [vm_compute; reflexivity|].
    split; [reflexivity|].
    exact Hget.
Defined.

(** *** Further properties of the composite *)

Lemma py_getitem_elem {A : Type} (l : list A) (i : Z) (x : A) :
  py_getitem l i = Ok x -> x ∈ l.
Proof.
  unfold py_getitem.
  destruct (_ <? 0); [discriminate|].
  destruct (l !! _) as [y|] eqn:Hy; [|discriminate].
  intros [= <-]. eapply list_elem_of_lookup_2. exact Hy.
Qed.

Lemma getitem_loop_total (V : Type) (dss : list (source V)) (idx start end_ : Z) :
  0 <= end_ <= start ->
  exists o, getitem_loop dss idx start end_ = Ok o /\
            forall r, o = Some r -> r ∈ concat dss.
Proof.
  revert start end_. induction dss as [|ds dss IH]; intros start end_ Hinv.
  - exists None. split; [reflexivity|]. discriminate.
  - cbn [getitem_loop]. pose proof (len_nonneg ds) as Hds.
    destruct ((start <=? idx) && (idx <? end_ + len ds)) eqn:Hguard.
    + apply andb_true_iff in Hguard as [Hlo Hhi].
      apply Z.leb_le in Hlo. apply Z.ltb_lt in Hhi.
      destruct (py_getitem_in_range ds (idx - start)) as (r & Hr & Hget);
        [lia|].
      rewrite Hget. cbn [mbind result_bind]. exists (Some r).
      split; [reflexivity|]. intros r' [= <-]. cbn [concat].
      apply elem_of_app. left. eapply list_elem_of_lookup_2. exact Hr.
    + destruct (IH (start + (end_ + len ds)) (end_ + len ds)) as (o & Ho & Hin);
        [lia|].
      exists o. split; [exact Ho|]. intros r Hr. cbn [concat].
      apply elem_of_app. right. apply Hin, Hr.
Qed.

(** X1. The constructor returns exactly when it is given at least two
    sources, each with a first record, and all these first records have the
    same key set; the composite then holds the list of sources as given. *)
Theorem init_ok_iff (V : Type) (dss : list (source V)) (c : t V) :
  __init__ dss = Ok c <->
  c = Build dss /\ 2 <= len dss /\
  exists keys, Forall (fun ds => first_keys ds = Some keys) dss.
Proof.
  split; [apply init_ok_inv|].
  intros (-> & Hlen & keys & Hall). unfold __init__.
  destruct (Z.ltb_spec (len dss) 2) as [?|_]; [lia|].
  destruct dss as [|d0 rest]; [unfold len in Hlen; simpl in Hlen; lia|].
  apply Forall_cons in Hall as [H0 Hall].
  rewrite py_getitem_0. cbn [head hd_error mbind result_bind].
  rewrite py_getitem_0. unfold first_keys in H0.
  destruct (head d0) as [r0|]; simpl in H0; [|discriminate].
  injection H0 as <-. cbn [mbind result_bind drop]. rewrite drop_0.
  rewrite (check_keys_ok _ _ Hall). reflexivity.
Qed.

Lemma check_keys_empty_source (V : Type) (keys : gset string)
    (pre post : list (source V)) :
  Forall (fun ds => first_keys ds = Some keys) pre ->
  check_keys keys (pre ++ [] :: post) = Raise IndexError.
Proof.
  induction 1 as [|ds pre Hds _ IH]; [reflexivity|].
  cbn [app check_keys]. rewrite py_getitem_0. unfold first_keys in Hds.
  destruct (head ds) as [r|]; simpl in Hds; [|discriminate].
  injection Hds as Hds. cbn [mbind result_bind].
  destruct (decide (dom r ≠ keys)); [contradiction|]. exact IH.
Qed.

(** X2. With two or more sources, an empty source makes the constructor
    raise [IndexError] (from [ds[0]]) when it is the first source, or when
    the first records of all sources before it have the same key set. *)
Theorem init_empty_source (V : Type) (pre post : list (source V))
    (keys : gset string) :
  2 <= len (pre ++ [] :: post) ->
  Forall (fun ds => first_keys ds = Some keys) pre ->
  __init__ (pre ++ [] :: post) = Raise IndexError.
Proof.
  intros Hlen Hall. unfold __init__.
  destruct (Z.ltb_spec (len (pre ++ [] :: post)) 2) as [?|_]; [lia|].
  destruct Hall as [|d0 pre H0 Hall].
  - reflexivity.
  - cbn [app]. rewrite py_getitem_0. cbn [head hd_error mbind result_bind].
    rewrite py_getitem_0. unfold first_keys in H0.
    destruct (head d0) as [r0|]; simpl in H0; [|discriminate].
    injection H0 as <-. cbn [mbind result_bind drop]. rewrite drop_0.
    rewrite (check_keys_empty_source V _ pre post Hall). reflexivity.
Qed.

Lemma init_empty_source_witness :
  __init__ [[rec_x 1]; []; [rec_y 2]] = Raise IndexError /\
  __init__ [([] : source Z); [rec_x 1]] = Raise IndexError.
Proof.
  split.
  - apply (init_empty_source Z [[rec_x 1]] [[rec_y 2]] {[ "x" ]}).
    + vm_compute. discriminate.
    + repeat constructor.
  - apply (init_empty_source Z [] [[rec_x 1]] ∅).
    + vm_compute. discriminate.
    + constructor.
Defined.

(** X3. Whatever the number of sources, an index that falls into the first
    or the second source yields the record the flattened sequence has at
    that index; so a composite of exactly two sources is right on every
    valid index. *)
Theorem getitem_within_two_sources (V : Type) (ds1 ds2 : source V)
    (dss : list (source V)) (idx : Z) :
  0 <= idx < len ds1 + len ds2 ->
  exists r,
    flatten (Build (ds1 :: ds2 :: dss)) !! Z.to_nat idx = Some r /\
    __getitem__ (Build (ds1 :: ds2 :: dss)) idx = Ok (Some r).
Proof.
  intros Hidx. rewrite (getitem_first_two_sources ds1 ds2 dss idx Hidx).
  destruct (flatten (Build (ds1 :: ds2 :: dss)) !! Z.to_nat idx) as [r|] eqn:Hr.
  - exists r. split; reflexivity.
  - apply lookup_ge_None in Hr. unfold flatten in Hr. cbn [datasets concat] in Hr.
    rewrite !length_app in Hr. unfold len in Hidx. lia.
Qed.

Lemma getitem_within_two_sources_witness :
  __getitem__ (Build [[rec_x 10; rec_x 11]; [rec_x 12]; [rec_x 13]]) 2
  = Ok (Some (rec_x 12)).
Proof.
  destruct (getitem_within_two_sources Z [rec_x 10; rec_x 11] [rec_x 12]
              [[rec_x 13]] 2) as (r & Hr & Hget).
  - vm_compute. split; [discriminate|reflexivity].
  - cbn in Hr. injection Hr as <-. exact Hget.
Defined.

(** X4. [__getitem__] never raises: for every composite and every integer
    index it returns either [None] or a record, and a record it returns is a
    record of one of the sources. *)
Theorem getitem_never_raises (V : Type) (c : t V) (idx : Z) :
  exists o, __getitem__ c idx = Ok o /\
            forall r, o = Some r -> r ∈ flatten c.
Proof. unfold __getitem__, flatten. apply getitem_loop_total. lia. Qed.

(** X29. What [__getitem__] does inside the third source.  With [start]
    advanced to [2 * len ds1 + len ds2], an index of the third source below
    that offset yields [None], and an index at or above it yields the record
    that belongs [len ds1] places earlier in the flattened sequence. *)
Theorem getitem_third_source_shifted (V : Type) (ds1 ds2 ds3 : source V)
    (dss : list (source V)) (idx : Z) :
  len ds1 + len ds2 <= idx < len ds1 + len ds2 + len ds3 ->
  __getitem__ (Build (ds1 :: ds2 :: ds3 :: dss)) idx
  = Ok (if idx <? 2 * len ds1 + len ds2 then None
        else flatten (Build (ds1 :: ds2 :: ds3 :: dss))
               !! Z.to_nat (idx - len ds1)).
Proof.
  intros [Hlo Hhi].
  pose proof (len_nonneg ds1) as Hn1. pose proof (len_nonneg ds2) as Hn2.
  pose proof (len_nonneg ds3) as Hn3.
  unfold __getitem__, flatten. cbn [datasets getitem_loop concat].
  destruct (Z.ltb_spec idx (0 + len ds1)) as [?|_]; [lia|].
  rewrite andb_false_r.
  destruct (Z.ltb_spec idx (0 + len ds1 + len ds2)) as [?|_]; [lia|].
  rewrite andb_false_r.
  destruct (Z.ltb_spec idx (2 * len ds1 + len ds2)) as [Hbelow|Habove].
  - destruct (Z.leb_spec (0 + (0 + len ds1) + (0 + len ds1 + len ds2)) idx)
      as [?|_]; [lia|].
    cbn [andb]. apply getitem_loop_start_past; lia.
  - destruct (Z.leb_spec (0 + (0 + len ds1) + (0 + len ds1 + len ds2)) idx)
      as [_|?]; [|lia].
    destruct (Z.ltb_spec idx (0 + len ds1 + len ds2 + len ds3))
      as [_|?]; [|lia].
    cbn [andb]. rewrite py_getitem_lookup by lia. unfold len in *.
    rewrite lookup_app_r by lia. rewrite lookup_app_r by lia.
    rewrite lookup_app_l by lia. f_equal. f_equal. lia.
Qed.

Lemma getitem_third_source_shifted_witness :
  __getitem__ (Build [[rec_x 10]; [rec_x 11];
                      [rec_x 12; rec_x 13; rec_x 14]]) 3
  = Ok (Some (rec_x 12)) /\
  flatten (Build [[rec_x 10]; [rec_x 11];
                  [rec_x 12; rec_x 13; rec_x 14]]) !! 3%nat
  = Some (rec_x 13).
Proof.
  split; [|reflexivity].
  apply (getitem_third_source_shifted Z [rec_x 10] [rec_x 11]
           [rec_x 12; rec_x 13; rec_x 14] [] 3).
  vm_compute. split; [discriminate | reflexivity].
Defined.

End CombinedDatasetSpec.

(** ** Saliency: the sample collector *)

Module SaliencySpec.
Import Saliency.

Section Facts.
Context {row : Type}.
Implicit Types (d : pydict row) (v : value row) (data : Data row)
         (m : gmap string (value row)) (self : t row) (key mode : string)
         (keys : list string).

(** *** Dictionaries of pending columns *)

Lemma dict_is_empty_true d : dict_is_empty d = true <-> items d = ∅.
Proof.
  unfold dict_is_empty. rewrite Nat.eqb_eq. apply map_size_empty_iff.
Qed.

Lemma dict_is_empty_false d : dict_is_empty d = false <-> items d ≠ ∅.
Proof.
  rewrite <- dict_is_empty_true. destruct (dict_is_empty d); split; congruence.
Qed.

Lemma pending_nonempty_is_pending v : pending_nonempty v -> is_pending v.
Proof. destruct v as [[|]|]; simpl; tauto. Qed.

Lemma append_column_pending d data key :
  is_defaultdict d = true ->
  map_Forall (fun _ v => is_pending v) (items d) ->
  append_column d data key
  = match data !! key with
    | Some col => Ok (Dict true (append_spec data (items d) key), col)
    | None => Raise KeyError
    end.
Proof.
  intros Hdd Hall. unfold append_column, samples_getitem, append_spec.
  destruct (items d !! key) as [v|] eqn:Hv; cbn [mbind result_bind].
  - apply Hall in Hv as Hp. destruct v as [cols|]; [|contradiction].
    unfold dict_getitem. destruct (data !! key) as [col|];
      cbn [mbind result_bind cols_of default]; [|reflexivity].
    rewrite Hdd. reflexivity.
  - rewrite Hdd. cbn [mbind result_bind].
    unfold dict_getitem. destruct (data !! key) as [col|];
      cbn [mbind result_bind cols_of default is_defaultdict items];
      [|reflexivity].
    rewrite insert_insert_eq. reflexivity.
Qed.

Lemma append_spec_pending data m key :
  map_Forall (fun _ v => is_pending v) m ->
  map_Forall (fun _ v => is_pending v) (append_spec data m key).
Proof. intros Hall. apply map_Forall_insert_2; [exact I|assumption]. Qed.

Lemma append_spec_nonempty data m key :
  map_Forall (fun _ v => pending_nonempty v) m ->
  map_Forall (fun _ v => pending_nonempty v) (append_spec data m key).
Proof.
  intros Hall. apply map_Forall_insert_2; [|assumption].
  destruct (cols_of (m !! key)); exact I.
Qed.

Lemma appended_nonempty data m keys :
  map_Forall (fun _ v => pending_nonempty v) m ->
  map_Forall (fun _ v => pending_nonempty v) (appended data m keys).
Proof.
  revert m. induction keys as [|key keys IH]; intros m Hall; simpl;
    [assumption|].
  apply IH, append_spec_nonempty, Hall.
Qed.

Lemma appended_not_empty data m keys :
  m ≠ ∅ \/ keys ≠ [] -> appended data m keys ≠ ∅.
Proof.
  revert m. induction keys as [|key keys IH]; intros m Hne; simpl.
  - destruct Hne as [?|?]; [assumption|contradiction].
  - apply IH. left. apply insert_non_empty.
Qed.

Lemma last_len_nil data n : last_len data [] n = n.
Proof. reflexivity. Qed.

Lemma last_len_const data keys n (k : Z) :
  keys ≠ [] ->
  Forall (fun key => exists col, data !! key = Some col /\ len col = k) keys ->
  last_len data keys n = k.
Proof.
  revert n. induction keys as [|key keys IH]; intros n Hne Hall;
    [contradiction|].
  apply Forall_cons in Hall as [(col & Hcol & Hlen) Hall]. simpl.
  rewrite Hcol. simpl. destruct keys as [|key' keys'].
  - simpl. exact Hlen.
  - apply IH; [discriminate|assumption].
Qed.

(** When the loop returns, it has appended one column per tracked key. *)
Lemma collect_ok_inv keys data d (n : Z) d' (n' : Z) :
  is_defaultdict d = true ->
  map_Forall (fun _ v => is_pending v) (items d) ->
  collect keys data d n = Ok (d', n') ->
  d' = Dict true (appended data (items d) keys) /\ n' = last_len data keys n.
Proof.
  revert d n. induction keys as [|key keys IH]; intros d n Hdd Hall; simpl.
  - intros [= <- <-]. destruct d as [b m]. simpl in *. subst b. auto.
  - rewrite append_column_pending by assumption.
    destruct (data !! key) as [col|]; cbn [mbind result_bind];
      [|discriminate].
    intros Hrun. apply IH in Hrun as [-> ->].
    + simpl. auto.
    + reflexivity.
    + simpl. apply append_spec_pending, Hall.
Qed.

(** The loop returns whenever the batch has a column for every key. *)
Lemma collect_ok keys data d (n : Z) :
  is_defaultdict d = true ->
  map_Forall (fun _ v => is_pending v) (items d) ->
  Forall (fun key => is_Some (data !! key)) keys ->
  collect keys data d n
  = Ok (Dict true (appended data (items d) keys), last_len data keys n).
Proof.
  revert d n. induction keys as [|key keys IH]; intros d n Hdd Hall Hkeys;
    simpl.
  - destruct d as [b m]. simpl in *. subst b. reflexivity.
  - apply Forall_cons in Hkeys as [[col Hcol] Hkeys].
    rewrite append_column_pending by assumption. rewrite Hcol.
    cbn [mbind result_bind]. rewrite IH.
    + reflexivity.
    + reflexivity.
    + simpl. apply append_spec_pending, Hall.
    + assumption.
Qed.

(** A plain dictionary lets the loop through only if nothing is tracked. *)
Lemma collect_plain_empty keys data d (n : Z) d' (n' : Z) :
  is_defaultdict d = false ->
  items d = ∅ ->
  collect keys data d n = Ok (d', n') ->
  d' = d /\ n' = n.
Proof.
  intros Hdd Hemp. destruct keys as [|key keys]; simpl.
  - intros [= <- <-]. auto.
  - unfold append_column, samples_getitem. rewrite Hemp, lookup_empty, Hdd.
    discriminate.
Qed.

(** *** Finalization *)

Lemma keep_required_pending required v :
  is_pending v -> keep_required required v = Ok (required_total required v).
Proof. destruct v; simpl; [reflexivity|contradiction]. Qed.

Lemma keep_first_nonempty v :
  pending_nonempty v -> keep_first v = Ok (first_total v).
Proof. destruct v as [[|]|]; simpl; solve [reflexivity|contradiction]. Qed.

Lemma comprehension_total (f : value row -> result (value row))
    (g : value row -> value row) (kvs : list (string * value row)) :
  Forall (fun kv => f kv.2 = Ok (g kv.2)) kvs ->
  comprehension f kvs = Ok (prod_map id g <$> kvs).
Proof.
  induction 1 as [|[key val] kvs Hkv _ IH]; simpl; [reflexivity|].
  simpl in Hkv. rewrite Hkv. cbn [mbind result_bind]. rewrite IH.
  reflexivity.
Qed.

Lemma dict_comprehension_total (f : value row -> result (value row))
    (g : value row -> value row) d :
  map_Forall (fun _ v => f v = Ok (g v)) (items d) ->
  dict_comprehension f d = Ok (Dict false (g <$> items d)).
Proof.
  intros Hall. unfold dict_comprehension.
  rewrite (comprehension_total f g).
  - cbn [mbind result_bind].
    rewrite list_to_map_fmap, list_to_map_to_list. reflexivity.
  - apply map_Forall_to_list in Hall.
    eapply Forall_impl; [exact Hall|]. intros [key val] Hkv. exact Hkv.
Qed.

Lemma dict_comprehension_plain (f : value row -> result (value row)) d d' :
  dict_comprehension f d = Ok d' -> is_defaultdict d' = false.
Proof.
  unfold dict_comprehension.
  destruct (comprehension f (map_to_list (items d))); cbn [mbind result_bind];
    [|discriminate].
  intros [= <-]. reflexivity.
Qed.

(** *** The tracked keys and the rest of [on_epoch_end] *)

Lemma class_key_tracked self key :
  truthy (class_key self) = Some key -> key ∈ inputs self.
Proof.
  unfold truthy, inputs. destruct (class_key self) as [[|a k]|];
    intros [= <-]. cbn [to_list]. apply elem_of_app. left. left.
Qed.

Lemma inputs_nil self : inputs self = [] -> class_key self = None.
Proof.
  unfold inputs. destruct (class_key self); [discriminate | reflexivity].
Qed.

Lemma same_state self mode d :
  samples self !! mode = Some d ->
  Build (class_key self) (model_inputs self) (<[mode := d]> (samples self))
        (n_found self) (n_required self) = self.
Proof.
  intros Hd. rewrite insert_id by assumption. destruct self. reflexivity.
Qed.

Lemma lookup_classes_present (ck : option string) d :
  has_class_key ck (items d) -> lookup_classes ck d = Ok d.
Proof.
  unfold lookup_classes, has_class_key, truthy, samples_getitem.
  destruct ck as [[|a k]|]; try reflexivity.
  intros Hhas. destruct (Hhas (String a k) eq_refl) as [v Hv].
  rewrite Hv. reflexivity.
Qed.

Lemma lookup_classes_defaultdict (ck : option string) d :
  is_defaultdict d = true -> lookup_classes ck d = Ok (with_class_key ck d).
Proof.
  unfold lookup_classes, with_class_key, truthy, samples_getitem.
  destruct ck as [[|a k]|]; try reflexivity.
  intros ->. destruct (items d !! String a k); reflexivity.
Qed.

Lemma lookup_classes_missing (ck : option string) d key :
  is_defaultdict d = false -> truthy ck = Some key -> items d !! key = None ->
  lookup_classes ck d = Raise KeyError.
Proof.
  unfold lookup_classes, truthy, samples_getitem.
  destruct ck as [[|a k]|]; try discriminate.
  intros -> [= <-] ->. reflexivity.
Qed.

Lemma lookup_classes_plain (ck : option string) d d1 :
  is_defaultdict d = false -> lookup_classes ck d = Ok d1 -> d1 = d.
Proof.
  unfold lookup_classes, samples_getitem.
  destruct ck as [[|a k]|]; try (intros _ [= <-]; reflexivity).
  intros ->. destruct (items d !! String a k); [|discriminate].
  intros [= <-]. reflexivity.
Qed.

Lemma blend_items_ok (ck : option string) (kvs : list (string * value row)) :
  Forall (fun kv => ck = Some kv.1 \/ is_column kv.2) kvs ->
  blend_items ck kvs = Ok tt.
Proof.
  induction 1 as [|[key val] kvs Hkv _ IH]; [reflexivity|].
  cbn [blend_items]. cbn [fst snd] in Hkv.
  destruct (decide (ck = Some key)) as [?|Hne]; cbn [mbind result_bind];
    [exact IH|].
  destruct Hkv as [?|Hcol]; [contradiction|].
  destruct val; [contradiction|]. cbn [reduce_min mbind result_bind].
  exact IH.
Qed.

Lemma blend_items_columns (ck : option string) m :
  map_Forall (fun _ v => is_column v) m ->
  blend_items ck (map_to_list m) = Ok tt.
Proof.
  intros Hall. apply blend_items_ok. apply map_Forall_to_list in Hall.
  eapply Forall_impl; [exact Hall|]. intros [k v] Hc. right. exact Hc.
Qed.

(** On a plain dictionary of tensors that has the class key, the rest of
    the method changes nothing. *)
Lemma present_plain self mode d :
  samples self !! mode = Some d ->
  map_Forall (fun _ v => is_column v) (items d) ->
  has_class_key (class_key self) (items d) ->
  present self mode = Ok self.
Proof.
  intros Hd Hcols Hhas. unfold present, dict_getitem. rewrite Hd.
  cbn [mbind result_bind]. rewrite (lookup_classes_present _ d Hhas).
  cbn [mbind result_bind]. rewrite (blend_items_columns _ _ Hcols).
  cbn [mbind result_bind]. rewrite (same_state self mode d Hd). reflexivity.
Qed.

Lemma present_inv self mode self' :
  present self mode = Ok self' ->
  exists d d1,
    samples self !! mode = Some d /\
    lookup_classes (class_key self) d = Ok d1 /\
    self' = Build (class_key self) (model_inputs self)
                  (<[mode := d1]> (samples self))
                  (n_found self) (n_required self).
Proof.
  unfold present, dict_getitem.
  destruct (samples self !! mode) as [d|]; cbn [mbind result_bind];
    [|discriminate].
  destruct (lookup_classes (class_key self) d) as [d1|] eqn:Hlook;
    cbn [mbind result_bind]; [|discriminate].
  destruct (blend_items (class_key self) (map_to_list (items d1)));
    cbn [mbind result_bind]; [|discriminate].
  intros [= <-]. exists d, d1. auto.
Qed.

Lemma total_is_column (required : Z) v :
  is_column ((if 0 <? required then required_total required
              else first_total) v).
Proof. destruct (0 <? required), v as [[|col cols]|col]; exact I. Qed.

(** *** What the loop leaves under each key *)

Lemma appended_lookup_notin data m keys key :
  key ∉ keys -> appended data m keys !! key = m !! key.
Proof.
  revert m. induction keys as [|k keys IH]; intros m Hnotin; simpl;
    [reflexivity|].
  apply not_elem_of_cons in Hnotin as [Hne Hnotin].
  rewrite IH by assumption. unfold append_spec.
  apply lookup_insert_ne. auto.
Qed.

Lemma appended_lookup_in data m keys key :
  NoDup keys -> key ∈ keys ->
  appended data m keys !! key
  = Some (Pending (cols_of (m !! key) ++ [default [] (data !! key)])).
Proof.
  intros Hnd. revert m.
  induction Hnd as [|k keys Hk Hnd IH]; intros m Hin; simpl.
  - inversion Hin.
  - destruct (decide (key = k)) as [->|Hne].
    + rewrite appended_lookup_notin by assumption.
      unfold append_spec. apply lookup_insert_eq.
    + apply elem_of_cons in Hin as [?|Hin]; [contradiction|].
      rewrite IH by assumption. unfold append_spec.
      rewrite lookup_insert_ne by auto. reflexivity.
Qed.

Lemma appended_dom data m keys :
  dom (appended data m keys) = dom m ∪ list_to_set keys.
Proof.
  revert m. induction keys as [|k keys IH]; intros m; simpl.
  - apply set_eq. intros x. rewrite elem_of_union, elem_of_empty. tauto.
  - rewrite IH. unfold append_spec. rewrite dom_insert_L.
    apply set_eq. intros x.
    rewrite !elem_of_union, elem_of_singleton. tauto.
Qed.

Lemma appended_first data m keys :
  first_is data m -> first_is data (appended data m keys).
Proof.
  revert m. induction keys as [|k keys IH]; intros m Hm; simpl;
    [assumption|].
  apply IH. intros key v. unfold append_spec.
  destruct (decide (k = key)) as [->|Hne].
  - rewrite lookup_insert_eq. intros [= <-].
    destruct (m !! key) as [v|] eqn:Hv; simpl.
    + destruct (Hm key v Hv) as [rest ->]. simpl. eauto.
    + eauto.
  - rewrite lookup_insert_ne by assumption. apply Hm.
Qed.

Lemma last_len_pos data keys (n : Z) :
  keys ≠ [] ->
  Forall (fun key => exists col, data !! key = Some col /\ 0 < len col) keys ->
  0 < last_len data keys n.
Proof.
  revert n. induction keys as [|key keys IH]; intros n Hne Hall;
    [contradiction|].
  apply Forall_cons in Hall as [(col & Hcol & Hlen) Hall]. simpl.
  rewrite Hcol. simpl. destruct keys as [|key' keys'].
  - simpl. exact Hlen.
  - apply IH; [discriminate|assumption].
Qed.

Lemma appended_nonempty_at data m keys key v :
  appended data m keys !! key = Some v ->
  key ∈ keys \/ (exists v0, m !! key = Some v0 /\ pending_nonempty v0) ->
  pending_nonempty v.
Proof.
  revert m. induction keys as [|k keys IH]; intros m Hv Hcase; simpl in Hv.
  - destruct Hcase as [Hin|(v0 & Hv0 & Hne)]; [inversion Hin|].
    rewrite Hv in Hv0. injection Hv0 as <-. exact Hne.
  - apply (IH _ Hv). unfold append_spec.
    destruct (decide (key = k)) as [->|Hne].
    + right. rewrite lookup_insert_eq. eexists. split; [reflexivity|].
      destruct (cols_of (m !! k)); exact I.
    + rewrite lookup_insert_ne by auto.
      destruct Hcase as [Hin|Hold]; [|right; exact Hold].
      apply elem_of_cons in Hin as [?|Hin]; [contradiction|]. left. exact Hin.
Qed.

Lemma appended_tracked data m keys key :
  key ∈ keys -> is_Some (appended data m keys !! key).
Proof.
  intros Hin. apply elem_of_dom. rewrite appended_dom.
  apply elem_of_union. right. apply elem_of_list_to_set. exact Hin.
Qed.

(** *** The invariant of the collector *)

Lemma consistent_update self mode d found required :
  consistent self ->
  mode_inv (class_key self) (inputs self) d found required ->
  consistent (Build (class_key self) (model_inputs self)
                    (<[mode := d]> (samples self))
                    (<[mode := found]> (n_found self))
                    (<[mode := required]> (n_required self))).
Proof.
  intros Hc Hinv mode'. destruct (decide (mode = mode')) as [<-|Hne].
  - left. exists d, found, required.
    cbn [samples n_found n_required]. rewrite !lookup_insert_eq. auto.
  - cbn [samples n_found n_required].
    rewrite !lookup_insert_ne by assumption. apply Hc.
Qed.

Lemma init_mode_consistent (arg : samples_arg row) self mode :
  consistent self -> consistent (init_mode arg self mode).
Proof.
  intros Hc. destruct arg as [|n|dd]; cbn [init_mode];
    apply consistent_update; try assumption.
  - left. split; [reflexivity|]. left.
    split; [apply map_Forall_empty|]. split; [contradiction | cbn; lia].
  - left. split; [reflexivity|]. left.
    split; [apply map_Forall_empty|]. split; [contradiction | cbn; lia].
  - right. split; [reflexivity|]. split; [reflexivity|].
    split; [reflexivity|]. cbn [items]. apply map_Forall_fmap.
    intros k v _. exact I.
Qed.

Lemma init_consistent (ck : option string) ins (arg : samples_arg row)
    (marg : mode_arg) :
  consistent (__init__ ck ins arg marg).
Proof.
  unfold __init__.
  assert (Hbase : consistent (Build (row:=row) ck ins ∅ ∅ ∅)).
  { intros mode. right. cbn [samples n_found n_required].
    rewrite !lookup_empty. auto. }
  revert Hbase. generalize (Build (row:=row) ck ins ∅ ∅ ∅).
  induction (modes_of marg) as [|mode modes IH]; intros self Hc; simpl;
    [assumption|].
  apply IH, init_mode_consistent, Hc.
Qed.

Lemma collect_mode_inv (ck : option string) d (found required : Z) data keys
    d' (n : Z) :
  mode_inv ck keys d found required ->
  (forall key, truthy ck = Some key -> key ∈ keys) ->
  dict_is_empty d = true \/ found < required ->
  collect keys data d 0 = Ok (d', n) ->
  mode_inv ck keys d' (found + n) required.
Proof.
  intros [(Hdd & [(Hall & Hkeys & Hne)|(key & Hck & Hm & Hle)])
         |(Hdd & -> & -> & Hcols)] Htracked Hgo Hcol.
  - apply collect_ok_inv in Hcol as [-> ->]; [|assumption|].
    2: { intros k v Hk. apply pending_nonempty_is_pending, (Hall k v Hk). }
    left. split; [reflexivity|]. left. cbn [items].
    split; [apply appended_nonempty, Hall|]. split.
    + intros _ k Hk. apply appended_tracked, Hk.
    + intros Hpos. apply appended_not_empty.
      destruct keys as [|k keys]; [|right; discriminate].
      left. apply Hne. rewrite last_len_nil in Hpos. lia.
  - apply collect_ok_inv in Hcol as [-> ->]; [|assumption|].
    2: { rewrite Hm. apply map_Forall_singleton. exact I. }
    pose proof (Htracked key Hck) as Hin.
    left. split; [reflexivity|]. left. cbn [items]. split; [|split].
    + intros k v Hv. apply (appended_nonempty_at data (items d) keys k v Hv).
      destruct (decide (k ∈ keys)) as [?|Hout]; [left; assumption|].
      exfalso. rewrite appended_lookup_notin in Hv by assumption.
      rewrite Hm in Hv. apply lookup_singleton_Some in Hv as [<- _].
      contradiction.
    + intros _ k Hk. apply appended_tracked, Hk.
    + intros _. apply appended_not_empty. right. intros ->. inversion Hin.
  - destruct Hgo as [Hemp|?]; [|lia].
    apply dict_is_empty_true in Hemp.
    apply collect_plain_empty in Hcol as [-> ->]; try assumption.
    right. auto.
Qed.

Lemma on_batch_end_consistent self mode data self' :
  consistent self ->
  on_batch_end self mode data = Ok self' ->
  consistent self'.
Proof.
  intros Hc Hrun. unfold on_batch_end, dict_getitem in Hrun.
  destruct (Hc mode) as [(d & f & r & Hd & Hf & Hr & Hinv)|(Hd & _)].
  2: { rewrite Hd in Hrun. discriminate. }
  rewrite Hd, Hf, Hr in Hrun. cbn [mbind result_bind] in Hrun.
  assert (Hgo : forall d' n,
             dict_is_empty d = true \/ f < r ->
             collect (inputs self) data d 0 = Ok (d', n) ->
             consistent (Build (class_key self) (model_inputs self)
                               (<[mode := d']> (samples self))
                               (<[mode := f + n]> (n_found self))
                               (n_required self))).
  { intros d' n Hcond Hcol.
    rewrite <- (insert_id (n_required self) mode r Hr) at 1.
    apply consistent_update; [assumption|].
    eapply collect_mode_inv; try eassumption.
    intros key. apply class_key_tracked. }
  destruct (dict_is_empty d) eqn:Hemp; cbn [mbind result_bind] in Hrun.
  - destruct (collect (inputs self) data d 0) as [[d' n]|] eqn:Hcol;
      cbn [mbind result_bind] in Hrun; [|discriminate].
    injection Hrun as <-. apply Hgo; auto.
  - destruct (Z.ltb_spec f r) as [Hlt|Hge].
    + destruct (collect (inputs self) data d 0) as [[d' n]|] eqn:Hcol;
        cbn [mbind result_bind] in Hrun; [|discriminate].
      injection Hrun as <-. apply Hgo; auto.
    + injection Hrun as <-. assumption.
Qed.

(** The finalization of a buffer of non-empty pending lists. *)
Lemma finalize_pending self mode d (found required : Z) :
  samples self !! mode = Some d ->
  n_found self !! mode = Some found ->
  n_required self !! mode = Some required ->
  0 < found ->
  map_Forall (fun _ v => pending_nonempty v) (items d) ->
  finalize self mode
  = Ok (Build (class_key self) (model_inputs self)
          (<[mode := Dict false
                       ((if 0 <? required then required_total required
                         else first_total) <$> items d)]> (samples self))
          (<[mode := 0]> (n_found self))
          (<[mode := 0]> (n_required self))).
Proof.
  intros Hd Hf Hr Hpos Hall.
  unfold finalize, dict_getitem. rewrite Hf. cbn [mbind result_bind].
  destruct (Z.ltb_spec 0 found) as [_|?]; [|lia].
  rewrite Hr, Hd. cbn [mbind result_bind].
  destruct (0 <? required).
  - rewrite (dict_comprehension_total _ (required_total required));
      [reflexivity|].
    intros k v Hk. apply keep_required_pending, pending_nonempty_is_pending.
    apply (Hall k v Hk).
  - rewrite (dict_comprehension_total _ first_total); [reflexivity|].
    intros k v Hk. apply keep_first_nonempty. apply (Hall k v Hk).
Qed.

Lemma finalize_idle self mode (found : Z) :
  n_found self !! mode = Some found ->
  found <= 0 ->
  finalize self mode = Ok self.
Proof.
  intros Hf Hle. unfold finalize, dict_getitem. rewrite Hf.
  cbn [mbind result_bind].
  destruct (Z.ltb_spec 0 found) as [?|_]; [lia|reflexivity].
Qed.

(** [on_epoch_end] on a buffer of non-empty pending lists that has all
    the tracked keys: the finalized buffer has the class key and holds
    tensors, so that the rest of the method goes through. *)
Lemma on_epoch_end_finalizes self mode d (found required : Z) :
  samples self !! mode = Some d ->
  n_found self !! mode = Some found ->
  n_required self !! mode = Some required ->
  0 < found ->
  map_Forall (fun _ v => pending_nonempty v) (items d) ->
  (forall key, key ∈ inputs self -> is_Some (items d !! key)) ->
  on_epoch_end self mode
  = Ok (Build (class_key self) (model_inputs self)
          (<[mode := Dict false
                       ((if 0 <? required then required_total required
                         else first_total) <$> items d)]> (samples self))
          (<[mode := 0]> (n_found self))
          (<[mode := 0]> (n_required self))).
Proof.
  intros Hd Hf Hr Hpos Hall Hkeys. unfold on_epoch_end.
  rewrite (finalize_pending self mode d found required) by assumption.
  cbn [mbind result_bind].
  apply (present_plain _ mode
           (Dict false ((if 0 <? required then required_total required
                         else first_total) <$> items d))).
  - cbn [samples]. apply lookup_insert_eq.
  - cbn [items]. apply map_Forall_fmap. intros k v _.
    apply total_is_column.
  - cbn [items class_key]. intros key Hkey. rewrite lookup_fmap.
    apply class_key_tracked, Hkeys in Hkey as [v ->]. cbn. eauto.
Qed.

(** In a consistent state [on_epoch_end] does not raise when something
    was found: every value of the buffer is a non-empty list of columns, and
    every tracked key has one. *)
Lemma on_epoch_end_reachable_ok self mode (found : Z) :
  consistent self ->
  n_found self !! mode = Some found ->
  0 < found ->
  exists d required,
    samples self !! mode = Some d /\
    n_required self !! mode = Some required /\
    items d ≠ ∅ /\
    (forall key, key ∈ inputs self -> is_Some (items d !! key)) /\
    on_epoch_end self mode
    = Ok (Build (class_key self) (model_inputs self)
            (<[mode := Dict false
                         ((if 0 <? required then required_total required
                           else first_total) <$> items d)]> (samples self))
            (<[mode := 0]> (n_found self))
            (<[mode := 0]> (n_required self))).
Proof.
  intros Hc Hf Hpos.
  destruct (Hc mode) as [(d & f & r & Hd & Hf' & Hr & Hinv)|(_ & Hnone & _)].
  2: { rewrite Hnone in Hf. discriminate. }
  rewrite Hf in Hf'. injection Hf' as <-.
  destruct Hinv as [(Hdd & [(Hall & Hkeys & Hne)|(key & _ & _ & Hle)])
                   |(_ & -> & _)]; [|lia|lia].
  exists d, r. split; [assumption|]. split; [assumption|].
  split; [auto|]. split; [auto|].
  apply (on_epoch_end_finalizes self mode d found r); auto.
Qed.

Lemma on_epoch_end_idle self mode (found : Z) :
  n_found self !! mode = Some found ->
  found <= 0 ->
  on_epoch_end self mode = present self mode.
Proof.
  intros Hf Hle. unfold on_epoch_end.
  rewrite (finalize_idle self mode found Hf Hle). reflexivity.
Qed.

(** With nothing tracked there is no class key, and [on_epoch_end] on the
    empty buffer changes nothing. *)
Lemma on_epoch_end_untracked self mode :
  inputs self = [] ->
  samples self !! mode = Some (Dict true ∅) ->
  n_found self !! mode = Some 0 ->
  on_epoch_end self mode = Ok self.
Proof.
  intros Hin Hd Hf. rewrite (on_epoch_end_idle self mode 0 Hf) by lia.
  apply (present_plain self mode (Dict true ∅) Hd).
  - apply map_Forall_empty.
  - rewrite (inputs_nil self Hin). intros key Hkey. discriminate.
Qed.

Lemma finalize_consistent self mode self' :
  consistent self ->
  finalize self mode = Ok self' ->
  consistent self'.
Proof.
  intros Hc Hrun.
  destruct (n_found self !! mode) as [found|] eqn:Hf.
  2: { unfold finalize, dict_getitem in Hrun. rewrite Hf in Hrun.
       discriminate. }
  destruct (Z.lt_ge_cases 0 found) as [Hpos|Hle].
  - destruct (Hc mode) as [(d & f & r & Hd & Hf' & Hr & Hinv)|(_ & Hnone & _)].
    2: { rewrite Hnone in Hf. discriminate. }
    rewrite Hf in Hf'. injection Hf' as <-.
    destruct Hinv as [(Hdd & [(Hall & Hkeys & Hne)|(key & _ & _ & Hle)])
                     |(_ & -> & _)]; [|lia|lia].
    rewrite (finalize_pending self mode d found r) in Hrun by assumption.
    injection Hrun as <-.
    apply consistent_update; [assumption|]. right.
    split; [reflexivity|]. split; [reflexivity|]. split; [reflexivity|].
    cbn [items]. apply map_Forall_fmap. intros k v _.
    apply total_is_column.
  - rewrite (finalize_idle self mode found Hf Hle) in Hrun.
    injection Hrun as <-. assumption.
Qed.

Lemma lookup_classes_mode_inv (ck : option string) keys d d1
    (found required : Z) :
  mode_inv ck keys d found required ->
  (forall key, truthy ck = Some key -> key ∈ keys) ->
  lookup_classes ck d = Ok d1 ->
  mode_inv ck keys d1 found required.
Proof.
  intros Hinv Htracked Hlook.
  destruct Hinv as [(Hdd & Hcase)|(Hdd & Hrest)].
  2: { apply (lookup_classes_plain ck d d1 Hdd) in Hlook as ->.
       right. auto. }
  rewrite (lookup_classes_defaultdict ck d Hdd) in Hlook.
  injection Hlook as <-. unfold with_class_key.
  destruct (truthy ck) as [key|] eqn:Hck; [|left; auto].
  destruct (items d !! key) as [v|] eqn:Hv; [left; auto|].
  destruct Hcase as [(Hall & Hkeys & Hne)|(key' & Hck' & Hm & Hle)].
  - left. split; [reflexivity|]. right. exists key. split; [exact Hck|].
    cbn [items].
    destruct (dict_is_empty d) eqn:Hemp.
    + apply dict_is_empty_true in Hemp. rewrite Hemp. split.
      * apply insert_empty.
      * destruct (Z.lt_ge_cases 0 found) as [Hpos|?]; [|lia].
        exfalso. apply (Hne Hpos Hemp).
    + apply dict_is_empty_false in Hemp.
      destruct (Hkeys Hemp key (Htracked key eq_refl)) as [v' Hv'].
      congruence.
  - rewrite Hck in Hck'. injection Hck' as <-. rewrite Hm in Hv.
    rewrite lookup_singleton_eq in Hv. discriminate.
Qed.

Lemma present_consistent self mode self' :
  consistent self ->
  present self mode = Ok self' ->
  consistent self'.
Proof.
  intros Hc Hrun.
  apply present_inv in Hrun as (d & d1 & Hd & Hlook & ->).
  destruct (Hc mode) as [(d0 & f & r & Hd0 & Hf & Hr & Hinv)|(Hnone & _)].
  2: { rewrite Hnone in Hd. discriminate. }
  rewrite Hd in Hd0. injection Hd0 as <-.
  rewrite <- (insert_id (n_found self) mode f Hf) at 1.
  rewrite <- (insert_id (n_required self) mode r Hr) at 1.
  apply consistent_update; [assumption|].
  apply (lookup_classes_mode_inv _ _ d d1 f r Hinv); [|exact Hlook].
  intros key. apply class_key_tracked.
Qed.

Lemma on_epoch_end_consistent self mode self' :
  consistent self ->
  on_epoch_end self mode = Ok self' ->
  consistent self'.
Proof.
  intros Hc Hrun. unfold on_epoch_end in Hrun.
  destruct (finalize self mode) as [self1|] eqn:Hfin;
    cbn [mbind result_bind] in Hrun; [|discriminate].
  eapply present_consistent; [|exact Hrun].
  eapply finalize_consistent; eassumption.
Qed.

Lemma step_consistent self ev self' :
  consistent self -> step self ev = Ok self' -> consistent self'.
Proof.
  destruct ev as [mode data|mode]; simpl.
  - apply on_batch_end_consistent.
  - apply on_epoch_end_consistent.
Qed.

Lemma reachable_consistent self : reachable self -> consistent self.
Proof.
  induction 1 as [ck ins arg marg|self ev self' _ IH Hstep].
  - apply init_consistent.
  - eapply step_consistent; eassumption.
Qed.

(** *** A settled mode stays as it is *)

Lemma settled_on_batch_end self mode d data :
  settled self mode d -> on_batch_end self mode data = Ok self.
Proof.
  intros (Hd & _ & Hne & Hf & Hr & _). unfold on_batch_end, dict_getitem.
  rewrite Hd. cbn [mbind result_bind].
  apply dict_is_empty_false in Hne. rewrite Hne, Hf, Hr.
  reflexivity.
Qed.

Lemma settled_on_epoch_end self mode d :
  settled self mode d -> on_epoch_end self mode = Ok self.
Proof.
  intros (Hd & _ & _ & Hf & _ & Hcols & Hhas).
  rewrite (on_epoch_end_idle self mode 0 Hf) by lia.
  apply (present_plain self mode d); assumption.
Qed.

(** The callbacks assign neither the class key nor the model inputs. *)
Lemma on_batch_end_keys self mode data self' :
  on_batch_end self mode data = Ok self' ->
  class_key self' = class_key self /\ model_inputs self' = model_inputs self.
Proof.
  unfold on_batch_end.
  destruct (dict_getitem (samples self) mode) as [d|];
    cbn [mbind result_bind]; [|discriminate].
  destruct (if dict_is_empty d then Ok true
            else found ← dict_getitem (n_found self) mode;
                 required ← dict_getitem (n_required self) mode;
                 Ok (found <? required)) as [[|]|];
    cbn [mbind result_bind]; [| |discriminate].
  - destruct (collect (inputs self) data d 0) as [[d' n]|];
      cbn [mbind result_bind]; [|discriminate].
    destruct (dict_getitem (n_found self) mode) as [f|];
      cbn [mbind result_bind]; [|discriminate].
    intros [= <-]. auto.
  - intros [= <-]. auto.
Qed.

Lemma finalize_keys self mode self' :
  finalize self mode = Ok self' ->
  class_key self' = class_key self /\ model_inputs self' = model_inputs self.
Proof.
  unfold finalize.
  destruct (dict_getitem (n_found self) mode) as [f|];
    cbn [mbind result_bind]; [|discriminate].
  destruct (0 <? f); [|intros [= <-]; auto].
  destruct (dict_getitem (n_required self) mode) as [r|];
    cbn [mbind result_bind]; [|discriminate].
  destruct (dict_getitem (samples self) mode) as [d|];
    cbn [mbind result_bind]; [|discriminate].
  destruct (if 0 <? r then dict_comprehension (keep_required r) d
            else dict_comprehension keep_first d) as [d'|];
    cbn [mbind result_bind]; [|discriminate].
  intros [= <-]. auto.
Qed.

Lemma on_epoch_end_keys self mode self' :
  on_epoch_end self mode = Ok self' ->
  class_key self' = class_key self /\ model_inputs self' = model_inputs self.
Proof.
  unfold on_epoch_end.
  destruct (finalize self mode) as [self1|] eqn:Hfin;
    cbn [mbind result_bind]; [|discriminate].
  intros Hrun. apply finalize_keys in Hfin as [<- <-].
  apply present_inv in Hrun as (d & d1 & _ & _ & ->). auto.
Qed.

Lemma on_batch_end_other self mode mode' data self' :
  mode ≠ mode' ->
  on_batch_end self mode' data = Ok self' ->
  samples self' !! mode = samples self !! mode /\
  n_found self' !! mode = n_found self !! mode /\
  n_required self' !! mode = n_required self !! mode.
Proof.
  intros Hne. unfold on_batch_end.
  destruct (dict_getitem (samples self) mode') as [d|];
    cbn [mbind result_bind]; [|discriminate].
  destruct (if dict_is_empty d then Ok true
            else found ← dict_getitem (n_found self) mode';
                 required ← dict_getitem (n_required self) mode';
                 Ok (found <? required)) as [[|]|];
    cbn [mbind result_bind]; [| |discriminate].
  - destruct (collect (inputs self) data d 0) as [[d' n]|];
      cbn [mbind result_bind]; [|discriminate].
    destruct (dict_getitem (n_found self) mode') as [f|];
      cbn [mbind result_bind]; [|discriminate].
    intros [= <-]. simpl. rewrite !lookup_insert_ne by auto. auto.
  - intros [= <-]. auto.
Qed.

Lemma finalize_other self mode mode' self' :
  mode ≠ mode' ->
  finalize self mode' = Ok self' ->
  samples self' !! mode = samples self !! mode /\
  n_found self' !! mode = n_found self !! mode /\
  n_required self' !! mode = n_required self !! mode.
Proof.
  intros Hne. unfold finalize.
  destruct (dict_getitem (n_found self) mode') as [f|];
    cbn [mbind result_bind]; [|discriminate].
  destruct (0 <? f); [|intros [= <-]; auto].
  destruct (dict_getitem (n_required self) mode') as [r|];
    cbn [mbind result_bind]; [|discriminate].
  destruct (dict_getitem (samples self) mode') as [d|];
    cbn [mbind result_bind]; [|discriminate].
  destruct (if 0 <? r then dict_comprehension (keep_required r) d
            else dict_comprehension keep_first d) as [d'|];
    cbn [mbind result_bind]; [|discriminate].
  intros [= <-]. simpl. rewrite !lookup_insert_ne by auto. auto.
Qed.

Lemma on_epoch_end_other self mode mode' self' :
  mode ≠ mode' ->
  on_epoch_end self mode' = Ok self' ->
  samples self' !! mode = samples self !! mode /\
  n_found self' !! mode = n_found self !! mode /\
  n_required self' !! mode = n_required self !! mode.
Proof.
  intros Hne. unfold on_epoch_end.
  destruct (finalize self mode') as [self1|] eqn:Hfin;
    cbn [mbind result_bind]; [|discriminate].
  intros Hrun.
  destruct (finalize_other self mode mode' self1 Hne Hfin) as (<- & <- & <-).
  apply present_inv in Hrun as (d & d1 & _ & _ & ->).
  cbn [samples n_found n_required]. rewrite lookup_insert_ne by auto. auto.
Qed.

Lemma step_keys self ev self' :
  step self ev = Ok self' ->
  class_key self' = class_key self /\ model_inputs self' = model_inputs self.
Proof.
  destruct ev as [mode data|mode]; cbn [step].
  - apply on_batch_end_keys.
  - apply on_epoch_end_keys.
Qed.

Lemma settled_step self mode d ev self' :
  settled self mode d -> step self ev = Ok self' -> settled self' mode d.
Proof.
  intros Hs Hstep. pose proof (step_keys self ev self' Hstep) as [Hck _].
  destruct ev as [mode' data|mode']; simpl in Hstep.
  - destruct (decide (mode = mode')) as [<-|Hne].
    + rewrite (settled_on_batch_end self mode d data Hs) in Hstep.
      injection Hstep as <-. assumption.
    + destruct (on_batch_end_other self mode mode' data self' Hne Hstep)
        as (Hd & Hf & Hr).
      unfold settled in *. rewrite Hd, Hf, Hr, Hck. exact Hs.
  - destruct (decide (mode = mode')) as [<-|Hne].
    + rewrite (settled_on_epoch_end self mode d Hs) in Hstep.
      injection Hstep as <-. assumption.
    + destruct (on_epoch_end_other self mode mode' self' Hne Hstep)
        as (Hd & Hf & Hr).
      unfold settled in *. rewrite Hd, Hf, Hr, Hck. exact Hs.
Qed.

Lemma settled_run self mode d evs self' :
  settled self mode d -> run self evs = Ok self' -> settled self' mode d.
Proof.
  revert self. induction evs as [|ev evs IH]; intros self Hs; simpl.
  - intros [= <-]. assumption.
  - destruct (step self ev) as [self1|] eqn:Hstep; cbn [mbind result_bind];
      [|discriminate].
    apply IH. eapply settled_step; eassumption.
Qed.

(** *** The two callbacks, step by step *)

Lemma on_batch_end_collects self mode data d (found required : Z) :
  samples self !! mode = Some d ->
  n_found self !! mode = Some found ->
  n_required self !! mode = Some required ->
  is_defaultdict d = true ->
  map_Forall (fun _ v => is_pending v) (items d) ->
  items d = ∅ \/ found < required ->
  Forall (fun key => is_Some (data !! key)) (inputs self) ->
  on_batch_end self mode data
  = Ok (Build (class_key self) (model_inputs self)
          (<[mode := Dict true (appended data (items d) (inputs self))]>
             (samples self))
          (<[mode := found + last_len data (inputs self) 0]> (n_found self))
          (n_required self)).
Proof.
  intros Hd Hf Hr Hdd Hall Hgo Hkeys. unfold on_batch_end, dict_getitem.
  rewrite Hd. cbn [mbind result_bind].
  assert (Hcond : (if dict_is_empty d then Ok true
                   else found0 ← match n_found self !! mode with
                                 | Some a => Ok a
                                 | None => Raise KeyError
                                 end;
                        required0 ← match n_required self !! mode with
                                    | Some a => Ok a
                                    | None => Raise KeyError
                                    end;
                        Ok (found0 <? required0)) = Ok true).
  { destruct (dict_is_empty d) eqn:Hemp; [reflexivity|].
    rewrite Hf, Hr. cbn [mbind result_bind].
    destruct Hgo as [Hempty|Hlt].
    - apply dict_is_empty_false in Hemp. contradiction.
    - destruct (Z.ltb_spec found required); [reflexivity|lia]. }
  rewrite Hcond. cbn [mbind result_bind].
  rewrite collect_ok by assumption. cbn [mbind result_bind].
  rewrite Hf. reflexivity.
Qed.

Lemma on_batch_end_skips self mode data d (found required : Z) :
  samples self !! mode = Some d ->
  n_found self !! mode = Some found ->
  n_required self !! mode = Some required ->
  items d ≠ ∅ ->
  required <= found ->
  on_batch_end self mode data = Ok self.
Proof.
  intros Hd Hf Hr Hne Hle. unfold on_batch_end, dict_getitem.
  rewrite Hd. cbn [mbind result_bind].
  apply dict_is_empty_false in Hne. rewrite Hne, Hf, Hr.
  cbn [mbind result_bind].
  destruct (Z.ltb_spec found required); [lia|reflexivity].
Qed.

(** With nothing tracked, a batch on the empty buffer changes nothing. *)
Lemma on_batch_end_untracked self mode data :
  inputs self = [] ->
  samples self !! mode = Some (Dict true ∅) ->
  n_found self !! mode = Some 0 ->
  on_batch_end self mode data = Ok self.
Proof.
  intros Hin Hd Hf. unfold on_batch_end, dict_getitem.
  rewrite Hd. cbn [mbind result_bind].
  replace (dict_is_empty (Dict (row:=row) true ∅)) with true
    by (symmetry; apply dict_is_empty_true; reflexivity).
  cbn [mbind result_bind]. rewrite Hin. cbn [collect mbind result_bind].
  rewrite Hf. cbn [mbind result_bind]. rewrite !insert_id by assumption.
  destruct self. simpl in *. subst. reflexivity.
Qed.

End Facts.

(** C3. Single-batch mode: the buffer of the mode is the empty
    [defaultdict] and both counts are zero.  If the first batch has a column
    with at least one row for every tracked key, the second [on_batch_end]
    leaves the trace exactly as the first one left it, and after
    [on_epoch_end] the buffer holds, under every tracked key, the column of
    the first batch and nothing else. *)
Theorem single_batch_keeps_first (row : Type) (self : t row) (mode : string)
    (b1 b2 : Data row) :
  samples self !! mode = Some (Dict true ∅) ->
  n_found self !! mode = Some 0 ->
  n_required self !! mode = Some 0 ->
  (forall key, key ∈ inputs self ->
     exists col, b1 !! key = Some col /\ 0 < len col) ->
  exists self1 self' d',
    on_batch_end self mode b1 = Ok self1 /\
    on_batch_end self1 mode b2 = Ok self1 /\
    run self [BatchEnd mode b1; BatchEnd mode b2; EpochEnd mode] = Ok self' /\
    samples self' !! mode = Some d' /\
    dom (items d') = list_to_set (inputs self) /\
    forall key col,
      key ∈ inputs self -> b1 !! key = Some col ->
      items d' !! key = Some (Column col).
Proof.
  intros Hd Hf Hr Hb1.
  assert (Hcase : inputs self = [] \/ inputs self ≠ [])
    by (destruct (inputs self); [left; reflexivity|right; discriminate]).
  destruct Hcase as [Hnil|Hne].
  - exists self, self, (Dict true ∅).
    pose proof (on_batch_end_untracked self mode b1 Hnil Hd Hf) as H1.
    pose proof (on_batch_end_untracked self mode b2 Hnil Hd Hf) as H2.
    split; [assumption|]. split; [assumption|].
    split.
    { cbn [run step]. rewrite H1. cbn [mbind result_bind]. rewrite H2.
      cbn [mbind result_bind].
      rewrite (on_epoch_end_untracked self mode Hnil Hd Hf). reflexivity. }
    split; [assumption|].
    split; [rewrite Hnil; apply dom_empty_L|].
    intros key col Hin. rewrite Hnil in Hin. inversion Hin.
  - set (m1 := appended b1 ∅ (inputs self)).
    set (n1 := last_len b1 (inputs self) 0).
    set (self1 := Build (class_key self) (model_inputs self)
                    (<[mode := Dict true m1]> (samples self))
                    (<[mode := 0 + n1]> (n_found self))
                    (n_required self)).
    assert (Hcols : Forall (fun key => exists col, b1 !! key = Some col /\ 0 < len col)
                      (inputs self)) by (apply Forall_forall; exact Hb1).
    assert (H1 : on_batch_end self mode b1 = Ok self1).
    { apply (on_batch_end_collects self mode b1 (Dict true ∅) 0 0);
        try assumption; try reflexivity.
      - apply map_Forall_empty.
      - left. reflexivity.
      - eapply Forall_impl; [exact Hcols|]. intros key (col & Hcol & _). eauto. }
    assert (Hn1 : 0 < n1) by (apply last_len_pos; assumption).
    assert (Hm1 : m1 ≠ ∅) by (apply appended_not_empty; right; assumption).
    assert (Hall1 : map_Forall (fun _ v => pending_nonempty v) m1)
      by (apply appended_nonempty, map_Forall_empty).
    assert (H2 : on_batch_end self1 mode b2 = Ok self1).
    { apply (on_batch_end_skips self1 mode b2 (Dict true m1) (0 + n1) 0).
      - apply lookup_insert_eq.
      - apply lookup_insert_eq.
      - exact Hr.
      - exact Hm1.
      - lia. }
    pose proof (on_epoch_end_finalizes self1 mode (Dict true m1) (0 + n1) 0)
      as H3.
    cbn [items] in H3. rewrite Z.ltb_irrefl in H3.
    specialize (H3 (lookup_insert_eq _ _ _) (lookup_insert_eq _ _ _) Hr
                   ltac:(lia) Hall1
                   (fun key Hin => appended_tracked b1 ∅ (inputs self) key Hin)).
    eexists self1, _, (Dict false (first_total <$> m1)).
    split; [assumption|]. split; [assumption|].
    split.
    { cbn [run step]. rewrite H1. cbn [mbind result_bind]. rewrite H2.
      cbn [mbind result_bind]. rewrite H3. reflexivity. }
    split; [apply lookup_insert_eq|].
    split.
    { cbn [items]. rewrite dom_fmap_L. unfold m1. rewrite appended_dom.
      rewrite dom_empty_L. apply union_empty_l_L. }
    intros key col Hin Hcol. cbn [items]. rewrite lookup_fmap.
    assert (Hdom : key ∈ dom m1).
    { unfold m1. rewrite appended_dom. apply elem_of_union. right.
      apply elem_of_list_to_set. exact Hin. }
    apply elem_of_dom in Hdom as [v Hv].
    assert (Hfirst : first_is b1 m1).
    { apply appended_first. intros k v'. rewrite lookup_empty. discriminate. }
    destruct (Hfirst key v Hv) as [rest ->].
    rewrite Hv, Hcol. reflexivity.
Qed.

Lemma single_batch_keeps_first_witness :
  exists self' d',
    run one_batch_trace
        [BatchEnd "eval" batch1; BatchEnd "eval" batch2; EpochEnd "eval"]
    = Ok self' /\
    samples self' !! "eval" = Some d' /\
    items d' !! "x" = Some (Column [1; 2]) /\
    items d' !! "y" = Some (Column [10; 20]).
Proof.
  destruct (single_batch_keeps_first Z one_batch_trace "eval" batch1 batch2)
    as (self1 & self' & d' & _ & _ & Hrun & Hd & _ & Hkeys).
  - vm_compute. reflexivity.
  - vm_compute. reflexivity.
  - vm_compute. reflexivity.
  - intros key Hin. apply list_elem_of_In in Hin. simpl in Hin.
    destruct Hin as [<-|[<-|[]]]; eexists; split;
      solve [vm_compute; reflexivity].
  - exists self', d'. split; [exact Hrun|]. split; [exact Hd|].
    split; apply Hkeys;
      solve [vm_compute; reflexivity | apply list_elem_of_In; vm_compute; auto].
Defined.

(** C2. Size-capped mode with three required samples: the buffer of the
    mode is the empty [defaultdict], nothing was found yet and three samples
    are required.  The tracked keys are distinct and both batches have a
    column of two rows for each of them.  After the two [on_batch_end]
    callbacks and [on_epoch_end], the buffer holds exactly the tracked keys,
    each with the first three rows of the first batch's column followed by
    the second batch's column. *)
Theorem capped_keeps_first_three (row : Type) (self : t row) (mode : string)
    (b1 b2 : Data row) :
  samples self !! mode = Some (Dict true ∅) ->
  n_found self !! mode = Some 0 ->
  n_required self !! mode = Some 3 ->
  NoDup (inputs self) ->
  (forall key, key ∈ inputs self ->
     exists c1 c2, b1 !! key = Some c1 /\ b2 !! key = Some c2 /\
                   len c1 = 2 /\ len c2 = 2) ->
  exists self' d',
    run self [BatchEnd mode b1; BatchEnd mode b2; EpochEnd mode] = Ok self' /\
    samples self' !! mode = Some d' /\
    dom (items d') = list_to_set (inputs self) /\
    forall key c1 c2,
      key ∈ inputs self -> b1 !! key = Some c1 -> b2 !! key = Some c2 ->
      items d' !! key = Some (Column (take 3 (c1 ++ c2))) /\
      len (take 3 (c1 ++ c2)) = 3.
Proof.
  intros Hd Hf Hr Hnd Hb.
  assert (Hcase : inputs self = [] \/ inputs self ≠ [])
    by (destruct (inputs self); [left; reflexivity|right; discriminate]).
  destruct Hcase as [Hnil|Hne].
  - exists self, (Dict true ∅).
    pose proof (on_batch_end_untracked self mode b1 Hnil Hd Hf) as H1.
    pose proof (on_batch_end_untracked self mode b2 Hnil Hd Hf) as H2.
    split.
    { cbn [run step]. rewrite H1. cbn [mbind result_bind]. rewrite H2.
      cbn [mbind result_bind].
      rewrite (on_epoch_end_untracked self mode Hnil Hd Hf). reflexivity. }
    split; [assumption|].
    split; [rewrite Hnil; apply dom_empty_L|].
    intros key c1 c2 Hin. rewrite Hnil in Hin. inversion Hin.
  - set (m1 := appended b1 ∅ (inputs self)).
    set (self1 := Build (class_key self) (model_inputs self)
                    (<[mode := Dict true m1]> (samples self))
                    (<[mode := 0 + last_len b1 (inputs self) 0]> (n_found self))
                    (n_required self)).
    set (m2 := appended b2 m1 (inputs self)).
    set (self2 := Build (class_key self) (model_inputs self)
                    (<[mode := Dict true m2]> (samples self1))
                    (<[mode := 2 + last_len b2 (inputs self) 0]> (n_found self1))
                    (n_required self)).
    assert (Hlen1 : last_len b1 (inputs self) 0 = 2).
    { apply last_len_const; [assumption|]. apply Forall_forall.
      intros key Hin. destruct (Hb key Hin) as (c1 & c2 & ? & ? & ? & ?). eauto. }
    assert (Hlen2 : last_len b2 (inputs self) 0 = 2).
    { apply last_len_const; [assumption|]. apply Forall_forall.
      intros key Hin. destruct (Hb key Hin) as (c1 & c2 & ? & ? & ? & ?). eauto. }
    assert (H1 : on_batch_end self mode b1 = Ok self1).
    { apply (on_batch_end_collects self mode b1 (Dict true ∅) 0 3);
        try assumption; try reflexivity.
      - apply map_Forall_empty.
      - left. reflexivity.
      - apply Forall_forall. intros key Hin.
        destruct (Hb key Hin) as (c1 & c2 & -> & _). eauto. }
    assert (Hall1 : map_Forall (fun _ v => pending_nonempty v) m1)
      by (apply appended_nonempty, map_Forall_empty).
    assert (Hall2 : map_Forall (fun _ v => pending_nonempty v) m2)
      by (apply appended_nonempty, Hall1).
    assert (H2 : on_batch_end self1 mode b2 = Ok self2).
    { apply (on_batch_end_collects self1 mode b2 (Dict true m1) 2 3).
      - apply lookup_insert_eq.
      - cbn [self1 n_found]. rewrite Hlen1. apply lookup_insert_eq.
      - exact Hr.
      - reflexivity.
      - intros k v Hk. apply pending_nonempty_is_pending, (Hall1 k v Hk).
      - right. lia.
      - apply Forall_forall. intros key Hin.
        destruct (Hb key Hin) as (c1 & c2 & _ & -> & _). eauto. }
    pose proof (on_epoch_end_finalizes self2 mode (Dict true m2)
                  (2 + last_len b2 (inputs self) 0) 3
                  (lookup_insert_eq _ _ _) (lookup_insert_eq _ _ _) Hr
                  ltac:(lia) Hall2
                  (fun key Hin => appended_tracked b2 m1 (inputs self) key Hin))
      as H3.
    cbn [items] in H3. change (0 <? 3) with true in H3. cbv iota in H3.
    eexists _, (Dict false (required_total 3 <$> m2)).
    split.
    { cbn [run step]. rewrite H1. cbn [mbind result_bind]. rewrite H2.
      cbn [mbind result_bind]. rewrite H3. reflexivity. }
    split; [apply lookup_insert_eq|].
    split.
    { cbn [items]. rewrite dom_fmap_L. unfold m2, m1.
      rewrite !appended_dom, dom_empty_L, union_empty_l_L.
      apply union_idemp_L. }
    intros key c1 c2 Hin Hc1 Hc2. cbn [items]. rewrite lookup_fmap.
    unfold m2, m1. rewrite !appended_lookup_in by assumption.
    rewrite lookup_empty, Hc1, Hc2. cbn.
    rewrite app_nil_r.
    split; [reflexivity|].
    destruct (Hb key Hin) as (c1' & c2' & Hc1' & Hc2' & Hl1 & Hl2).
    rewrite Hc1 in Hc1'. rewrite Hc2 in Hc2'.
    injection Hc1' as <-. injection Hc2' as <-.
    unfold len in *. rewrite length_take, length_app. lia.
Qed.

Lemma capped_keeps_first_three_witness :
  exists self' d',
    run three_samples_trace
        [BatchEnd "eval" batch1; BatchEnd "eval" batch2; EpochEnd "eval"]
    = Ok self' /\
    samples self' !! "eval" = Some d' /\
    items d' !! "x" = Some (Column [1; 2; 3]) /\
    items d' !! "y" = Some (Column [10; 20; 30]).
Proof.
  destruct (capped_keeps_first_three Z three_samples_trace "eval" batch1 batch2)
    as (self' & d' & Hrun & Hd & _ & Hkeys).
  - vm_compute. reflexivity.
  - vm_compute. reflexivity.
  - vm_compute. reflexivity.
  - apply (bool_decide_unpack (NoDup (inputs three_samples_trace))).
    vm_compute. reflexivity.
  - intros key Hin. apply list_elem_of_In in Hin. simpl in Hin.
    destruct Hin as [<-|[<-|[]]]; eexists; eexists;
      (split; [vm_compute; reflexivity|]);
      (split; [vm_compute; reflexivity|]);
      split; vm_compute; reflexivity.
  - exists self', d'. split; [exact Hrun|]. split; [exact Hd|].
    split.
    + apply (Hkeys "x" [1; 2] [3; 4]);
        solve [vm_compute; reflexivity
              | apply list_elem_of_In; vm_compute; auto].
    + apply (Hkeys "y" [10; 20] [30; 40]);
        solve [vm_compute; reflexivity
              | apply list_elem_of_In; vm_compute; auto].
Defined.




(** *** The constructor *)

Section Constructor.
Context {row : Type}.
Implicit Types (self : t row) (arg : samples_arg row) (mode : string).

Lemma init_mode_same arg self mode :
  samples (init_mode arg self mode) !! mode = Some (initial_buffer arg) /\
  n_found (init_mode arg self mode) !! mode = Some 0 /\
  n_required (init_mode arg self mode) !! mode = Some (initial_required arg).
Proof.
  destruct arg; cbn [init_mode samples n_found n_required initial_buffer
                     initial_required];
    rewrite !lookup_insert_eq; auto.
Qed.

Lemma init_mode_other arg self mode mode' :
  mode ≠ mode' ->
  inputs (init_mode arg self mode) = inputs self /\
  samples (init_mode arg self mode) !! mode' = samples self !! mode' /\
  n_found (init_mode arg self mode) !! mode' = n_found self !! mode' /\
  n_required (init_mode arg self mode) !! mode' = n_required self !! mode'.
Proof.
  intros Hne.
  destruct arg; cbn [init_mode inputs samples n_found n_required];
    rewrite !lookup_insert_ne by assumption; auto.
Qed.

Lemma init_mode_inputs arg self mode :
  inputs (init_mode arg self mode) = inputs self.
Proof. destruct arg; reflexivity. Qed.

Lemma foldl_init_mode arg (modes : list string) self mode :
  inputs (foldl (init_mode arg) self modes) = inputs self /\
  (mode ∈ modes ->
   samples (foldl (init_mode arg) self modes) !! mode
   = Some (initial_buffer arg) /\
   n_found (foldl (init_mode arg) self modes) !! mode = Some 0 /\
   n_required (foldl (init_mode arg) self modes) !! mode
   = Some (initial_required arg)) /\
  (mode ∉ modes ->
   samples (foldl (init_mode arg) self modes) !! mode = samples self !! mode /\
   n_found (foldl (init_mode arg) self modes) !! mode = n_found self !! mode /\
   n_required (foldl (init_mode arg) self modes) !! mode
   = n_required self !! mode).
Proof.
  revert self. induction modes as [|m modes IH]; intros self.
  - split; [reflexivity|]. split; [intros Hin; inversion Hin|auto].
  - cbn [foldl]. destruct (IH (init_mode arg self m)) as (Hin & Hyes & Hno).
    split; [rewrite Hin; apply init_mode_inputs|]. split.
    + intros Hmode. destruct (decide (mode ∈ modes)) as [Hlater|Hlater];
        [apply Hyes, Hlater|].
      apply elem_of_cons in Hmode as [->|?]; [|contradiction].
      destruct (Hno Hlater) as (-> & -> & ->). apply init_mode_same.
    + intros Hmode. apply not_elem_of_cons in Hmode as [Hne Hmode].
      destruct (Hno Hmode) as (-> & -> & ->).
      destruct (init_mode_other arg self m mode) as (_ & -> & -> & ->); auto.
Qed.

Lemma chars_length (s x : string) : x ∈ chars s -> String.length x = 1%nat.
Proof.
  induction s as [|a s IH]; simpl; intros Hx; [inversion Hx|].
  apply elem_of_cons in Hx as [->|Hx]; [reflexivity|auto].
Qed.

Lemma run_fixed self (evs : list (event row)) :
  Forall (fun ev => step self ev = Ok self) evs -> run self evs = Ok self.
Proof.
  induction 1 as [|ev evs Hev _ IH]; [reflexivity|].
  cbn [run]. rewrite Hev. exact IH.
Qed.

Lemma run_other_modes self (evs : list (event row)) self' mode :
  run self evs = Ok self' ->
  Forall (fun ev => event_mode ev ≠ mode) evs ->
  samples self' !! mode = samples self !! mode /\
  n_found self' !! mode = n_found self !! mode /\
  n_required self' !! mode = n_required self !! mode.
Proof.
  intros Hrun Hall. revert self Hrun.
  induction Hall as [|ev evs Hev _ IH]; intros self Hrun.
  - injection Hrun as <-. auto.
  - cbn [run] in Hrun.
    destruct (step self ev) as [self1|] eqn:Hstep; cbn [mbind result_bind] in Hrun;
      [|discriminate].
    destruct (IH self1 Hrun) as (-> & -> & ->).
    destruct ev as [mode' data|mode']; cbn [step event_mode] in *.
    + apply (on_batch_end_other self mode mode' data self1); auto.
    + apply (on_epoch_end_other self mode mode' self1); auto.
Qed.

End Constructor.

Lemma foldl_init_mode_keys (row : Type) (arg : samples_arg row)
    (modes : list string) (self : t row) :
  class_key (foldl (init_mode arg) self modes) = class_key self /\
  model_inputs (foldl (init_mode arg) self modes) = model_inputs self.
Proof.
  revert self. induction modes as [|mode modes IH]; intros self; [auto|].
  cbn [foldl]. destruct (IH (init_mode arg self mode)) as [-> ->].
  destruct arg; auto.
Qed.

Lemma init_keys (row : Type) (ck : option string) (ins : list string)
    (arg : samples_arg row) (marg : mode_arg) :
  class_key (__init__ ck ins arg marg) = ck /\
  model_inputs (__init__ ck ins arg marg) = ins.
Proof.
  unfold __init__.
  apply (foldl_init_mode_keys row arg (modes_of marg) (Build ck ins ∅ ∅ ∅)).
Qed.

Lemma init_lookup (row : Type) (ck : option string) (ins : list string)
    (arg : samples_arg row) (marg : mode_arg) (mode : string) :
  inputs (__init__ ck ins arg marg) = to_list ck ++ ins /\
  (mode ∈ modes_of marg ->
   samples (__init__ ck ins arg marg) !! mode = Some (initial_buffer arg) /\
   n_found (__init__ ck ins arg marg) !! mode = Some 0 /\
   n_required (__init__ ck ins arg marg) !! mode
   = Some (initial_required arg)) /\
  (mode ∉ modes_of marg ->
   (forall data,
      on_batch_end (__init__ ck ins arg marg) mode data = Raise KeyError) /\
   on_epoch_end (__init__ ck ins arg marg) mode = Raise KeyError).
Proof.
  unfold __init__.
  destruct (foldl_init_mode arg (modes_of marg) (Build ck ins ∅ ∅ ∅) mode)
    as (Hin & Hyes & Hno).
  split; [exact Hin|]. split; [exact Hyes|].
  intros Hmode. destruct (Hno Hmode) as (Hs & Hf & _).
  split.
  - intros data. unfold on_batch_end, dict_getitem. rewrite Hs.
    cbn [samples]. rewrite lookup_empty. reflexivity.
  - unfold on_epoch_end, finalize, dict_getitem. rewrite Hf.
    cbn [n_found]. rewrite lookup_empty. reflexivity.
Qed.

(** X5. After construction, every mode the loop of the constructor ran over
    has its initial buffer (the user's dictionary, or the empty
    [defaultdict]), found-count 0 and required-count [samples] (0 unless an
    integer was given); in any other mode both callbacks raise [KeyError].
    The tracked keys are the class key, if one was given, and the model
    inputs. *)
Theorem init_modes (row : Type) (ck : option string) (ins : list string)
    (arg : samples_arg row) (marg : mode_arg) (mode : string) :
  inputs (__init__ ck ins arg marg) = to_list ck ++ ins /\
  (mode ∈ modes_of marg ->
   samples (__init__ ck ins arg marg) !! mode = Some (initial_buffer arg) /\
   n_found (__init__ ck ins arg marg) !! mode = Some 0 /\
   n_required (__init__ ck ins arg marg) !! mode
   = Some (initial_required arg)) /\
  (mode ∉ modes_of marg ->
   (forall data,
      on_batch_end (__init__ ck ins arg marg) mode data = Raise KeyError) /\
   on_epoch_end (__init__ ck ins arg marg) mode = Raise KeyError).
Proof. apply init_lookup. Qed.

Lemma init_modes_witness :
  n_required three_samples_trace !! "test" = Some 3 /\
  on_batch_end three_samples_trace "infer" batch1 = Raise KeyError.
Proof.
  destruct (init_modes Z None ["x"; "y"] (SInt 3) MNone "test")
    as (_ & Hyes & _).
  destruct (init_modes Z None ["x"; "y"] (SInt 3) MNone "infer")
    as (_ & _ & Hno).
  split.
  - apply Hyes. apply list_elem_of_In. simpl. auto.
  - apply Hno. intros Hin. apply list_elem_of_In in Hin. simpl in Hin.
    destruct Hin as [H|[H|[H|[]]]]; discriminate.
Defined.

(** X6. A [mode] given as one string is iterated character by character:
    when the string has two or more characters, the trace has no entry for
    the mode itself and both callbacks raise [KeyError] in that mode. *)
Theorem string_mode_is_split (row : Type) (ck : option string)
    (ins : list string) (arg : samples_arg row) (s : string)
    (data : Data row) :
  (1 < String.length s)%nat ->
  on_batch_end (__init__ ck ins arg (MStr s)) s data = Raise KeyError /\
  on_epoch_end (__init__ ck ins arg (MStr s)) s = Raise KeyError.
Proof.
  intros Hlen.
  destruct (init_lookup row ck ins arg (MStr s) s) as (_ & _ & Hno).
  assert (Hnotin : s ∉ modes_of (MStr s)).
  { destruct s as [|a s']; [simpl in Hlen; lia|]. cbn [modes_of].
    intros Hin. apply chars_length in Hin. lia. }
  destruct (Hno Hnotin) as [Hb He]. split; [apply Hb|exact He].
Qed.

Lemma string_mode_is_split_witness :
  on_batch_end (__init__ None ["x"; "y"] (SInt 3) (MStr "eval")) "eval" batch1
  = Raise KeyError /\
  on_epoch_end (__init__ (row:=Z) None ["x"; "y"] (SInt 3) (MStr "eval"))
               "eval"
  = Raise KeyError.
Proof.
  apply (string_mode_is_split Z None ["x"; "y"] (SInt 3) "eval" batch1).
  vm_compute. lia.
Defined.

(** X7. The modes do not interfere: callbacks sent in other modes leave the
    buffer and both counts of a mode as they were. *)
Theorem modes_are_independent (row : Type) (self self' : t row)
    (evs : list (event row)) (mode : string) :
  run self evs = Ok self' ->
  Forall (fun ev => event_mode ev <> mode) evs ->
  samples self' !! mode = samples self !! mode /\
  n_found self' !! mode = n_found self !! mode /\
  n_required self' !! mode = n_required self !! mode.
Proof. apply run_other_modes. Qed.

Lemma modes_are_independent_witness :
  exists self',
    run three_samples_trace [BatchEnd "eval" batch1; EpochEnd "eval"] = Ok self' /\
    samples self' !! "test" = samples three_samples_trace !! "test" /\
    n_required self' !! "test" = Some 3.
Proof.
  destruct (run three_samples_trace [BatchEnd "eval" batch1; EpochEnd "eval"])
    as [self'|e] eqn:Hrun; [|vm_compute in Hrun; discriminate].
  destruct (modes_are_independent Z three_samples_trace self'
              [BatchEnd "eval" batch1; EpochEnd "eval"] "test" Hrun)
    as (Hs & _ & Hr).
  - repeat constructor; discriminate.
  - exists self'. split; [reflexivity|]. split; [exact Hs|].
    rewrite Hr. vm_compute. reflexivity.
Defined.

Lemma present_missing (row : Type) (self : t row) (mode : string)
    (d : pydict row) :
  samples self !! mode = Some d ->
  is_defaultdict d = false ->
  ~ has_class_key (class_key self) (items d) ->
  present self mode = Raise KeyError.
Proof.
  intros Hd Hdd Hnot. unfold present, dict_getitem. rewrite Hd.
  cbn [mbind result_bind].
  destruct (truthy (class_key self)) as [key|] eqn:Hck.
  2: { exfalso. apply Hnot. intros key Hkey. congruence. }
  destruct (items d !! key) as [v|] eqn:Hv.
  { exfalso. apply Hnot. intros key' Hkey'.
    rewrite Hck in Hkey'. injection Hkey' as <-. eauto. }
  rewrite (lookup_classes_missing _ d key Hdd Hck Hv). reflexivity.
Qed.



(** *** Collecting over a whole epoch *)

Section Collection.
Context {row : Type}.
Implicit Types (self : t row) (data : Data row)
         (m : gmap string (value row)) (key mode : string)
         (keys : list string) (bs taken skipped : list (Data row)).

Lemma run_app self (evs1 evs2 : list (event row)) :
  run self (evs1 ++ evs2) = (self1 ← run self evs1; run self1 evs2).
Proof.
  revert self. induction evs1 as [|ev evs1 IH]; intros self; [reflexivity|].
  cbn [app run]. destruct (step self ev) as [self1|]; cbn [mbind result_bind];
    [apply IH|reflexivity].
Qed.

Lemma with_buffer_id self mode m (found : Z) :
  samples self !! mode = Some (Dict true m) ->
  n_found self !! mode = Some found ->
  with_buffer self mode m found = self.
Proof.
  intros Hs Hf. unfold with_buffer. rewrite !insert_id by assumption.
  destruct self. reflexivity.
Qed.

Lemma with_buffer_again self mode m m' (found found' : Z) :
  with_buffer (with_buffer self mode m found) mode m' found'
  = with_buffer self mode m' found'.
Proof.
  unfold with_buffer. cbn [inputs samples n_found n_required].
  rewrite !insert_insert_eq. reflexivity.
Qed.

(** One [on_batch_end] on a pending buffer is [batch_step]. *)
Lemma on_batch_end_batch_step self mode data m (found required : Z) :
  n_required self !! mode = Some required ->
  map_Forall (fun _ v => pending_nonempty v) m ->
  Forall (fun key => is_Some (data !! key)) (inputs self) ->
  on_batch_end (with_buffer self mode m found) mode data
  = Ok (with_buffer self mode
          (batch_step (inputs self) required (m, found) data).1
          (batch_step (inputs self) required (m, found) data).2).
Proof.
  intros Hr Hall Hkeys. unfold batch_step. cbn [fst snd].
  destruct ((size m =? 0)%nat || (found <? required)) eqn:Hgo; cbn [fst snd].
  - rewrite (on_batch_end_collects (with_buffer self mode m found) mode data
               (Dict true m) found required).
    + unfold with_buffer. cbn [inputs samples n_found n_required items].
      rewrite !insert_insert_eq. reflexivity.
    + apply lookup_insert_eq.
    + apply lookup_insert_eq.
    + exact Hr.
    + reflexivity.
    + intros k v Hk. apply pending_nonempty_is_pending, (Hall k v Hk).
    + apply orb_true_iff in Hgo as [Hemp|Hlt].
      * left. apply Nat.eqb_eq, map_size_empty_iff in Hemp. exact Hemp.
      * right. apply Z.ltb_lt. exact Hlt.
    + exact Hkeys.
  - apply orb_false_iff in Hgo as [Hemp Hlt].
    apply (on_batch_end_skips (with_buffer self mode m found) mode data
             (Dict true m) found required).
    + apply lookup_insert_eq.
    + apply lookup_insert_eq.
    + exact Hr.
    + cbn [items]. intros Hm. apply map_size_empty_iff, Nat.eqb_eq in Hm.
      congruence.
    + apply Z.ltb_ge. exact Hlt.
Qed.

Lemma batch_step_nonempty keys (required : Z) st data :
  map_Forall (fun _ v => pending_nonempty v) st.1 ->
  map_Forall (fun _ v => pending_nonempty v) (batch_step keys required st data).1.
Proof.
  intros Hall. unfold batch_step.
  destruct (_ || _); [apply appended_nonempty|]; exact Hall.
Qed.

(** A run of [on_batch_end] callbacks in one mode is a fold of
    [batch_step]. *)
Lemma run_batches self mode bs m (found required : Z) :
  n_required self !! mode = Some required ->
  map_Forall (fun _ v => pending_nonempty v) m ->
  Forall (fun data => Forall (fun key => is_Some (data !! key)) (inputs self))
         bs ->
  run (with_buffer self mode m found) (map (BatchEnd mode) bs)
  = Ok (with_buffer self mode
          (foldl (batch_step (inputs self) required) (m, found) bs).1
          (foldl (batch_step (inputs self) required) (m, found) bs).2).
Proof.
  intros Hr Hall Hbs. revert m found Hall.
  induction Hbs as [|data bs Hdata _ IH]; intros m found Hall; [reflexivity|].
  cbn [map run step foldl].
  rewrite (on_batch_end_batch_step self mode data m found required Hr Hall Hdata).
  cbn [mbind result_bind].
  rewrite IH by (apply (batch_step_nonempty _ _ (m, found)); exact Hall).
  rewrite <- surjective_pairing. reflexivity.
Qed.

Lemma last_len_nonneg data keys (n : Z) : 0 <= n -> 0 <= last_len data keys n.
Proof.
  revert n. induction keys as [|key keys IH]; intros n Hn; [exact Hn|].
  cbn [last_len foldl]. apply IH. apply len_nonneg.
Qed.

Lemma sum_rows_app keys bs1 bs2 :
  sum_rows keys (bs1 ++ bs2) = sum_rows keys bs1 + sum_rows keys bs2.
Proof.
  induction bs1 as [|b bs1 IH]; [reflexivity|].
  cbn [app sum_rows foldr]. fold (sum_rows keys (bs1 ++ bs2)).
  fold (sum_rows keys bs1). lia.
Qed.

Lemma sum_rows_nonneg keys bs : 0 <= sum_rows keys bs.
Proof.
  induction bs as [|b bs IH]; [reflexivity|].
  cbn [sum_rows foldr]. fold (sum_rows keys bs).
  pose proof (last_len_nonneg b keys 0). lia.
Qed.

Lemma uniform_last_len keys data (n : Z) :
  keys ≠ [] -> uniform keys data n -> last_len data keys 0 = n.
Proof.
  intros Hne Hu. apply last_len_const; [assumption|].
  apply Forall_forall. exact Hu.
Qed.

(** Under a tracked key, the columns of uniform batches have as many rows
    as [on_batch_end] counts. *)
Lemma len_concat_columns keys key bs :
  keys ≠ [] -> key ∈ keys ->
  Forall (fun data => exists n, uniform keys data n) bs ->
  len (concat (map (column_of key) bs)) = sum_rows keys bs.
Proof.
  intros Hne Hkey. induction 1 as [|b bs [n Hu] _ IH]; [reflexivity|].
  cbn [map sum_rows foldr]. fold (sum_rows keys bs).
  unfold concat in *. cbn [List.concat]. rewrite len_app, IH.
  rewrite (uniform_last_len keys b n Hne Hu).
  destruct (Hu key Hkey) as (col & Hcol & Hlen).
  unfold column_of. rewrite Hcol. simpl. lia.
Qed.

Lemma collecting_start keys (required : Z) :
  collecting (row:=row) keys required (∅, 0) [] [].
Proof.
  unfold collecting. cbn [fst snd].
  split; [intros key _; rewrite lookup_empty; reflexivity|].
  split; [reflexivity|]. split; [congruence|]. split; [congruence|].
  split; [reflexivity|]. apply map_Forall_empty.
Qed.

(** [batch_step] keeps the description of the collection. *)
Lemma collecting_step keys (required : Z) st taken skipped data :
  NoDup keys -> keys ≠ [] ->
  collecting keys required st taken skipped ->
  exists taken' skipped',
    taken ++ skipped ++ [data] = taken' ++ skipped' /\
    collecting keys required (batch_step keys required st data) taken' skipped'.
Proof.
  intros Hnd Hne (Hcols & Hfound & Hskip & Hdom & Hemp & Hall).
  assert (Hkeyset : list_to_set keys ≠ (∅ : gset string)).
  { destruct keys as [|k keys]; [contradiction|]. cbn [list_to_set].
    intros Hset. apply (not_elem_of_empty (C:=gset string) k). rewrite <- Hset.
    apply elem_of_union. left. apply elem_of_singleton. reflexivity. }
  unfold batch_step.
  destruct ((size st.1 =? 0)%nat || (st.2 <? required)) eqn:Hgo.
  - assert (Hnone : skipped = []).
    { destruct skipped as [|b skipped]; [reflexivity|]. exfalso.
      destruct Hskip as [Hle Htaken]; [discriminate|].
      apply orb_true_iff in Hgo as [Hsize|Hlt].
      - apply Nat.eqb_eq, map_size_empty_iff in Hsize.
        specialize (Hdom Htaken). rewrite Hsize, dom_empty_L in Hdom.
        congruence.
      - apply Z.ltb_lt in Hlt. lia. }
    subst skipped. exists (taken ++ [data]), [].
    split; [rewrite app_nil_r; reflexivity|].
    unfold collecting. cbn [fst snd].
    split.
    { intros key Hkey. rewrite appended_lookup_in by assumption.
      cbn [cols_of]. rewrite (Hcols key Hkey), map_app. reflexivity. }
    split.
    { rewrite sum_rows_app, Hfound. cbn [sum_rows foldr]. lia. }
    split; [congruence|].
    split.
    { intros _. rewrite appended_dom.
      destruct taken as [|b taken].
      - rewrite Hemp by reflexivity. rewrite dom_empty_L.
        apply union_empty_l_L.
      - rewrite Hdom by discriminate. apply union_idemp_L. }
    split; [intros Hnil; destruct taken; discriminate|].
    apply appended_nonempty, Hall.
  - apply orb_false_iff in Hgo as [Hsize Hlt].
    exists taken, (skipped ++ [data]). split; [reflexivity|].
    assert (Htaken : taken ≠ []).
    { intros Hnil. apply Nat.eqb_neq in Hsize. apply Hsize.
      rewrite (Hemp Hnil). reflexivity. }
    unfold collecting. split; [exact Hcols|]. split; [exact Hfound|].
    split; [intros _; split; [apply Z.ltb_ge, Hlt|exact Htaken]|].
    split; [exact Hdom|]. split; [exact Hemp|]. exact Hall.
Qed.

Lemma collecting_fold keys (required : Z) bs st taken skipped :
  NoDup keys -> keys ≠ [] ->
  collecting keys required st taken skipped ->
  exists taken' skipped',
    taken ++ skipped ++ bs = taken' ++ skipped' /\
    collecting keys required (foldl (batch_step keys required) st bs)
               taken' skipped'.
Proof.
  intros Hnd Hne. revert st taken skipped.
  induction bs as [|data bs IH]; intros st taken skipped Hc.
  - exists taken, skipped. rewrite app_nil_r. auto.
  - destruct (collecting_step keys required st taken skipped data Hnd Hne Hc)
      as (taken1 & skipped1 & Heq & Hc1).
    destruct (IH _ _ _ Hc1) as (taken2 & skipped2 & Heq2 & Hc2).
    exists taken2, skipped2. split; [|exact Hc2].
    rewrite <- Heq2, (app_assoc taken1 skipped1 bs), <- Heq.
    rewrite <- !app_assoc. reflexivity.
Qed.

Lemma sum_rows_pos keys bs :
  keys ≠ [] ->
  Exists (fun data => exists n, uniform keys data n /\ 0 < n) bs ->
  0 < sum_rows keys bs.
Proof.
  intros Hne. induction 1 as [b bs (n & Hu & Hn)|b bs _ IH];
    cbn [sum_rows foldr]; fold (sum_rows keys bs).
  - rewrite (uniform_last_len keys b n Hne Hu).
    pose proof (sum_rows_nonneg keys bs). lia.
  - pose proof (last_len_nonneg b keys 0). lia.
Qed.

(** The first [required] rows of what was appended are the first
    [required] rows of all the batches: a batch is skipped only once enough
    rows were found. *)
Lemma collecting_take keys (required : Z) st taken skipped key :
  keys ≠ [] -> key ∈ keys ->
  Forall (fun data => exists n, uniform keys data n) taken ->
  collecting keys required st taken skipped ->
  take (Z.to_nat required) (concat (map (column_of key) taken))
  = take (Z.to_nat required) (concat (map (column_of key) (taken ++ skipped))).
Proof.
  intros Hne Hkey Hu (_ & Hfound & Hskip & _).
  destruct skipped as [|b skipped]; [rewrite app_nil_r; reflexivity|].
  destruct Hskip as [Hle _]; [discriminate|].
  rewrite map_app. unfold concat. rewrite concat_app.
  rewrite take_app_le; [reflexivity|].
  pose proof (len_concat_columns keys key taken Hne Hkey Hu) as Hlen.
  unfold concat, len in Hlen. lia.
Qed.

End Collection.



(** X10. One-batch collection over a whole epoch.  The buffer of the mode
    is the empty [defaultdict], nothing was found yet and the required-count
    is zero or negative; something is tracked and the first batch has a
    column of at least one row for every tracked key.  Then, whatever
    batches follow in the epoch, the callbacks return and [on_epoch_end]
    leaves a plain dictionary holding, under exactly the tracked keys, the
    columns of the first batch; both counts are reset to zero. *)
Theorem single_batch_collection (row : Type) (self : t row) (mode : string)
    (required : Z) (b1 : Data row) (bs : list (Data row)) :
  samples self !! mode = Some (Dict true ∅) ->
  n_found self !! mode = Some 0 ->
  n_required self !! mode = Some required ->
  required <= 0 ->
  inputs self <> [] ->
  (forall key, key ∈ inputs self ->
     exists col, b1 !! key = Some col /\ 0 < len col) ->
  exists self' d',
    run self (map (BatchEnd mode) (b1 :: bs) ++ [EpochEnd mode]) = Ok self' /\
    samples self' !! mode = Some d' /\
    is_defaultdict d' = false /\
    dom (items d') = list_to_set (inputs self) /\
    n_found self' !! mode = Some 0 /\
    n_required self' !! mode = Some 0 /\
    forall key col,
      key ∈ inputs self -> b1 !! key = Some col ->
      items d' !! key = Some (Column col).
Proof.
  intros Hs Hf Hr Hreq Hne Hb1.
  set (m1 := appended b1 ∅ (inputs self)).
  set (n1 := last_len b1 (inputs self) 0).
  set (self1 := Build (class_key self) (model_inputs self)
                  (<[mode := Dict true m1]> (samples self))
                  (<[mode := 0 + n1]> (n_found self))
                  (n_required self)).
  assert (Hcols : Forall (fun key => exists col, b1 !! key = Some col /\ 0 < len col)
                    (inputs self)) by (apply Forall_forall; exact Hb1).
  assert (H1 : on_batch_end self mode b1 = Ok self1).
  { apply (on_batch_end_collects self mode b1 (Dict true ∅) 0 required);
      try assumption; try reflexivity.
    - apply map_Forall_empty.
    - left. reflexivity.
    - eapply Forall_impl; [exact Hcols|]. intros key (col & Hcol & _). eauto. }
  assert (Hn1 : 0 < n1) by (apply last_len_pos; assumption).
  assert (Hm1 : m1 ≠ ∅) by (apply appended_not_empty; right; assumption).
  assert (Hall1 : map_Forall (fun _ v => pending_nonempty v) m1)
    by (apply appended_nonempty, map_Forall_empty).
  assert (H2 : run self1 (map (BatchEnd mode) bs) = Ok self1).
  { apply run_fixed. apply Forall_map, Forall_forall. intros data _.
    cbn [step].
    apply (on_batch_end_skips self1 mode data (Dict true m1) (0 + n1) required).
    - apply lookup_insert_eq.
    - apply lookup_insert_eq.
    - exact Hr.
    - exact Hm1.
    - lia. }
  pose proof (on_epoch_end_finalizes self1 mode (Dict true m1) (0 + n1) required
                (lookup_insert_eq _ _ _) (lookup_insert_eq _ _ _) Hr
                ltac:(lia) Hall1
                (fun key Hin => appended_tracked b1 ∅ (inputs self) key Hin))
    as H3.
  destruct (Z.ltb_spec 0 required) as [?|_]; [lia|].
  cbn [items] in H3.
  eexists _, (Dict false (first_total <$> m1)).
  split.
  { change (map (BatchEnd mode) (b1 :: bs) ++ [EpochEnd mode])
      with ([BatchEnd mode b1]
            ++ (map (BatchEnd mode) bs ++ [EpochEnd mode])).
    rewrite run_app. cbn [run step]. rewrite H1. cbn [mbind result_bind].
    rewrite run_app, H2. cbn [mbind result_bind run step]. rewrite H3.
    reflexivity. }
  split; [apply lookup_insert_eq|]. split; [reflexivity|].
  split.
  { cbn [items]. rewrite dom_fmap_L. unfold m1. rewrite appended_dom.
    rewrite dom_empty_L. apply union_empty_l_L. }
  split; [apply lookup_insert_eq|]. split; [apply lookup_insert_eq|].
  intros key col Hin Hcol. cbn [items]. rewrite lookup_fmap.
  assert (Hdom : key ∈ dom m1).
  { unfold m1. rewrite appended_dom. apply elem_of_union. right.
    apply elem_of_list_to_set. exact Hin. }
  apply elem_of_dom in Hdom as [v Hv].
  assert (Hfirst : first_is b1 m1).
  { apply appended_first. intros k v'. rewrite lookup_empty. discriminate. }
  destruct (Hfirst key v Hv) as [rest ->].
  rewrite Hv, Hcol. reflexivity.
Qed.

Lemma single_batch_collection_witness :
  exists self' d',
    run one_batch_trace
        [BatchEnd "eval" batch1; BatchEnd "eval" batch2; BatchEnd "eval" batch3;
         EpochEnd "eval"] = Ok self' /\
    samples self' !! "eval" = Some d' /\
    items d' !! "x" = Some (Column [1; 2]) /\
    items d' !! "y" = Some (Column [10; 20]).
Proof.
  destruct (single_batch_collection Z one_batch_trace "eval" 0 batch1
              [batch2; batch3])
    as (self' & d' & Hrun & Hd & _ & _ & _ & _ & Hkeys).
  - vm_compute. reflexivity.
  - vm_compute. reflexivity.
  - vm_compute. reflexivity.
  - lia.
  - vm_compute. discriminate.
  - intros key Hin. apply list_elem_of_In in Hin. simpl in Hin.
    destruct Hin as [<-|[<-|[]]]; eexists; split;
      solve [vm_compute; reflexivity].
  - exists self', d'. split; [exact Hrun|]. split; [exact Hd|].
    split; apply Hkeys;
      solve [vm_compute; reflexivity | apply list_elem_of_In; vm_compute; auto].
Defined.

End SaliencySpec.

(** ** pad_data *)

Module PadSpec.
Import Pad.

Local Open Scope nat_scope.

Section Facts.
Context {A : Type}.
Implicit Types (l : list A) (v : A) (sh idx : list nat)
         (pw : list (nat * nat)) (a : ndarray A).

(** *** Blocks of a row-major list *)

Lemma length_chunks n k l : length (chunks n k l) = n.
Proof.
  revert l. induction n as [|n IH]; intros l; simpl; [reflexivity|].
  rewrite IH. reflexivity.
Qed.

Lemma chunks_uniform n k l :
  length l = n * k -> Forall (fun c => length c = k) (chunks n k l).
Proof.
  revert l. induction n as [|n IH]; intros l Hlen; simpl; constructor.
  - rewrite length_take. lia.
  - apply IH. rewrite length_drop. lia.
Qed.

Lemma concat_chunks n k l : length l = n * k -> concat (chunks n k l) = l.
Proof.
  revert l. induction n as [|n IH]; intros l Hlen; simpl.
  - destruct l; [reflexivity|simpl in Hlen; lia].
  - rewrite IH by (rewrite length_drop; lia). apply take_drop.
Qed.

Lemma chunks_lookup n k l i :
  i < n -> chunks n k l !! i = Some (take k (drop (i * k) l)).
Proof.
  revert l i. induction n as [|n IH]; intros l i Hi; [lia|].
  destruct i as [|i]; simpl; [reflexivity|].
  rewrite IH by lia. rewrite drop_drop. reflexivity.
Qed.

Lemma length_concat_uniform (ls : list (list A)) k :
  Forall (fun c => length c = k) ls -> length (concat ls) = length ls * k.
Proof.
  induction 1 as [|c ls Hc _ IH]; simpl; [reflexivity|].
  rewrite length_app, IH, Hc. reflexivity.
Qed.

(** The [i]-th block of a concatenation of blocks of the same length. *)
Lemma block_of_concat (ls : list (list A)) k i c rest :
  Forall (fun c => length c = k) ls ->
  ls !! i = Some c ->
  take k (drop (i * k) (concat ls ++ rest)) = c.
Proof.
  intros Hall. revert i.
  induction Hall as [|c0 ls Hc0 _ IH]; intros i Hi; [discriminate|].
  destruct i as [|i]; simpl in *.
  - injection Hi as ->. rewrite <- app_assoc.
    rewrite drop_0, take_app_length' by (symmetry; assumption).
    reflexivity.
  - rewrite <- app_assoc.
    replace (k + i * k) with (length c0 + i * k) by lia.
    rewrite drop_app_add. apply IH. assumption.
Qed.

Lemma drop_past_concat (ls : list (list A)) k i rest :
  Forall (fun c => length c = k) ls ->
  length ls <= i ->
  drop (i * k) (concat ls ++ rest) = drop ((i - length ls) * k) rest.
Proof.
  intros Hall. revert i.
  induction Hall as [|c0 ls Hc0 _ IH]; intros i Hi; simpl in *.
  - rewrite Nat.sub_0_r. reflexivity.
  - destruct i as [|i]; [lia|]. simpl. rewrite <- app_assoc.
    replace (k + i * k) with (length c0 + i * k) by lia.
    rewrite drop_app_add. apply IH. lia.
Qed.

Lemma block_of_replicate n k i v :
  i < n -> take k (drop (i * k) (replicate (n * k) v)) = replicate k v.
Proof.
  intros Hi. rewrite drop_replicate, take_replicate. f_equal. nia.
Qed.

(** *** Indexing *)

Lemma in_box_cons_inv n sh i idx :
  in_box (n :: sh) (i :: idx) <-> i < n /\ in_box sh idx.
Proof.
  unfold in_box. split.
  - intros H. apply Forall2_cons in H. exact H.
  - intros [? ?]. constructor; assumption.
Qed.

Lemma item_replicate sh idx v :
  in_box sh idx -> item sh idx (replicate (size_of sh) v) = Some v.
Proof.
  revert idx. induction sh as [|n sh IH]; intros idx Hbox.
  - apply Forall2_nil_inv_r in Hbox as ->. reflexivity.
  - destruct idx as [|i idx]; [inversion Hbox|].
    apply in_box_cons_inv in Hbox as [Hi Hbox]. simpl.
    destruct (Nat.ltb_spec i n) as [_|?]; [|lia].
    rewrite block_of_replicate by assumption. apply IH, Hbox.
Qed.

(** *** Padding at the high end *)

Lemma padded_shape_high sh after :
  padded_shape sh (high_pad after) = zip_with Nat.add sh after.
Proof.
  revert after. induction sh as [|n sh IH]; intros [|d after]; simpl;
    try reflexivity.
  unfold padded_shape in *. simpl. rewrite IH. reflexivity.
Qed.

Lemma length_pad_axes sh pw v l :
  length pw = length sh ->
  length l = size_of sh ->
  length (pad_axes sh pw v l) = size_of (padded_shape sh pw).
Proof.
  revert pw l. induction sh as [|n sh IH]; intros pw l Hpw Hl.
  - destruct pw; [|discriminate]. exact Hl.
  - destruct pw as [|[b d] pw]; [discriminate|]. simpl in *.
    injection Hpw as Hpw.
    rewrite !length_app, !length_replicate.
    assert (Hblocks : Forall (fun c => length c = size_of (padded_shape sh pw))
                        (map (pad_axes sh pw v) (chunks n (size_of sh) l))).
    { apply Forall_map. eapply Forall_impl; [apply chunks_uniform, Hl|].
      intros c Hc. simpl. apply IH; assumption. }
    rewrite (length_concat_uniform _ _ Hblocks), length_map, length_chunks.
    unfold padded_shape at 3. simpl. fold (padded_shape sh pw). lia.
Qed.

Lemma pad_axes_cons n sh (w : nat * nat) pw v l :
  pad_axes (n :: sh) (w :: pw) v l
  = replicate (w.1 * size_of (padded_shape sh pw)) v
    ++ concat (map (pad_axes sh pw v) (chunks n (size_of sh) l))
    ++ replicate (w.2 * size_of (padded_shape sh pw)) v.
Proof. reflexivity. Qed.

Lemma item_cons n sh i idx l :
  item (n :: sh) (i :: idx) l
  = if i <? n
    then item sh idx (take (size_of sh) (drop (i * size_of sh) l))
    else None.
Proof. reflexivity. Qed.

(** Padding at the high end keeps every element at its index and puts the
    constant everywhere else. *)
Lemma item_pad_high sh after idx l v :
  length after = length sh ->
  length l = size_of sh ->
  in_box (zip_with Nat.add sh after) idx ->
  (in_box sh idx ->
   item (padded_shape sh (high_pad after)) idx
        (pad_axes sh (high_pad after) v l) = item sh idx l) /\
  (~ in_box sh idx ->
   item (padded_shape sh (high_pad after)) idx
        (pad_axes sh (high_pad after) v l) = Some v).
Proof.
  revert after idx l.
  induction sh as [|n sh IH]; intros after idx l Hafter Hl Hbox.
  - destruct after; [|discriminate].
    apply Forall2_nil_inv_r in Hbox as ->. split; [reflexivity|].
    intros Hout. exfalso. apply Hout. constructor.
  - destruct after as [|d after]; [discriminate|].
    injection Hafter as Hafter.
    destruct idx as [|i idx]; [inversion Hbox|].
    simpl zip_with in Hbox. apply in_box_cons_inv in Hbox as [Hi Hbox].
    change (high_pad (d :: after)) with ((0, d) :: high_pad after).
    rewrite pad_axes_cons. cbn [fst snd].
    change (padded_shape (n :: sh) ((0, d) :: high_pad after))
      with ((0 + n + d) :: padded_shape sh (high_pad after)).
    rewrite item_cons. cbn [Nat.mul replicate app].
    set (B := size_of (padded_shape sh (high_pad after))).
    set (blocks := map (pad_axes sh (high_pad after) v)
                       (chunks n (size_of sh) l)).
    assert (Hchunks : Forall (fun c => length c = size_of sh)
                        (chunks n (size_of sh) l))
      by (apply chunks_uniform; exact Hl).
    assert (Hblocks : Forall (fun c => length c = B) blocks).
    { apply Forall_map. eapply Forall_impl; [exact Hchunks|].
      intros c Hc. simpl. apply length_pad_axes; [|assumption].
      unfold high_pad. rewrite length_map. assumption. }
    destruct (Nat.ltb_spec i (0 + n + d)) as [_|?]; [|lia].
    destruct (lt_dec i n) as [Hin|Hout].
    + assert (Hc : chunks n (size_of sh) l !! i
                   = Some (take (size_of sh) (drop (i * size_of sh) l)))
        by (apply chunks_lookup; assumption).
      assert (Hb : blocks !! i
                   = Some (pad_axes sh (high_pad after) v
                             (take (size_of sh) (drop (i * size_of sh) l)))).
      { unfold blocks. rewrite list_lookup_fmap, Hc. reflexivity. }
      rewrite (block_of_concat blocks B i _ _ Hblocks Hb).
      assert (Hlc : length (take (size_of sh) (drop (i * size_of sh) l))
                    = size_of sh).
      { eapply Forall_lookup_1 in Hchunks; [|exact Hc]. exact Hchunks. }
      destruct (IH after idx _ Hafter Hlc Hbox) as [IHin IHout].
      split.
      * intros Hfull. apply in_box_cons_inv in Hfull as [_ Hfull].
        rewrite item_cons.
        destruct (Nat.ltb_spec i n) as [_|?]; [|lia]. apply IHin, Hfull.
      * intros Hnot. apply IHout. intros Hfull. apply Hnot.
        apply in_box_cons_inv. auto.
    + assert (Hnb : length blocks = n)
        by (unfold blocks; rewrite length_map; apply length_chunks).
      rewrite (drop_past_concat blocks B i _ Hblocks) by lia.
      rewrite Hnb, block_of_replicate by lia.
      split.
      * intros Hfull. apply in_box_cons_inv in Hfull as [? _]. lia.
      * intros _. unfold B. apply item_replicate.
        rewrite padded_shape_high. exact Hbox.
Qed.

(** Zero widths pad nothing. *)
Lemma pad_axes_zero sh after v l :
  length after = length sh ->
  Forall (fun d => d = 0) after ->
  length l = size_of sh ->
  padded_shape sh (high_pad after) = sh /\
  pad_axes sh (high_pad after) v l = l.
Proof.
  revert after l. induction sh as [|n sh IH]; intros after l Hafter Hz Hl.
  - destruct after; [|discriminate]. split; reflexivity.
  - destruct after as [|d after]; [discriminate|].
    injection Hafter as Hafter.
    apply Forall_cons in Hz as [-> Hz].
    change (high_pad (0 :: after)) with ((0, 0) :: high_pad after).
    rewrite pad_axes_cons. cbn [fst snd Nat.mul replicate app].
    rewrite app_nil_r.
    assert (Hsh : padded_shape sh (high_pad after) = sh).
    { destruct (IH after (replicate (size_of sh) v) Hafter Hz) as [H _];
        [apply length_replicate|exact H]. }
    split.
    + change (padded_shape (n :: sh) ((0, 0) :: high_pad after))
        with ((0 + n + 0) :: padded_shape sh (high_pad after)).
      rewrite Hsh. f_equal. lia.
    + rewrite <- (concat_chunks n (size_of sh) l Hl) at 2. f_equal.
      rewrite <- (map_id (chunks n (size_of sh) l)) at 2.
      apply Forall_fmap_ext_1.
      eapply Forall_impl; [apply chunks_uniform, Hl|].
      intros c Hc. simpl. apply (IH after c Hafter Hz Hc).
Qed.

Lemma item_in_box sh idx l :
  length l = size_of sh -> in_box sh idx -> is_Some (item sh idx l).
Proof.
  revert idx l. induction sh as [|n sh IH]; intros idx l Hl Hbox.
  - apply Forall2_nil_inv_r in Hbox as ->.
    destruct l; [discriminate|]. simpl. eauto.
  - destruct idx as [|i idx]; [inversion Hbox|].
    apply in_box_cons_inv in Hbox as [Hi Hbox]. rewrite item_cons.
    destruct (Nat.ltb_spec i n) as [_|?]; [|lia].
    apply IH; [|assumption].
    pose proof (chunks_uniform n (size_of sh) l Hl) as Hall.
    eapply Forall_lookup_1 in Hall; [|apply chunks_lookup; eassumption].
    exact Hall.
Qed.

(** *** The arithmetic on shapes *)

Lemma np_sub_same_length (xs ys : list Z) :
  xs ≠ [] -> length xs = length ys ->
  np_sub (np_array xs) (np_array ys) = Ok (Vector Int (zip_with Z.sub xs ys)).
Proof.
  intros Hne Hlen. unfold np_sub, np_array. cbn [v_vals v_dtype].
  rewrite Hlen, Nat.eqb_refl.
  destruct xs; [contradiction|]. destruct ys; [discriminate|]. reflexivity.
Qed.

Lemma zip_zeros (ds : list Z) :
  zip (map (fun _ => 0%Z) ds) ds = map (fun d => (0%Z, d)) ds.
Proof. induction ds as [|d ds IH]; simpl; [reflexivity|]. rewrite IH. reflexivity. Qed.

Lemma forallb_high (ds : list Z) :
  Forall (fun d => (0 <= d)%Z) ds ->
  forallb (fun w : Z * Z => (0 <=? w.1)%Z && (0 <=? w.2)%Z)
          (map (fun d => (0%Z, d)) ds) = true.
Proof.
  induction 1 as [|d ds Hd _ IH]; simpl; [reflexivity|].
  rewrite IH. destruct (Z.leb_spec 0 d); [reflexivity|lia].
Qed.

Lemma to_nat_high (ds : list Z) :
  map (fun w : Z * Z => (Z.to_nat w.1, Z.to_nat w.2))
      (map (fun d => (0%Z, d)) ds)
  = high_pad (map Z.to_nat ds).
Proof.
  unfold high_pad. rewrite !map_map. apply map_ext. intros d. reflexivity.
Qed.

Lemma np_pad_high a (ds : list Z) v :
  ds ≠ [] ->
  length ds = length (shape a) ->
  Forall (fun d => (0 <= d)%Z) ds ->
  np_pad a (Pairs Int (map (fun d => (0%Z, d)) ds)) v
  = Ok (NdArray (padded_shape (shape a) (high_pad (map Z.to_nat ds)))
                (pad_axes (shape a) (high_pad (map Z.to_nat ds)) v (elems a))).
Proof.
  intros Hne Hlen Hpos. unfold np_pad. cbn [p_dtype p_rows].
  rewrite forallb_high by assumption.
  destruct ds as [|d [|d' ds]]; [contradiction| |].
  - simpl in Hlen. rewrite <- Hlen. reflexivity.
  - cbn [map]. cbn [map] in Hlen.
    replace (length ((0%Z, d) :: (0%Z, d') :: map (fun d0 => (0%Z, d0)) ds)
             =? length (shape a)) with true.
    + cbn [mbind result_bind].
      change ((0%Z, d) :: (0%Z, d') :: map (fun d0 => (0%Z, d0)) ds)
        with (map (fun d0 => (0%Z, d0)) (d :: d' :: ds)).
      change (Z.to_nat d :: Z.to_nat d' :: map Z.to_nat ds)
        with (map Z.to_nat (d :: d' :: ds)).
      rewrite to_nat_high. reflexivity.
    + symmetry. apply Nat.eqb_eq. rewrite <- Hlen. simpl.
      rewrite !length_map. reflexivity.
Qed.

Lemma differences_spec sh (target : list Z) :
  Forall2 (fun n t => (Z.of_nat n <= t)%Z) sh target ->
  length (differences sh target) = length sh /\
  Forall (fun d => (0 <= d)%Z) (differences sh target) /\
  zip_with Nat.add sh (map Z.to_nat (differences sh target))
  = map Z.to_nat target.
Proof.
  unfold differences.
  induction 1 as [|n t sh target Hnt _ (IHlen & IHpos & IHsum)]; simpl.
  - auto.
  - rewrite IHlen, IHsum. split; [reflexivity|]. split.
    + constructor; [lia|assumption].
    + f_equal. lia.
Qed.

(** With a target of the same rank that is nowhere smaller, [pad_data]
    returns the array padded at the high end of every axis. *)
Lemma pad_data_same_rank a (target : list Z) v :
  shape a ≠ [] ->
  Forall2 (fun n t => (Z.of_nat n <= t)%Z) (shape a) target ->
  pad_data a target v
  = Ok (NdArray
          (padded_shape (shape a)
             (high_pad (map Z.to_nat (differences (shape a) target))))
          (pad_axes (shape a)
             (high_pad (map Z.to_nat (differences (shape a) target)))
             v (elems a))).
Proof.
  intros Hrank Hge. unfold pad_data.
  pose proof (Forall2_length _ _ _ Hge) as Hlen.
  destruct (differences_spec _ _ Hge) as (Hdl & Hpos & _).
  rewrite np_sub_same_length.
  - cbn [mbind result_bind]. unfold np_stack_T, np_zeros_like.
    cbn [v_dtype v_vals promote]. rewrite zip_zeros.
    apply np_pad_high; try assumption.
    intros Hnil. rewrite Hnil in Hdl.
    destruct (shape a); [contradiction|discriminate].
  - destruct target; [|discriminate].
    destruct (shape a); [contradiction|discriminate].
  - rewrite length_map. symmetry. exact Hlen.
Qed.

(** A target of another rank is refused, unless it has a single entry. *)
Lemma pad_data_rank_mismatch a (target : list Z) v :
  length target ≠ length (shape a) ->
  length target ≠ 1 ->
  is_ok (pad_data a target v) = false.
Proof.
  intros Hne Hone. destruct a as [sh l]. cbn [shape] in Hne.
  unfold pad_data, np_sub, np_array. cbn [v_vals v_dtype shape].
  rewrite length_map.
  destruct (Nat.eqb_spec (length target) (length sh)) as [?|_];
    [contradiction|].
  destruct target as [|t [|t' target]]; [| simpl in Hone; lia |];
    destruct sh as [|n [|n' sh]]; try reflexivity.
  cbn [map mbind result_bind np_stack_T np_zeros_like v_dtype v_vals
       promote zip zip_with].
  unfold np_pad. cbn [p_dtype p_rows shape length].
  destruct (forallb _ _); reflexivity.
Qed.

(** For an array of rank one or more, padding to the array's own shape
    returns the array. *)
Lemma pad_data_identity a v :
  wf a -> shape a ≠ [] ->
  pad_data a (map Z.of_nat (shape a)) v = Ok a.
Proof.
  intros Hwf Hrank.
  assert (Hge : Forall2 (fun n t => (Z.of_nat n <= t)%Z) (shape a)
                  (map Z.of_nat (shape a))).
  { apply Forall2_fmap_r, Forall_Forall2_diag, Forall_forall.
    intros n _. simpl. lia. }
  rewrite (pad_data_same_rank a _ v Hrank Hge).
  destruct (differences_spec _ _ Hge) as (Hlen & _ & _).
  assert (Hzero : Forall (fun d => d = 0)
                    (map Z.to_nat (differences (shape a) (map Z.of_nat (shape a))))).
  { unfold differences. clear. induction (shape a) as [|n sh IH]; simpl;
      constructor; [lia|assumption]. }
  destruct (pad_axes_zero (shape a) _ v (elems a)
              ltac:(rewrite length_map; exact Hlen) Hzero Hwf) as [-> ->].
  destruct a. reflexivity.
Qed.

End Facts.

(** C8. (1) Padding [[1, 1]] to [(3, 3)] with [-2] gives
    [[1, 1, -2], [-2, -2, -2], [-2, -2, -2]].  (2) For every array of rank
    one or more and every target of the same rank that is nowhere smaller,
    [pad_data] returns an array of the target shape in which every index of
    the original array holds the original element and every other index holds
    the pad value.  (3) A target of another rank makes [pad_data] raise,
    unless the target has exactly one entry. *)
Theorem pad_data_high_end :
  pad_data ones_1x2 [3; 3]%Z (-2)%Z
  = Ok (NdArray [3; 3] [1; 1; -2; -2; -2; -2; -2; -2; -2]%Z) /\
  (forall (A : Type) (a : ndarray A) (target : list Z) (v : A),
      wf a -> shape a <> [] ->
      Forall2 (fun n t => (Z.of_nat n <= t)%Z) (shape a) target ->
      exists b,
        pad_data a target v = Ok b /\
        wf b /\
        map Z.of_nat (shape b) = target /\
        forall idx, in_box (shape b) idx ->
          (in_box (shape a) idx ->
           exists x, getitem a idx = Some x /\ getitem b idx = Some x) /\
          (~ in_box (shape a) idx -> getitem b idx = Some v)) /\
  (forall (A : Type) (a : ndarray A) (target : list Z) (v : A),
      length target <> length (shape a) ->
      length target <> 1 ->
      exists e, pad_data a target v = Raise e).
Proof.
  split; [vm_compute; reflexivity|]. split.
  - intros A a target v Hwf Hrank Hge.
    rewrite (pad_data_same_rank a target v Hrank Hge).
    destruct (differences_spec _ _ Hge) as (Hlen & Hpos & Hsum).
    set (after := map Z.to_nat (differences (shape a) target)) in *.
    assert (Hafter : length after = length (shape a))
      by (unfold after; rewrite length_map; exact Hlen).
    eexists. split; [reflexivity|]. cbn [shape elems].
    split.
    { unfold wf. cbn [shape elems]. apply length_pad_axes; [|exact Hwf].
      unfold high_pad. rewrite length_map. exact Hafter. }
    rewrite padded_shape_high, Hsum.
    split.
    { rewrite <- list_fmap_compose. rewrite <- (list_fmap_id target) at 2.
      apply Forall_fmap_ext_1.
      apply Forall2_Forall_r with (Q := fun t => (0 <= t)%Z) in Hge.
      - eapply Forall_impl; [exact Hge|]. intros t Ht.
        cbv beta in Ht. cbv [compose id]. lia.
      - apply Forall_forall. intros n _ t Hnt. lia. }
    intros idx Hbox. cbn [shape] in Hbox. rewrite <- Hsum in Hbox.
    unfold getitem. cbn [shape elems].
    rewrite <- Hsum, <- (padded_shape_high (shape a) after).
    destruct (item_pad_high (shape a) after idx (elems a) v Hafter Hwf Hbox)
      as [Hin Hout].
    split.
    + intros Ha. destruct (item_in_box (shape a) idx (elems a) Hwf Ha) as [x Hx].
      exists x. split; [exact Hx|]. rewrite Hin by assumption. exact Hx.
    + exact Hout.
  - intros A a target v Hne Hone.
    pose proof (pad_data_rank_mismatch a target v Hne Hone) as Hfail.
    destruct (pad_data a target v) as [b|e]; [discriminate|]. eauto.
Qed.

(** The 2x2 array [[1, 2], [3, 4]] padded to [(3, 4)] with [0] keeps [3] at
    index [(1, 0)] and has [0] at index [(2, 3)]; the target [(3, 3, 3)] is
    refused for [[1, 1]]. *)
Lemma pad_data_high_end_witness :
  (exists b,
      pad_data grid_2x2 [3; 4]%Z 0%Z = Ok b /\
      getitem b [1; 0] = Some 3%Z /\
      getitem b [2; 3] = Some 0%Z) /\
  (exists e, pad_data ones_1x2 [3; 3; 3]%Z (-2)%Z = Raise e).
Proof.
  destruct pad_data_high_end as (_ & Hpad & Hrank).
  split.
  - destruct (Hpad Z grid_2x2 [3; 4]%Z 0%Z) as (b & Hb & _ & Hshape & Hidx).
    + vm_compute. reflexivity.
    + discriminate.
    + repeat constructor; vm_compute; discriminate.
    + assert (Hsh : shape b = [3; 4]).
      { destruct (shape b) as [|n1 [|n2 [|n3 sh]]]; try discriminate.
        injection Hshape as H1 H2. f_equal; [lia|f_equal; lia]. }
      exists b. split; [exact Hb|]. split.
      * destruct (Hidx [1; 0]) as [Hin _].
        { rewrite Hsh. repeat constructor. }
        destruct Hin as (x & Hx & Hbx); [repeat constructor|].
        vm_compute in Hx. injection Hx as <-. exact Hbx.
      * destruct (Hidx [2; 3]) as [_ Hout].
        { rewrite Hsh. repeat constructor. }
        apply Hout. intros Hbox. apply in_box_cons_inv in Hbox as [Hlt _].
        vm_compute in Hlt. lia.
  - apply Hrank; vm_compute; discriminate.
Defined.

(** A target with one entry is not refused for the rank-2 array [[1, 1]]:
    numpy stretches [(3,)] over both axes. *)
Lemma pad_data_one_entry_target :
  length [3%Z] <> length (shape ones_1x2) /\
  pad_data ones_1x2 [3%Z] (-2)%Z
  = Ok (NdArray [3; 3] [1; 1; -2; -2; -2; -2; -2; -2; -2]%Z).
Proof. split; [vm_compute; discriminate|vm_compute; reflexivity]. Qed.

(** C10. Padding an array to its own shape should return the array, but for
    an array of rank zero [pad_data] raises: the array of the empty shape has
    numpy's floating-point type, which [np.pad] refuses for the widths. *)
Theorem pad_data_scalar_raises :
  wf scalar_5 /\
  pad_data scalar_5 (map Z.of_nat (shape scalar_5)) 0%Z = Raise TypeError.
Proof. split; vm_compute; reflexivity. Qed.

(** *** Further properties of [pad_data] *)

Section MoreFacts.
Context {A : Type}.
Implicit Types (l : list A) (v : A) (sh idx target : list nat)
         (a b : ndarray A).

Lemma Forall2_of_nat sh target :
  Forall2 (fun n t => n <= t) sh target ->
  Forall2 (fun n t => (Z.of_nat n <= t)%Z) sh (map Z.of_nat target).
Proof.
  intros H. apply Forall2_fmap_r. eapply Forall2_impl; [exact H|].
  intros n t Hnt. cbv [compose]. cbv beta in Hnt. lia.
Qed.

Lemma to_nat_of_nat (target : list nat) :
  map Z.to_nat (map Z.of_nat target) = target.
Proof.
  induction target as [|t target IH]; [reflexivity|].
  cbn [map]. rewrite IH, Nat2Z.id. reflexivity.
Qed.

(** What [pad_data] returns for a target of the same rank that is nowhere
    smaller. *)
Lemma pad_data_result a target v :
  wf a -> shape a ≠ [] ->
  Forall2 (fun n t => n <= t) (shape a) target ->
  exists a', pad_data a (map Z.of_nat target) v = Ok a' /\ pads_to v target a a'.
Proof.
  intros Hwf Hrank Hle. apply Forall2_of_nat in Hle as Hge.
  rewrite (pad_data_same_rank a _ v Hrank Hge).
  destruct (differences_spec _ _ Hge) as (Hlen & Hpos & Hsum).
  rewrite to_nat_of_nat in Hsum.
  set (after := map Z.to_nat (differences (shape a) (map Z.of_nat target))) in *.
  assert (Hafter : length after = length (shape a))
    by (unfold after; rewrite length_map; exact Hlen).
  eexists. split; [reflexivity|]. unfold pads_to. cbn [shape elems].
  split.
  { unfold wf. cbn [shape elems]. apply length_pad_axes; [|exact Hwf].
    unfold high_pad. rewrite length_map. exact Hafter. }
  rewrite padded_shape_high, Hsum. split; [reflexivity|].
  intros idx Hbox. rewrite <- Hsum in Hbox. unfold getitem.
  cbn [shape elems]. rewrite <- Hsum, <- (padded_shape_high (shape a) after).
  destruct (item_pad_high (shape a) after idx (elems a) v Hafter Hwf Hbox)
    as [Hin Hout].
  split.
  - intros Ha. destruct (item_in_box (shape a) idx (elems a) Hwf Ha) as [x Hx].
    exists x. split; [exact Hx|]. rewrite Hin by assumption. exact Hx.
  - exact Hout.
Qed.

(** A well-formed array is itself padded to its own shape. *)
Lemma pads_to_refl a v : wf a -> pads_to v (shape a) a a.
Proof.
  intros Hwf. split; [exact Hwf|]. split; [reflexivity|].
  intros idx Hbox. split; [|contradiction].
  intros _. destruct (item_in_box (shape a) idx (elems a) Hwf Hbox) as [x Hx].
  exists x. split; exact Hx.
Qed.

End MoreFacts.

(** X14. Padding an array of rank one or more to its own shape returns the
    array itself. *)
Theorem pad_data_own_shape (A : Type) (a : ndarray A) (v : A) :
  wf a -> shape a <> [] ->
  pad_data a (map Z.of_nat (shape a)) v = Ok a.
Proof. apply pad_data_identity. Qed.

Lemma pad_data_own_shape_witness :
  pad_data grid_2x2 [2; 2]%Z 9%Z = Ok grid_2x2.
Proof.
  apply (pad_data_own_shape Z grid_2x2 9%Z).
  - vm_compute. reflexivity.
  - discriminate.
Defined.

(** X15. A target of the array's rank that is smaller than the array along
    some axis makes [pad_data] raise [ValueError]: the padding would be
    negative. *)
Theorem pad_data_smaller_target (A : Type) (a : ndarray A) (target : list Z)
    (v : A) :
  shape a <> [] ->
  length target = length (shape a) ->
  Exists (fun d => (d < 0)%Z) (differences (shape a) target) ->
  pad_data a target v = Raise ValueError.
Proof.
  intros Hrank Hlen Hneg. unfold pad_data.
  rewrite np_sub_same_length.
  - cbn [mbind result_bind]. unfold np_stack_T, np_zeros_like.
    cbn [v_dtype v_vals promote]. rewrite zip_zeros.
    unfold np_pad. cbn [p_dtype p_rows]. fold (differences (shape a) target).
    replace (forallb _ _) with false; [reflexivity|].
    symmetry. apply not_true_is_false. intros Hall.
    rewrite forallb_forall in Hall. apply Exists_exists in Hneg as (d & Hd & Hlt).
    specialize (Hall (0%Z, d)). cbn [fst snd] in Hall.
    assert (Hin : In (0%Z, d) (map (fun d => (0%Z, d)) (differences (shape a) target))).
    { apply in_map. apply list_elem_of_In. exact Hd. }
    specialize (Hall Hin). apply andb_true_iff in Hall as [_ Hd0].
    apply Z.leb_le in Hd0. lia.
  - destruct target; [|discriminate].
    destruct (shape a); [contradiction|discriminate].
  - rewrite length_map. exact Hlen.
Qed.

Lemma pad_data_smaller_target_witness :
  pad_data (NdArray [3; 3] [1; 1; 1; 1; 1; 1; 1; 1; 1]%Z) [4; 1]%Z (-2)%Z
  = Raise ValueError.
Proof.
  apply pad_data_smaller_target.
  - discriminate.
  - reflexivity.
  - apply Exists_cons_tl, Exists_cons_hd. vm_compute. reflexivity.
Defined.

Lemma zip_with_sub_replicate (t : Z) (ys : list Z) :
  zip_with Z.sub (replicate (length ys) t) ys = map (fun y => (t - y)%Z) ys.
Proof.
  induction ys as [|y ys IH]; [reflexivity|].
  cbn [length replicate zip_with map]. rewrite IH. reflexivity.
Qed.

(** A target with one entry stands for that entry along every axis. *)
Lemma pad_data_stretch (A : Type) (a : ndarray A) (t : Z) (v : A) :
  shape a <> [] ->
  pad_data a [t] v = pad_data a (replicate (length (shape a)) t) v.
Proof.
  intros Hrank. destruct a as [sh l]. cbn [shape] in *.
  destruct sh as [|n [|n' sh]]; [contradiction | reflexivity |].
  unfold pad_data. f_equal. unfold np_sub, np_array.
  cbn [v_vals v_dtype shape].
  rewrite length_replicate, !length_map, Nat.eqb_refl.
  rewrite <- zip_with_sub_replicate, length_map. reflexivity.
Qed.

(** X27. A target shape with a single entry [t] is not refused: for an array
    of rank one or more whose sizes are all at most [t], [pad_data] pads
    every axis up to [t]. *)
Theorem pad_data_single_entry (A : Type) (a : ndarray A) (t : nat) (v : A) :
  wf a -> shape a <> [] ->
  Forall (fun n => n <= t) (shape a) ->
  exists a',
    pad_data a [Z.of_nat t] v = Ok a' /\
    pads_to v (replicate (length (shape a)) t) a a'.
Proof.
  intros Hwf Hrank Hle. rewrite (pad_data_stretch A a _ v Hrank).
  replace (replicate (length (shape a)) (Z.of_nat t))
    with (map Z.of_nat (replicate (length (shape a)) t)).
  - apply pad_data_result; [exact Hwf | exact Hrank |].
    clear Hwf Hrank. induction Hle as [|n sh Hn _ IH]; constructor; assumption.
  - clear. induction (length (shape a)) as [|r IH]; [reflexivity|].
    cbn [replicate map]. rewrite IH. reflexivity.
Qed.

Lemma pad_data_single_entry_witness :
  exists a',
    pad_data ones_1x2 [3%Z] (-2)%Z = Ok a' /\
    pads_to (-2)%Z [3; 3] ones_1x2 a'.
Proof.
  apply (pad_data_single_entry Z ones_1x2 3 (-2)%Z).
  - vm_compute. reflexivity.
  - discriminate.
  - repeat constructor.
Defined.

(** X28. A target shape whose number of entries is neither one nor the rank
    of the array is refused: [pad_data] raises [ValueError], or [TypeError]
    when the target is empty and the array has rank one. *)
Theorem pad_data_wrong_rank (A : Type) (a : ndarray A) (target : list Z)
    (v : A) :
  length target <> length (shape a) ->
  length target <> 1 ->
  pad_data a target v
  = Raise match target, shape a with
          | [], [_] => TypeError
          | _, _ => ValueError
          end.
Proof.
  intros Hne Hone. destruct a as [sh l]. cbn [shape] in *.
  unfold pad_data, np_sub, np_array. cbn [v_vals v_dtype shape].
  rewrite length_map.
  destruct (Nat.eqb_spec (length target) (length sh)) as [?|_];
    [contradiction|].
  destruct target as [|t [|t' target]]; [| simpl in Hone; lia |];
    destruct sh as [|n [|n' sh]]; try reflexivity;
    try (exfalso; apply Hne; reflexivity).
  cbn [map mbind result_bind np_stack_T np_zeros_like v_dtype v_vals
       promote zip zip_with].
  unfold np_pad. cbn [p_dtype p_rows shape length].
  destruct (forallb _ _); reflexivity.
Qed.

Lemma pad_data_wrong_rank_witness :
  pad_data grid_2x2 [3; 3; 3]%Z 0%Z = Raise ValueError.
Proof.
  apply (pad_data_wrong_rank Z grid_2x2 [3; 3; 3]%Z 0%Z).
  - vm_compute. lia.
  - vm_compute. lia.
Defined.

End PadSpec.

(** ** cpu_count *)

Module CpuCountSpec.
Import CpuCount.

Lemma int_of_two : py_int "2" = Ok 2.
Proof. reflexivity. Qed.

Lemma str_of_two : py_str 2 = "2"%string.
Proof. reflexivity. Qed.

(** *** [int(f"{n}")] gives [n] back *)

Lemma digit_of_digit (d : Z) :
  0 <= d <= 9 -> digit_of (ascii_of_nat (Z.to_nat (48 + d))) = Some d.
Proof.
  intros Hd.
  assert (Hcases : d = 0 \/ d = 1 \/ d = 2 \/ d = 3 \/ d = 4 \/ d = 5 \/
                   d = 6 \/ d = 7 \/ d = 8 \/ d = 9) by lia.
  repeat (destruct Hcases as [->|Hcases]; [reflexivity|]).
  subst d. reflexivity.
Qed.

Lemma digit_not_space (a : ascii) (d : Z) :
  digit_of a = Some d -> is_space a = false.
Proof.
  unfold digit_of, is_space. cbv zeta.
  destruct (Nat.leb_spec 48 (nat_of_ascii a)) as [Hlo|Hlo];
    [|discriminate].
  intros _. apply orb_false_iff. split; apply andb_false_iff; right;
    apply Nat.leb_gt; lia.
Qed.

Lemma lstrip_digits (s : string) : digits_only s = true -> lstrip s = s.
Proof.
  destruct s as [|a s]; [reflexivity|]. cbn [digits_only lstrip].
  destruct (digit_of a) as [d|] eqn:Hd; [|discriminate].
  rewrite (digit_not_space a d Hd). reflexivity.
Qed.

Lemma rstrip_digits (s : string) : digits_only s = true -> rstrip s = s.
Proof.
  induction s as [|a s IH]; [reflexivity|]. cbn [digits_only rstrip].
  destruct (digit_of a) as [d|] eqn:Hd; [|discriminate].
  intros Hs. rewrite (IH Hs). destruct s; [|reflexivity].
  rewrite (digit_not_space a d Hd). reflexivity.
Qed.

Lemma py_int_digits (s : string) :
  digits_only s = true ->
  py_int s = match parse_digits s 0 false with
             | Some n => Ok n
             | None => Raise ValueError
             end.
Proof.
  intros Hs. unfold py_int. rewrite (lstrip_digits s Hs), (rstrip_digits s Hs).
  destruct s as [|a s]; [reflexivity|]. cbn [digits_only] in Hs.
  destruct (digit_of a) as [d|] eqn:Hd; [|discriminate].
  destruct a as [[|] [|] [|] [|] [|] [|] [|] [|]];
    try reflexivity; cbv in Hd; discriminate Hd.
Qed.

Lemma digits_of_digits_only (fuel : nat) :
  forall (n : Z) (tail : string),
    0 <= n -> digits_only tail = true ->
    digits_only (digits_of fuel n tail) = true.
Proof.
  induction fuel as [|fuel IH]; intros n tail Hn Htail; [exact Htail|].
  cbn [digits_of].
  assert (Hd : 0 <= n mod 10 <= 9) by (pose proof (Z.mod_pos_bound n 10); lia).
  assert (Htail' : digits_only
                     (String (ascii_of_nat (Z.to_nat (48 + n mod 10))) tail)
                   = true).
  { cbn [digits_only]. rewrite (digit_of_digit _ Hd). exact Htail. }
  destruct (n / 10 =? 0); [exact Htail'|].
  apply IH; [apply Z.div_pos; lia | exact Htail'].
Qed.

Lemma parse_digits_of (fuel : nat) :
  forall (n : Z) (tail : string),
    0 < n -> n <= Z.of_nat fuel ->
    exists k : nat, forall acc b,
      parse_digits (digits_of fuel n tail) acc b
      = parse_digits tail (acc * 10 ^ Z.of_nat k + n) true.
Proof.
  induction fuel as [|fuel IH]; intros n tail Hpos Hfuel; [lia|].
  cbn [digits_of].
  assert (Hd : 0 <= n mod 10 <= 9) by (pose proof (Z.mod_pos_bound n 10); lia).
  pose proof (Z.div_mod n 10) as Hdm.
  destruct (Z.eqb_spec (n / 10) 0) as [Hsmall|Hbig].
  - exists 1%nat. intros acc b. cbn [parse_digits].
    rewrite (digit_of_digit _ Hd). f_equal. change (10 ^ Z.of_nat 1) with 10.
    lia.
  - assert (Hq : 0 < n / 10).
    { pose proof (Z.div_pos n 10). lia. }
    destruct (IH (n / 10)
                 (String (ascii_of_nat (Z.to_nat (48 + n mod 10))) tail) Hq)
      as [k Hk]; [lia|].
    exists (S k). intros acc b. rewrite Hk. cbn [parse_digits].
    rewrite (digit_of_digit _ Hd). f_equal.
    rewrite Nat2Z.inj_succ, Z.pow_succ_r by lia. lia.
Qed.

Lemma py_int_str (n : Z) : 1 <= n -> py_int (py_str n) = Ok n.
Proof.
  intros Hn. unfold py_str.
  destruct (Z.eqb_spec n 0); [lia|]. destruct (Z.ltb_spec n 0); [lia|].
  rewrite py_int_digits by (apply digits_of_digits_only; [lia | reflexivity]).
  destruct (parse_digits_of (Z.to_nat n) n EmptyString) as [k Hk]; [lia..|].
  rewrite Hk. cbn [parse_digits]. f_equal; lia.
Qed.

Lemma py_str_truthy (n : Z) : 1 <= n -> truthy (Some (py_str n)) = Some (py_str n).
Proof.
  intros Hn. pose proof (py_int_str n Hn) as Hint.
  destruct (py_str n); [discriminate Hint | reflexivity].
Qed.

Lemma py_int_raises (s : string) (e : exn) :
  py_int s = Raise e -> e = ValueError.
Proof.
  unfold py_int.
  destruct (match rstrip (lstrip s) with
            | String "+"%char r => parse_digits r 0 false
            | String "-"%char r => Z.opp <$> parse_digits r 0 false
            | r => parse_digits r 0 false
            end); intros H; [discriminate | congruence].
Qed.

(** *** The call that finds no cached decision *)

(** What [os.environ] holds after [cpu_count] has stored [value]. *)
Lemma stored_environ (value : string) (p : process) (key : string) :
  environ (set_thread_variables value p) !! key
  = if bool_decide (key ∈ thread_variables) then Some value
    else environ p !! key.
Proof.
  cbn [set_thread_variables environ].
  destruct (bool_decide_reflect (key ∈ thread_variables)) as [Hin|Hout].
  - unfold thread_variables in Hin.
    repeat (apply elem_of_cons in Hin as [->|Hin];
            [rewrite ?lookup_insert_ne by discriminate;
             apply lookup_insert_eq|]).
    inversion Hin.
  - rewrite !lookup_insert_ne; [reflexivity|..];
      intros <-; apply Hout; unfold thread_variables;
      repeat (first [left; reflexivity | right]).
Qed.

(** The state a successful uncached call leaves behind. *)
Lemma cpu_count_uncached (cores limit : option Z) (p p' : process) (n : Z) :
  truthy (environ p !! "FE_NUM_THREADS_") = None ->
  cpu_count cores limit p = (Ok n, p') ->
  exists env_limit c,
    env_limit_of p = Ok env_limit /\
    cores = Some c /\
    n = Z.min (Z.min c (or_else limit c)) (or_else env_limit c) /\
    1 <= n /\
    interop_free p /\
    p' = Process (environ (set_thread_variables (py_str n) p))
                 (Some n) (Some n) false.
Proof.
  unfold cpu_count. intros Hnone Hrun. rewrite Hnone in Hrun.
  destruct (env_limit_of p) as [env_limit|]; [|discriminate].
  destruct cores as [c|]; [|discriminate].
  exists env_limit, c. split; [reflexivity|]. split; [reflexivity|].
  destruct (Z.ltb_spec (Z.min (Z.min c (or_else limit c))
                              (or_else env_limit c)) 1) as [Hlt|Hge];
    [discriminate|].
  unfold set_num_interop_threads in Hrun.
  cbn [set_num_threads set_thread_variables torch_num_interop_threads
       torch_parallel_started torch_num_threads environ] in Hrun.
  destruct (torch_num_interop_threads p) eqn:Hset; [discriminate|].
  destruct (torch_parallel_started p) eqn:Hstarted; [discriminate|].
  injection Hrun as <- <-. unfold interop_free. auto.
Qed.

(** An uncached call that passes the checks succeeds when torch can still
    take the inter-op count. *)
Lemma cpu_count_fresh (c : Z) (limit env_limit : option Z) (p : process) :
  truthy (environ p !! "FE_NUM_THREADS_") = None ->
  env_limit_of p = Ok env_limit ->
  1 <= Z.min (Z.min c (or_else limit c)) (or_else env_limit c) ->
  interop_free p ->
  cpu_count (Some c) limit p
  = (Ok (Z.min (Z.min c (or_else limit c)) (or_else env_limit c)),
     Process (environ (set_thread_variables
                         (py_str (Z.min (Z.min c (or_else limit c))
                                        (or_else env_limit c))) p))
             (Some (Z.min (Z.min c (or_else limit c)) (or_else env_limit c)))
             (Some (Z.min (Z.min c (or_else limit c)) (or_else env_limit c)))
             false).
Proof.
  intros Hnone Henv Hn [Hset Hstarted]. unfold cpu_count.
  rewrite Hnone, Henv.
  destruct (Z.ltb_spec (Z.min (Z.min c (or_else limit c))
                              (or_else env_limit c)) 1) as [?|_]; [lia|].
  unfold set_num_interop_threads.
  cbn [set_num_threads set_thread_variables torch_num_interop_threads
       torch_parallel_started torch_num_threads environ].
  rewrite Hset, Hstarted. reflexivity.
Qed.

(** An uncached call that passes the checks when torch refuses the
    inter-op count: the environment and the intra-op count are written, then
    [RuntimeError] is raised. *)
Lemma cpu_count_refused (c : Z) (limit env_limit : option Z) (p : process) :
  truthy (environ p !! "FE_NUM_THREADS_") = None ->
  env_limit_of p = Ok env_limit ->
  1 <= Z.min (Z.min c (or_else limit c)) (or_else env_limit c) ->
  ~ interop_free p ->
  cpu_count (Some c) limit p
  = (Raise RuntimeError,
     set_num_threads (Z.min (Z.min c (or_else limit c)) (or_else env_limit c))
       (set_thread_variables
          (py_str (Z.min (Z.min c (or_else limit c)) (or_else env_limit c)))
          p)).
Proof.
  intros Hnone Henv Hn Hbusy. unfold cpu_count. rewrite Hnone, Henv.
  destruct (Z.ltb_spec (Z.min (Z.min c (or_else limit c))
                              (or_else env_limit c)) 1) as [?|_]; [lia|].
  unfold set_num_interop_threads.
  cbn [set_num_threads set_thread_variables torch_num_interop_threads
       torch_parallel_started torch_num_threads environ].
  destruct (torch_num_interop_threads p) eqn:Hset; [reflexivity|].
  destruct (torch_parallel_started p) eqn:Hstarted; [reflexivity|].
  exfalso. apply Hbusy. split; assumption.
Qed.

(** A call that finds the decision [n] in [FE_NUM_THREADS_]. *)
Lemma cpu_count_cached (cores limit : option Z) (p : process) (n : Z) :
  environ p !! "FE_NUM_THREADS_" = Some (py_str n) ->
  1 <= n ->
  cpu_count cores limit p
  = (match limit with
     | Some l => if (l =? 0) || (l =? n) then Ok n else Raise ValueError
     | None => Ok n
     end, p).
Proof.
  intros Hcache Hn. unfold cpu_count.
  rewrite Hcache, (py_str_truthy n Hn), (py_int_str n Hn).
  destruct limit as [l|]; [|reflexivity].
  destruct (l =? 0), (l =? n); reflexivity.
Qed.

(** C9. With at least two cores, neither [FE_NUM_THREADS_] nor
    [FE_NUM_THREADS] set, and torch still free to take an inter-op thread
    count, [cpu_count(limit=2)] returns 2 and caches it: it stores "2" in the
    five thread variables, leaves the other variables alone and sets both
    thread counts of torch to 2.  A second [cpu_count(limit=2)] returns 2
    from the cache and changes nothing; [cpu_count(limit=4)] then raises
    [ValueError] and changes nothing.  The later calls do not depend on the
    number of cores they would find. *)
Theorem cpu_count_limit_cached (cores : Z) (cores' cores'' : option Z)
    (p : process) :
  2 <= cores ->
  environ p !! "FE_NUM_THREADS_" = None ->
  environ p !! "FE_NUM_THREADS" = None ->
  interop_free p ->
  exists p',
    cpu_count (Some cores) (Some 2) p = (Ok 2, p') /\
    (forall key, key ∈ thread_variables ->
                 environ p' !! key = Some "2"%string) /\
    (forall key, key ∉ thread_variables ->
                 environ p' !! key = environ p !! key) /\
    torch_num_threads p' = Some 2 /\
    torch_num_interop_threads p' = Some 2 /\
    cpu_count cores' (Some 2) p' = (Ok 2, p') /\
    cpu_count cores'' (Some 4) p' = (Raise ValueError, p').
Proof.
  intros Hcores Hcache Henv Hfree.
  assert (Henv' : env_limit_of p = Ok None).
  { unfold env_limit_of. rewrite Henv. reflexivity. }
  assert (Hmin : Z.min (Z.min cores (or_else (Some 2) cores))
                       (or_else None cores) = 2).
  { cbn [or_else]. change (2 =? 0) with false. cbv iota. lia. }
  pose proof (cpu_count_fresh cores (Some 2) None p) as Hfirst.
  rewrite Hmin in Hfirst. rewrite Hfirst;
    [|rewrite Hcache; reflexivity|exact Henv'|lia|exact Hfree].
  eexists. split; [reflexivity|]. cbn [environ].
  assert (Hstored : forall key, key ∈ thread_variables ->
            environ (set_thread_variables (py_str 2) p) !! key
            = Some "2"%string).
  { intros key Hkey. rewrite stored_environ.
    rewrite bool_decide_eq_true_2 by exact Hkey. reflexivity. }
  split; [exact Hstored|]. split.
  { intros key Hkey. rewrite stored_environ.
    rewrite bool_decide_eq_false_2 by exact Hkey. reflexivity. }
  split; [reflexivity|]. split; [reflexivity|].
  assert (Hkey : "FE_NUM_THREADS_" ∈ thread_variables) by left.
  split.
  - rewrite (cpu_count_cached cores' (Some 2) _ 2); [reflexivity| |lia].
    cbn [environ]. exact (Hstored _ Hkey).
  - rewrite (cpu_count_cached cores'' (Some 4) _ 2); [reflexivity| |lia].
    cbn [environ]. exact (Hstored _ Hkey).
Qed.

Lemma cpu_count_limit_cached_witness :
  exists p',
    cpu_count (Some 8) (Some 2) fresh_process = (Ok 2, p') /\
    (forall key, key ∈ thread_variables ->
                 environ p' !! key = Some "2"%string) /\
    (forall key, key ∉ thread_variables ->
                 environ p' !! key = environ fresh_process !! key) /\
    torch_num_threads p' = Some 2 /\
    torch_num_interop_threads p' = Some 2 /\
    cpu_count (Some 8) (Some 2) p' = (Ok 2, p') /\
    cpu_count (Some 8) (Some 4) p' = (Raise ValueError, p').
Proof.
  apply (cpu_count_limit_cached 8 (Some 8) (Some 8) fresh_process).
  - lia.
  - reflexivity.
  - reflexivity.
  - split; reflexivity.
Defined.

(** In a process with eight cores and no thread limits in the environment
    where torch's inter-op thread count was set before, the first
    [cpu_count(limit=2)] does not return 2: it raises [RuntimeError]. *)
Lemma cpu_count_torch_already_set :
  environ torch_set_process !! "FE_NUM_THREADS_" = None /\
  environ torch_set_process !! "FE_NUM_THREADS" = None /\
  (cpu_count (Some 8) (Some 2) torch_set_process).1 = Raise RuntimeError.
Proof. repeat split. Qed.

(** X22. A call of [cpu_count] that finds no cached decision and returns [n]
    knew the number of cores and has [1 <= n <= cores]; [n] is no more than a
    non-zero [limit], and no more than a non-zero [FE_NUM_THREADS]; the call
    stores [n] in the five thread variables and in both torch settings, and
    leaves every other environment variable as it was. *)
Theorem cpu_count_result_bounds (cores limit : option Z) (p p' : process)
    (n : Z) :
  truthy (environ p !! "FE_NUM_THREADS_") = None ->
  cpu_count cores limit p = (Ok n, p') ->
  (exists c, cores = Some c /\ 1 <= n <= c) /\
  (forall l, limit = Some l -> l <> 0 -> n <= l) /\
  (forall s k, environ p !! "FE_NUM_THREADS" = Some s ->
               py_int s = Ok k -> k <> 0 -> n <= k) /\
  torch_num_threads p' = Some n /\
  torch_num_interop_threads p' = Some n /\
  (forall key, key ∈ thread_variables ->
               environ p' !! key = Some (py_str n)) /\
  (forall key, key ∉ thread_variables ->
               environ p' !! key = environ p !! key).
Proof.
  intros Hnone Hrun.
  destruct (cpu_count_uncached cores limit p p' n Hnone Hrun)
    as (env_limit & c & Henv & -> & Hn & Hpos & _ & ->).
  split; [exists c; split; [reflexivity | lia]|]. split; [|split].
  - intros l -> Hl. cbn [or_else] in Hn.
    destruct (Z.eqb_spec l 0); [contradiction | lia].
  - intros s k Hs Hint Hk. unfold env_limit_of in Henv. rewrite Hs in Henv.
    destruct s as [|a s]; [discriminate Hint|]. cbn [truthy] in Henv.
    rewrite Hint in Henv. injection Henv as <-. cbn [or_else] in Hn.
    destruct (Z.eqb_spec k 0); [contradiction | lia].
  - cbn [torch_num_threads torch_num_interop_threads environ].
    split; [reflexivity|]. split; [reflexivity|].
    split; intros key Hkey; rewrite stored_environ.
    + rewrite bool_decide_eq_true_2 by exact Hkey. reflexivity.
    + rewrite bool_decide_eq_false_2 by exact Hkey. reflexivity.
Qed.

Lemma cpu_count_result_bounds_witness :
  (exists c, Some 8 = Some c /\ 1 <= 2 <= c) /\
  (forall l, Some 2 = Some l -> l <> 0 -> 2 <= l) /\
  (forall s k, environ fresh_process !! "FE_NUM_THREADS" = Some s ->
               py_int s = Ok k -> k <> 0 -> 2 <= k) /\
  torch_num_threads
    (Process (list_to_map (map (fun key => (key, "2"%string)) thread_variables))
             (Some 2) (Some 2) false) = Some 2 /\
  torch_num_interop_threads
    (Process (list_to_map (map (fun key => (key, "2"%string)) thread_variables))
             (Some 2) (Some 2) false) = Some 2 /\
  (forall key, key ∈ thread_variables ->
     environ (Process (list_to_map (map (fun key => (key, "2"%string))
                                        thread_variables))
                      (Some 2) (Some 2) false) !! key = Some (py_str 2)) /\
  (forall key, key ∉ thread_variables ->
     environ (Process (list_to_map (map (fun key => (key, "2"%string))
                                        thread_variables))
                      (Some 2) (Some 2) false) !! key
     = environ fresh_process !! key).
Proof.
  apply (cpu_count_result_bounds (Some 8) (Some 2) fresh_process).
  - reflexivity.
  - vm_compute. reflexivity.
Defined.

(** X23. Once a call of [cpu_count] has settled on [n], every later call
    returns [n] and changes nothing when it passes no limit, the limit 0 or
    the limit [n], and raises [ValueError] for any other limit, again
    changing nothing, whatever the number of cores it would find. *)
Theorem cpu_count_settled (cores cores' limit limit' : option Z)
    (p p' : process) (n : Z) :
  truthy (environ p !! "FE_NUM_THREADS_") = None ->
  cpu_count cores limit p = (Ok n, p') ->
  (limit' = None \/ limit' = Some 0 \/ limit' = Some n ->
   cpu_count cores' limit' p' = (Ok n, p')) /\
  (forall l, limit' = Some l -> l <> 0 -> l <> n ->
             cpu_count cores' limit' p' = (Raise ValueError, p')).
Proof.
  intros Hnone Hrun.
  destruct (cpu_count_uncached cores limit p p' n Hnone Hrun)
    as (_ & _ & _ & _ & _ & Hpos & _ & ->).
  assert (Hcache : environ
                     (Process (environ (set_thread_variables (py_str n) p))
                              (Some n) (Some n) false)
                   !! "FE_NUM_THREADS_" = Some (py_str n)).
  { cbn [environ]. rewrite stored_environ. reflexivity. }
  rewrite (cpu_count_cached cores' limit' _ n Hcache Hpos). split.
  - intros [-> | [-> | ->]]; [reflexivity..|].
    rewrite Z.eqb_refl, orb_true_r. reflexivity.
  - intros l -> Hl Hln.
    destruct (Z.eqb_spec l 0); [contradiction|].
    destruct (Z.eqb_spec l n); [contradiction|]. reflexivity.
Qed.

Lemma cpu_count_settled_witness :
  (Some 3 = None \/ Some 3 = Some 0 \/ Some 3 = Some 3 ->
   cpu_count (Some 2) (Some 3) settled_process = (Ok 3, settled_process)) /\
  (forall l, Some 3 = Some l -> l <> 0 -> l <> 3 ->
             cpu_count (Some 2) (Some 3) settled_process
             = (Raise ValueError, settled_process)).
Proof.
  apply (cpu_count_settled (Some 8) (Some 2) (Some 3) (Some 3) fresh_process
                           settled_process 3).
  - reflexivity.
  - vm_compute. reflexivity.
Defined.

(** X24. [cpu_count] tests its limit and the cache variable for truth: a
    limit of 0 counts as no limit, and [FE_NUM_THREADS_] set to the empty
    string counts as unset.  The two calls of the first pair end alike in
    every respect; those of the second end with the same number and then the
    same process state, or with the same exception. *)
Theorem cpu_count_falsy (cores limit : option Z) (p : process) :
  cpu_count cores (Some 0) p = cpu_count cores None p /\
  (cpu_count cores limit
     (Process (<["FE_NUM_THREADS_" := ""%string]> (environ p))
              (torch_num_threads p) (torch_num_interop_threads p)
              (torch_parallel_started p))).1
  = (cpu_count cores limit
       (Process (delete "FE_NUM_THREADS_" (environ p))
                (torch_num_threads p) (torch_num_interop_threads p)
                (torch_parallel_started p))).1 /\
  (forall n p1,
     cpu_count cores limit
       (Process (<["FE_NUM_THREADS_" := ""%string]> (environ p))
                (torch_num_threads p) (torch_num_interop_threads p)
                (torch_parallel_started p)) = (Ok n, p1) ->
     cpu_count cores limit
       (Process (delete "FE_NUM_THREADS_" (environ p))
                (torch_num_threads p) (torch_num_interop_threads p)
                (torch_parallel_started p)) = (Ok n, p1)).
Proof.
  split; [reflexivity|]. unfold cpu_count, env_limit_of. cbn [environ].
  rewrite lookup_insert_eq, lookup_delete_eq.
  rewrite lookup_insert_ne, lookup_delete_ne by discriminate.
  cbn [truthy].
  destruct (match truthy (environ p !! "FE_NUM_THREADS") with
            | Some s => n ← py_int s; Ok (Some n)
            | None => Ok None
            end) as [env_limit|e]; [|split; [reflexivity | discriminate]].
  destruct cores as [c|]; [|split; [reflexivity | discriminate]].
  destruct (_ <? 1); [split; [reflexivity | discriminate]|].
  unfold set_num_interop_threads, set_num_threads, set_thread_variables.
  cbn [environ torch_num_threads torch_num_interop_threads
       torch_parallel_started].
  rewrite insert_insert_eq, insert_delete_eq.
  destruct (torch_num_interop_threads p);
    [split; [reflexivity | discriminate]|].
  destruct (torch_parallel_started p);
    [split; [reflexivity | discriminate]|].
  split; [reflexivity | auto].
Qed.

(** X25. Without a cached decision, [cpu_count] raises [ValueError] when
    the machine reports less than one core or the limit is negative,
    whatever [FE_NUM_THREADS] holds, and changes nothing. *)
Theorem cpu_count_rejects (cores : Z) (limit : option Z) (p : process) :
  truthy (environ p !! "FE_NUM_THREADS_") = None ->
  cores < 1 \/ (exists l, limit = Some l /\ l < 0) ->
  cpu_count (Some cores) limit p = (Raise ValueError, p).
Proof.
  intros Hnone Hbad. unfold cpu_count. rewrite Hnone.
  destruct (env_limit_of p) as [env_limit|e] eqn:Henv.
  - destruct (Z.ltb_spec (Z.min (Z.min cores (or_else limit cores))
                                (or_else env_limit cores)) 1) as [_|Hge];
      [reflexivity|].
    exfalso. destruct Hbad as [Hcores|(l & -> & Hl)]; [lia|].
    cbn [or_else] in Hge. destruct (Z.eqb_spec l 0); lia.
  - unfold env_limit_of in Henv.
    destruct (truthy (environ p !! "FE_NUM_THREADS")) as [s|];
      [|discriminate].
    destruct (py_int s) as [k|e'] eqn:Hint; [discriminate|].
    cbn [mbind result_bind] in Henv. injection Henv as <-.
    rewrite (py_int_raises s e' Hint). reflexivity.
Qed.

Lemma cpu_count_rejects_witness :
  cpu_count (Some 8) (Some (-1)) fresh_process
  = (Raise ValueError, fresh_process).
Proof.
  apply cpu_count_rejects.
  - reflexivity.
  - right. exists (-1). split; [reflexivity | lia].
Defined.



End CpuCountSpec.

(** ** Saliency: the blend *)

Module BlendSpec.
Import Blend.

Section Facts.
Context {T : Type} `{Number T}.
Implicit Types (sal : gmap string (list T)) (val mask out : list T)
         (samples entries : list (string * list T)).

Lemma lookup_map {A B : Type} (f : A -> B) (l : list A) (j : nat) :
  map f l !! j = f <$> (l !! j).
Proof. apply (list_lookup_fmap f l j). Qed.

(** One element of the blended tensor. *)
Lemma blend_lookup mask val (min_val max_val : T) (j : nat) (m x : T) :
  mask !! j = Some m ->
  val !! j = Some x ->
  blend mask val min_val (sub max_val min_val) !! j
  = Some (blend_formula m x min_val max_val).
Proof.
  intros Hm Hx.
  unfold blend, blend_formula, plus_scalar, plus, scale, times_scalar,
    times, minus_scalar.
  repeat (rewrite ?lookup_map, ?lookup_zip_with, ?Hm, ?Hx; simpl).
  reflexivity.
Qed.

Lemma blend_outputs_ok sal key val (min_val diff : T) outputs :
  Forall (fun outkey => is_Some (sal !! outkey)) outputs ->
  exists blended,
    blend_outputs sal key val min_val diff outputs = Ok blended /\
    forall outkey mask,
      outkey ∈ outputs -> sal !! outkey = Some mask ->
      (key +:+ " " +:+ outkey, blend mask val min_val diff) ∈ blended.
Proof.
  induction 1 as [|outkey outputs [mask Hmask] _ (blended & Hrun & Hin)].
  - exists []. split; [reflexivity|]. intros outkey mask Hel. inversion Hel.
  - simpl. unfold dict_getitem. rewrite Hmask, Hrun.
    cbn [mbind result_bind]. eexists. split; [reflexivity|].
    intros outkey' mask' Hel Hmask'.
    apply elem_of_cons in Hel as [->|Hel].
    + rewrite Hmask in Hmask'. injection Hmask' as <-. left.
    + right. apply Hin; assumption.
Qed.

Lemma blend_samples_ok sal (class_key : option string) outputs samples :
  Forall (fun outkey => is_Some (sal !! outkey)) outputs ->
  Forall (fun kv => Some kv.1 ≠ class_key -> kv.2 ≠ []) samples ->
  exists entries,
    blend_samples sal class_key outputs samples = Ok entries /\
    forall key val outkey mask,
      (key, val) ∈ samples -> Some key ≠ class_key ->
      outkey ∈ outputs -> sal !! outkey = Some mask ->
      exists min_val max_val,
        reduce_min val = Ok min_val /\
        reduce_max val = Ok max_val /\
        (key +:+ " " +:+ outkey,
         blend mask val min_val (sub max_val min_val)) ∈ entries.
Proof.
  intros Hout.
  induction 1 as [|[key val] samples Hne _ (entries & Hrun & Hin)].
  - exists []. split; [reflexivity|].
    intros key val outkey mask Hel. inversion Hel.
  - simpl in Hne. cbn [blend_samples]. rewrite Hrun.
    destruct (decide (Some key = class_key)) as [Hclass|Hother].
    + cbn [mbind result_bind app]. exists entries. split; [reflexivity|].
      intros key' val' outkey mask Hel Hkey.
      apply elem_of_cons in Hel as [[= -> ->]|Hel]; [contradiction|].
      apply Hin; assumption.
    + destruct val as [|x xs]; [exfalso; apply (Hne Hother); reflexivity|].
      cbn [reduce_min reduce_max mbind result_bind].
      destruct (blend_outputs_ok sal key (x :: xs) (foldl minimum x xs)
                  (sub (foldl maximum x xs) (foldl minimum x xs)) outputs Hout)
        as (blended & Hb & Hbin).
      rewrite Hb. cbn [mbind result_bind]. eexists. split; [reflexivity|].
      intros key' val' outkey mask Hel Hkey Hoel Hmask.
      apply elem_of_cons in Hel as [[= -> ->]|Hel].
      * exists (foldl minimum x xs), (foldl maximum x xs).
        split; [reflexivity|]. split; [reflexivity|].
        apply elem_of_app. left. right. apply Hbin; assumption.
      * destruct (Hin key' val' outkey mask Hel Hkey Hoel Hmask)
          as (mn & mx & Hmn & Hmx & He).
        exists mn, mx. split; [assumption|]. split; [assumption|].
        apply elem_of_app. right. assumption.
Qed.

End Facts.



End BlendSpec.

(** ** Saliency: the label mapping *)

Module LabelMappingSpec.
Import LabelMapping.

Lemma invert_app (l1 l2 : list (string * Z)) :
  invert (l1 ++ l2) = foldl (fun acc kv => <[kv.2 := kv.1]> acc) (invert l1) l2.
Proof. unfold invert. apply foldl_app. Qed.

Lemma foldl_insert_notin (l : list (string * Z)) (m : gmap Z string) (v : Z) :
  v ∉ map snd l ->
  foldl (fun acc kv => <[kv.2 := kv.1]> acc) m l !! v = m !! v.
Proof.
  revert m. induction l as [|[k' v'] l IH]; intros m Hnotin; [reflexivity|].
  cbn [map snd] in Hnotin. apply not_elem_of_cons in Hnotin as [Hne Hnotin].
  cbn [foldl]. rewrite IH by assumption. cbn [fst snd].
  apply lookup_insert_ne. congruence.
Qed.

Lemma foldl_insert_not_empty (l : list (string * Z)) (m : gmap Z string) :
  m ≠ ∅ \/ l ≠ [] ->
  foldl (fun acc kv => <[kv.2 := kv.1]> acc) m l ≠ ∅.
Proof.
  revert m. induction l as [|kv l IH]; intros m Hne.
  - destruct Hne as [?|?]; [assumption|contradiction].
  - cbn [foldl]. apply IH. left. apply insert_non_empty.
Qed.

Lemma invert_injective (lm : list (string * Z)) (key : string) (v : Z) :
  NoDup (map snd lm) -> (key, v) ∈ lm -> invert lm !! v = Some key.
Proof.
  intros Hnd Hin. apply list_elem_of_split in Hin as (before & after & ->).
  rewrite invert_app. cbn [foldl fst snd].
  rewrite foldl_insert_notin; [apply lookup_insert_eq|].
  rewrite map_app in Hnd. cbn [map snd] in Hnd.
  apply NoDup_app in Hnd as (_ & _ & Hnd). apply NoDup_cons in Hnd as [Hv _].
  exact Hv.
Qed.

Lemma lookup_all_ok (m : gmap Z string) (picked : list (string * Z)) :
  Forall (fun kv => m !! kv.2 = Some kv.1) picked ->
  lookup_all m (map snd picked) = Ok (map (fun kv => Name kv.1) picked).
Proof.
  induction 1 as [|kv picked Hkv _ IH]; [reflexivity|].
  cbn [map lookup_all]. rewrite Hkv. cbn [mbind result_bind]. rewrite IH.
  reflexivity.
Qed.

Lemma lookup_all_fails (m : gmap Z string) (classes : list Z) :
  lookup_all m classes = Raise KeyError <->
  Exists (fun clazz => m !! clazz = None) classes.
Proof.
  induction classes as [|clazz classes IH]; cbn [lookup_all].
  - split; [discriminate|]. intros Hex. inversion Hex.
  - destruct (m !! clazz) as [s|] eqn:Hs; cbn [mbind result_bind].
    + destruct (lookup_all m classes) as [rest|e]; cbn [mbind result_bind].
      * split; [discriminate|]. intros Hex.
        apply Exists_cons in Hex as [Hhere|Hlater]; [congruence|].
        apply IH in Hlater. discriminate.
      * split.
        -- intros [= ->]. apply Exists_cons_tl, IH. reflexivity.
        -- intros Hex. apply Exists_cons in Hex as [Hhere|Hlater];
             [congruence|]. apply IH in Hlater. rewrite Hlater. reflexivity.
    + split; [|reflexivity]. intros _. apply Exists_cons_hd. exact Hs.
Qed.

Lemma lookup_all_error (m : gmap Z string) (classes : list Z) (e : exn) :
  lookup_all m classes = Raise e -> e = KeyError.
Proof.
  induction classes as [|clazz classes IH]; cbn [lookup_all]; [discriminate|].
  destruct (m !! clazz); cbn [mbind result_bind]; [|congruence].
  destruct (lookup_all m classes); cbn [mbind result_bind]; [discriminate|].
  intros [= <-]. apply IH. reflexivity.
Qed.

(** X11. In the inverted label mapping a value leads to the last key that
    was given this value. *)
Theorem invert_last_wins (before after : list (string * Z)) (key : string)
    (v : Z) :
  v ∉ map snd after ->
  invert (before ++ (key, v) :: after) !! v = Some key.
Proof.
  intros Hnotin. rewrite invert_app. cbn [foldl fst snd].
  rewrite foldl_insert_notin by assumption. apply lookup_insert_eq.
Qed.

Lemma invert_last_wins_witness :
  invert animals !! 1 = Some "dog"%string /\
  invert [("cat"%string, 0); ("kitten"%string, 0)] !! 0 = Some "kitten"%string.
Proof.
  split.
  - apply (invert_last_wins [("cat"%string, 0)] [("owl"%string, 2)] "dog" 1).
    intros Hin. apply list_elem_of_In in Hin. simpl in Hin.
    destruct Hin as [H|[]]. discriminate.
  - apply (invert_last_wins [("cat"%string, 0)] [] "kitten" 0).
    intros Hin. inversion Hin.
Defined.

Lemma iterate_squeezed_ok (classes : list Z) :
  length classes <> 1%nat -> iterate_squeezed classes = Ok classes.
Proof.
  destruct classes as [|c [|c' classes]]; cbn; intros Hlen;
    [reflexivity | contradiction | reflexivity].
Qed.

(** X12. Round trip through the label mapping: when no two class names
    share a value, the values of any selection of the mapping's items, other
    than a selection of exactly one, are shown under their own class
    names. *)
Theorem remap_round_trip (kv : string * Z) (rest picked : list (string * Z)) :
  NoDup (map snd (kv :: rest)) ->
  Forall (fun item => item ∈ kv :: rest) picked ->
  length picked <> 1%nat ->
  remap (__init__ (Some (kv :: rest))) (map snd picked)
  = Ok (map (fun item => Name item.1) picked).
Proof.
  intros Hnd Hpicked Hlen. cbn [__init__ remap].
  destruct (Nat.eqb_spec (size (invert (kv :: rest))) 0) as [Hsize|_].
  - exfalso. apply map_size_empty_iff in Hsize.
    apply (foldl_insert_not_empty (kv :: rest) ∅); [right; discriminate|].
    exact Hsize.
  - rewrite iterate_squeezed_ok by (rewrite length_map; exact Hlen).
    cbn [mbind result_bind].
    apply lookup_all_ok. eapply Forall_impl; [exact Hpicked|].
    intros [k v] Hin. cbn [fst snd]. apply invert_injective; assumption.
Qed.

Lemma remap_round_trip_witness :
  remap (__init__ (Some animals)) [2; 0; 0]
  = Ok [Name "owl"; Name "cat"; Name "cat"].
Proof.
  apply (remap_round_trip ("cat"%string, 0)
           [("dog"%string, 1); ("owl"%string, 2)]
           [("owl"%string, 2); ("cat"%string, 0); ("cat"%string, 0)]).
  - apply (bool_decide_unpack (NoDup [0; 1; 2])). reflexivity.
  - repeat constructor; apply list_elem_of_In; simpl; auto.
  - discriminate.
Defined.

(** X13. With a label mapping in place, showing the classes of a single
    sample fails with [TypeError], whether or not the class has an entry; for
    any other number of samples it fails exactly when some class value has no
    entry in the inverted mapping, and then with [KeyError]. *)
Theorem remap_fails_iff (m : gmap Z string) (classes : list Z) :
  m <> ∅ ->
  (length classes = 1%nat -> remap (Some m) classes = Raise TypeError) /\
  (length classes <> 1%nat ->
   (is_ok (remap (Some m) classes) = false <->
    Exists (fun clazz => m !! clazz = None) classes) /\
   (is_ok (remap (Some m) classes) = false ->
    remap (Some m) classes = Raise KeyError)).
Proof.
  intros Hne. cbn [remap].
  destruct (Nat.eqb_spec (size m) 0) as [Hsize|_].
  { apply map_size_empty_iff in Hsize. contradiction. }
  split.
  - destruct classes as [|c [|c' classes]]; cbn; intros Hlen;
      [discriminate | reflexivity | discriminate].
  - intros Hlen. rewrite (iterate_squeezed_ok classes Hlen).
    cbn [mbind result_bind]. split.
    + rewrite <- lookup_all_fails.
      destruct (lookup_all m classes) as [names|e] eqn:Hrun; cbn [is_ok].
      * split; discriminate.
      * apply lookup_all_error in Hrun as ->. split; reflexivity.
    + destruct (lookup_all m classes) as [names|e] eqn:Hrun; cbn [is_ok];
        [discriminate|].
      apply lookup_all_error in Hrun as ->. reflexivity.
Qed.

Lemma remap_fails_iff_witness :
  remap (Some (invert animals)) [1] = Raise TypeError /\
  remap (Some (invert animals)) [1; 7] = Raise KeyError.
Proof.
  split.
  - destruct (remap_fails_iff (invert animals) [1]) as [Hone _].
    + vm_compute. discriminate.
    + apply Hone. reflexivity.
  - destruct (remap_fails_iff (invert animals) [1; 7]) as [_ Hmany].
    + vm_compute. discriminate.
    + destruct Hmany as [Hiff Herr]; [discriminate|].
      apply Herr, Hiff. apply Exists_cons_tl, Exists_cons_hd.
      vm_compute. reflexivity.
Defined.

End LabelMappingSpec.

(** ** util/util.py: [pad_batch] and [get_batch_size] *)

Module BatchSpec.
Import Pad Batch PadSpec.

Local Open Scope nat_scope.

(** *** Counting distinct values *)

Section Distinct.
Context {X : Type} `{EqDecision X}.
Implicit Types (l : list X).

Lemma distinct_le_1 l :
  distinct l <= 1 <-> (forall x y, x ∈ l -> y ∈ l -> x = y).
Proof.
  unfold distinct. split.
  - intros Hlen x y Hx Hy. apply elem_of_remove_dups in Hx, Hy.
    destruct (remove_dups l) as [|a [|b D]]; simpl in Hlen.
    + inversion Hx.
    + apply list_elem_of_singleton in Hx, Hy. congruence.
    + lia.
  - intros Heq. pose proof (NoDup_remove_dups l) as Hnd.
    assert (Hall : forall x y, x ∈ remove_dups l -> y ∈ remove_dups l -> x = y).
    { intros x y Hx Hy. apply Heq; apply elem_of_remove_dups; assumption. }
    destruct (remove_dups l) as [|a [|b D]]; simpl; try lia.
    exfalso. assert (a = b) as ->.
    { apply Hall; [left | right; left]. }
    apply NoDup_cons in Hnd as [Hnot _]. apply Hnot. left.
Qed.

Lemma distinct_0 l : distinct l = 0 <-> l = [].
Proof.
  unfold distinct. split.
  - intros Hlen. destruct l as [|x l]; [reflexivity|].
    assert (Hx : x ∈ remove_dups (x :: l)).
    { apply elem_of_remove_dups. left. }
    destruct (remove_dups (x :: l)); [inversion Hx | discriminate].
  - intros ->. reflexivity.
Qed.

Lemma distinct_1 l :
  distinct l = 1 <-> l <> [] /\ (forall x y, x ∈ l -> y ∈ l -> x = y).
Proof.
  rewrite <- distinct_le_1, <- distinct_0. lia.
Qed.

Lemma remove_dups_one l (n : X) :
  remove_dups l = [n] <-> l <> [] /\ (forall x, x ∈ l -> x = n).
Proof.
  split.
  - intros Hrd. split.
    + intros ->. discriminate.
    + intros x Hx. apply elem_of_remove_dups in Hx. rewrite Hrd in Hx.
      apply list_elem_of_singleton in Hx. exact Hx.
  - intros [Hne Hall].
    assert (Hlen : distinct l = 1).
    { apply distinct_1. split; [exact Hne|].
      intros x y Hx Hy. rewrite (Hall x Hx), (Hall y Hy). reflexivity. }
    unfold distinct in Hlen.
    destruct (remove_dups l) as [|a [|b D]] eqn:Hrd; try discriminate.
    f_equal. apply Hall. apply elem_of_remove_dups. rewrite Hrd. left.
Qed.

End Distinct.

(** *** [get_batch_size] *)

Section BatchSize.
Context {A B : Type}.
Implicit Types (data : gmap string (datum A B)).

Lemma elem_of_first_dims data n :
  n ∈ first_dims data <->
  exists key a rest, data !! key = Some (Arr a) /\ shape a = n :: rest.
Proof.
  unfold first_dims. rewrite list_elem_of_omap. split.
  - intros ([key d] & Hin & Hhead). apply elem_of_map_to_list in Hin.
    cbn [snd] in Hhead. destruct d as [a|b]; [|discriminate].
    destruct (shape a) as [|m rest] eqn:Hs; [discriminate|].
    cbn in Hhead. injection Hhead as ->. exists key, a, rest. auto.
  - intros (key & a & rest & Hk & Hs). exists (key, Arr a). split.
    + apply elem_of_map_to_list. exact Hk.
    + cbn [snd]. rewrite Hs. reflexivity.
Qed.

End BatchSize.

(** X16. [get_batch_size] returns [n] exactly when some array of the record
    has a first dimension, and the first dimension of every array that has
    one is [n]; values without a shape and arrays of rank zero play no
    part.  In every other case it raises [AssertionError]. *)
Theorem get_batch_size_spec {A B : Type}
    (data : gmap string (datum A B)) :
  (forall n,
     get_batch_size data = Ok n <->
     (exists key a rest, data !! key = Some (Arr a) /\ shape a = n :: rest) /\
     (forall key a m rest,
        data !! key = Some (Arr a) -> shape a = m :: rest -> m = n)) /\
  (forall e, get_batch_size data = Raise e -> e = AssertionError).
Proof.
  split.
  - intros n. unfold get_batch_size. split.
    + intros Hok.
      assert (Hrd : remove_dups (first_dims data) = [n]).
      { destruct (remove_dups (first_dims data)) as [|a [|b D]];
          try discriminate. congruence. }
      apply remove_dups_one in Hrd as [Hne Hall]. split.
      * apply elem_of_first_dims.
        destruct (first_dims data) as [|m l] eqn:Hfd; [contradiction|].
        rewrite <- (Hall m); left.
      * intros key a m rest Hk Hs. apply Hall. apply elem_of_first_dims.
        exists key, a, rest. auto.
    + intros [Hex Hall].
      assert (Hrd : remove_dups (first_dims data) = [n]).
      { apply remove_dups_one. split.
        - apply elem_of_first_dims in Hex. intros Hnil. rewrite Hnil in Hex.
          inversion Hex.
        - intros m Hm. apply elem_of_first_dims in Hm
            as (key & a & rest & Hk & Hs). eauto. }
      rewrite Hrd. reflexivity.
  - intros e. unfold get_batch_size.
    destruct (remove_dups (first_dims data)) as [|a [|b D]];
      intros He; congruence.
Qed.

(** *** The largest shape *)

Lemma zip_with_max_diag (s : list nat) : zip_with Nat.max s s = s.
Proof.
  induction s as [|n s IH]; [reflexivity|].
  cbn [zip_with]. rewrite IH, Nat.max_id. reflexivity.
Qed.

Lemma zip_with_max_upper (s r : list nat) :
  length s = length r ->
  Forall2 le s (zip_with Nat.max s r) /\ Forall2 le r (zip_with Nat.max s r).
Proof.
  revert r. induction s as [|n s IH]; intros [|m r] Hlen; try discriminate.
  - split; constructor.
  - injection Hlen as Hlen. destruct (IH r Hlen) as [Hs Hr].
    cbn [zip_with]. split; constructor; try assumption; lia.
Qed.

Lemma Forall2_le_trans (s r t : list nat) :
  Forall2 le s r -> Forall2 le r t -> Forall2 le s t.
Proof.
  intros H1 H2. eapply Forall2_trans; [|exact H1|exact H2].
  intros x y z Hxy Hyz. lia.
Qed.

Lemma Forall2_le_refl (s : list nat) : Forall2 le s s.
Proof. apply Forall_Forall2_diag, Forall_forall. intros x _. lia. Qed.

Lemma foldl_max_upper (rest : list (list nat)) :
  forall acc,
    (forall s, s ∈ rest -> length s = length acc) ->
    Forall2 le acc (foldl (zip_with Nat.max) acc rest) /\
    (forall s, s ∈ rest -> Forall2 le s (foldl (zip_with Nat.max) acc rest)).
Proof.
  induction rest as [|r rest IH]; intros acc Hlen.
  - split; [apply Forall2_le_refl|]. intros s Hs. inversion Hs.
  - cbn [foldl].
    assert (Hr : length acc = length r).
    { symmetry. apply Hlen. left. }
    destruct (zip_with_max_upper acc r Hr) as [Hacc Hrle].
    destruct (IH (zip_with Nat.max acc r)) as [Hup Hall].
    { intros s Hs. rewrite length_zip_with_l_eq by exact Hr.
      apply Hlen. right. exact Hs. }
    split.
    + eapply Forall2_le_trans; eassumption.
    + intros s Hs. apply elem_of_cons in Hs as [->|Hs].
      * eapply Forall2_le_trans; eassumption.
      * apply Hall. exact Hs.
Qed.

Lemma max_shapes_upper (shapes : list (list nat)) (s : list nat) :
  (forall s1 s2, s1 ∈ shapes -> s2 ∈ shapes -> length s1 = length s2) ->
  s ∈ shapes -> Forall2 le s (max_shapes shapes).
Proof.
  intros Hrank Hs. destruct shapes as [|s0 rest]; [inversion Hs|].
  cbn [max_shapes].
  destruct (foldl_max_upper rest s0) as [Hup Hall].
  { intros r Hr. apply Hrank; [right; exact Hr | left]. }
  apply elem_of_cons in Hs as [->|Hs]; [exact Hup | apply Hall; exact Hs].
Qed.

Lemma max_shapes_same (shapes : list (list nat)) (s : list nat) :
  (forall s1 s2, s1 ∈ shapes -> s2 ∈ shapes -> s1 = s2) ->
  s ∈ shapes -> max_shapes shapes = s.
Proof.
  intros Hsame Hs. destruct shapes as [|s0 rest]; [inversion Hs|].
  assert (Hs0 : s0 = s) by (apply Hsame; [left | exact Hs]). subst s0.
  cbn [max_shapes].
  assert (Hrest : forall r, r ∈ rest -> r = s).
  { intros r Hr. apply Hsame; [right; exact Hr | left]. }
  clear Hsame Hs. induction rest as [|r rest IH]; [reflexivity|].
  cbn [foldl]. rewrite (Hrest r) by left. rewrite zip_with_max_diag.
  apply IH. intros r' Hr'. apply Hrest. right. exact Hr'.
Qed.

(** *** [pad_batch] *)

Section PadBatch.
Context {A B : Type}.
Implicit Types (d : datum A B) (data first : gmap string (datum A B))
         (batch cur rest : list (gmap string (datum A B))) (v : A)
         (key : string) (keys : list string).

Lemma check_batch_keys_ok (D : gset string) batch :
  Forall (fun data => dom data = D) batch ->
  check_batch_keys D batch = Ok tt.
Proof.
  induction 1 as [|data rest Hd _ IH]; [reflexivity|].
  cbn [check_batch_keys]. destruct (decide (dom data = D)); [exact IH|].
  contradiction.
Qed.

Lemma check_batch_keys_raise (D : gset string) batch :
  Exists (fun data => dom data <> D) batch ->
  check_batch_keys D batch = Raise AssertionError.
Proof.
  induction batch as [|data rest IH]; intros Hex; [inversion Hex|].
  cbn [check_batch_keys]. destruct (decide (dom data = D)) as [Hd|Hd];
    [|reflexivity].
  apply Exists_cons in Hex as [Hne|Hex]; [contradiction|]. apply IH, Hex.
Qed.

Lemma elem_of_column key batch d :
  d ∈ column key batch <-> exists data, data ∈ batch /\ data !! key = Some d.
Proof. unfold column. apply list_elem_of_omap. Qed.

Lemma elem_of_shapes_of key batch (s : list nat) :
  s ∈ shapes_of key batch <->
  exists data a, data ∈ batch /\ data !! key = Some (Arr a) /\ shape a = s.
Proof.
  unfold shapes_of. rewrite list_elem_of_omap. split.
  - intros (d & Hd & Hs). apply elem_of_column in Hd as (data & Hin & Hk).
    destruct d as [a|b]; [|discriminate]. injection Hs as Hs.
    exists data, a. auto.
  - intros (data & a & Hin & Hk & Hs). exists (Arr a). split.
    + apply elem_of_column. exists data. auto.
    + cbn. rewrite Hs. reflexivity.
Qed.

Lemma column_cons key data rest d :
  data !! key = Some d -> column key (data :: rest) = d :: column key rest.
Proof. intros Hd. unfold column. cbn. rewrite Hd. reflexivity. Qed.

Lemma shapes_at_ok key batch :
  Forall (fun data => is_Some (data !! key)) batch ->
  shapes_at key batch = Ok (shapes_of key batch).
Proof.
  induction 1 as [|data rest [d Hd] _ IH]; [reflexivity|].
  cbn [shapes_at]. unfold dict_getitem. rewrite Hd.
  cbn [mbind result_bind]. rewrite IH. cbn [mbind result_bind].
  unfold shapes_of. rewrite (column_cons key data rest d Hd).
  cbn. destruct (shape_of d); reflexivity.
Qed.

Lemma present_of_dom (D : gset string) key batch :
  key ∈ D -> Forall (fun data => dom data = D) batch ->
  Forall (fun data => is_Some (data !! key)) batch.
Proof.
  intros Hk HD. eapply Forall_impl; [exact HD|]. intros data Hd.
  apply elem_of_dom. rewrite Hd. exact Hk.
Qed.

Lemma same_shape_distinct key batch :
  same_shape key batch <-> distinct (shapes_of key batch) <= 1.
Proof. unfold same_shape. rewrite distinct_le_1. reflexivity. Qed.

Lemma same_rank_distinct key batch :
  same_rank key batch <-> distinct (map length (shapes_of key batch)) <= 1.
Proof.
  rewrite distinct_le_1. unfold same_rank. split.
  - intros Hr x y Hx Hy.
    apply list_elem_of_fmap in Hx as (s1 & -> & Hs1).
    apply list_elem_of_fmap in Hy as (s2 & -> & Hs2). auto.
  - intros Hr s1 s2 Hs1 Hs2.
    apply Hr; apply list_elem_of_fmap; eauto.
Qed.

Lemma same_shape_rank key batch : same_shape key batch -> same_rank key batch.
Proof.
  intros Hs s1 s2 H1 H2. rewrite (Hs s1 s2 H1 H2). reflexivity.
Qed.

Lemma well_formed_lookup batch data key a :
  well_formed batch -> data ∈ batch -> data !! key = Some (Arr a) -> wf a.
Proof.
  intros Hwf Hin Hk. unfold well_formed in Hwf.
  rewrite Forall_forall in Hwf. exact (Hwf data Hin key (Arr a) Hk).
Qed.

Lemma pad_records_ok key target v cur :
  Forall (fun data => exists a, data !! key = Some (Arr a) /\ fits (B := B) target (Arr a))
         cur ->
  exists cur',
    pad_records key (map Z.of_nat target) v cur = Ok cur' /\
    Forall2 (key_padded v key target) cur cur'.
Proof.
  induction 1 as [|data rest (a & Hk & Hwf & Hne & Hle) _ (rest' & Hrest & IH)].
  - exists []. split; [reflexivity | constructor].
  - destruct (pad_data_result a target v Hwf Hne Hle) as (a' & Hpad & Hto).
    exists (<[key := Arr a']> data :: rest'). split.
    + cbn [pad_records]. unfold dict_getitem. rewrite Hk.
      cbn [mbind result_bind]. rewrite Hpad. cbn [mbind result_bind].
      rewrite Hrest. reflexivity.
    + constructor; [|exact IH]. exists (Arr a), (Arr a').
      split; [exact Hk|]. split; [reflexivity|]. exists a'. auto.
Qed.

Lemma pad_records_plain key target v cur :
  Forall (fun data => exists d, data !! key = Some d /\ fits target d) cur ->
  Exists (fun data => exists b, data !! key = Some (Plain b)) cur ->
  pad_records key (map Z.of_nat target) v cur = Raise AttributeError.
Proof.
  induction 1 as [|data rest (d & Hk & Hfit) _ IH]; intros Hex;
    [inversion Hex|].
  cbn [pad_records]. unfold dict_getitem. rewrite Hk.
  cbn [mbind result_bind]. destruct d as [a|b]; [|reflexivity].
  destruct Hfit as (Hwf & Hne & Hle).
  destruct (pad_data_result a target v Hwf Hne Hle) as (a' & Hpad & _).
  rewrite Hpad. cbn [mbind result_bind].
  apply Exists_cons in Hex as [(b & Hb)|Hex]; [congruence|].
  rewrite (IH Hex). reflexivity.
Qed.

(** The arrays of a column whose shapes differ but whose ranks agree can
    all be padded to the largest shape. *)
Lemma column_fits key cur data d :
  well_formed cur -> same_rank key cur -> ~ same_shape key cur ->
  data ∈ cur -> data !! key = Some d ->
  fits (max_shapes (shapes_of key cur)) d.
Proof.
  intros Hwf Hrank Hdiff Hin Hk. destruct d as [a|b]; [|exact I].
  assert (Hs : shape a ∈ shapes_of key cur).
  { apply elem_of_shapes_of. exists data, a. auto. }
  split; [exact (well_formed_lookup cur data key a Hwf Hin Hk)|]. split.
  - intros Hnil. apply Hdiff. intros s1 s2 H1 H2.
    pose proof (Hrank s1 (shape a) H1 Hs) as L1.
    pose proof (Hrank s2 (shape a) H2 Hs) as L2.
    rewrite Hnil in L1, L2. destruct s1, s2; try discriminate. reflexivity.
  - apply max_shapes_upper; assumption.
Qed.

Lemma all_arrays_lookup key cur data d :
  all_arrays key cur -> data ∈ cur -> data !! key = Some d ->
  exists a, d = Arr a.
Proof.
  intros Hall Hin Hk. unfold all_arrays in Hall. rewrite Forall_forall in Hall.
  assert (Hd : d ∈ column key cur) by (apply elem_of_column; eauto).
  destruct d as [a|b]; [eauto|]. destruct (Hall _ Hd) as [s Hs]. discriminate.
Qed.

Lemma not_all_arrays key cur :
  Forall (fun data => is_Some (data !! key)) cur ->
  ~ all_arrays key cur ->
  Exists (fun data => exists b, data !! key = Some (Plain b)) cur.
Proof.
  induction 1 as [|data rest [d Hd] Hrest IH]; intros Hnot.
  - exfalso. apply Hnot. constructor.
  - destruct d as [a|b].
    + right. apply IH. intros Hall. apply Hnot. unfold all_arrays.
      rewrite (column_cons key data rest _ Hd). constructor; [|exact Hall].
      cbn. eauto.
    + left. eauto.
Qed.

Lemma distinct_ranks_1 key cur :
  same_rank key cur -> ~ same_shape key cur ->
  distinct (map length (shapes_of key cur)) = 1.
Proof.
  intros Hrank Hdiff. apply same_rank_distinct in Hrank.
  assert (Hne : distinct (map length (shapes_of key cur)) <> 0).
  { rewrite distinct_0. intros Hnil. apply Hdiff. unfold same_shape.
    destruct (shapes_of key cur); [|discriminate].
    intros s1 s2 H1. inversion H1. }
  lia.
Qed.

(** The three ways the loop body of [pad_batch] ends for one key. *)
Lemma pad_key_ok v key cur :
  Forall (fun data => is_Some (data !! key)) cur ->
  well_formed cur ->
  same_shape key cur \/ (all_arrays key cur /\ same_rank key cur) ->
  exists cur',
    pad_key v cur key = Ok cur' /\
    Forall2 (key_padded v key (max_shapes (shapes_of key cur))) cur cur'.
Proof.
  intros Hpres Hwf Hcase. unfold pad_key. rewrite (shapes_at_ok key cur Hpres).
  cbn [mbind result_bind].
  destruct (Nat.ltb_spec 1 (distinct (shapes_of key cur))) as [Hmany|Hone].
  - assert (Hdiff : ~ same_shape key cur).
    { rewrite same_shape_distinct. lia. }
    destruct Hcase as [Hsame|[Hall Hrank]]; [contradiction|].
    rewrite (distinct_ranks_1 key cur Hrank Hdiff). cbn [Nat.eqb].
    apply pad_records_ok. apply Forall_forall. intros data Hin.
    rewrite Forall_forall in Hpres. destruct (Hpres data Hin) as [d Hd].
    destruct (all_arrays_lookup key cur data d Hall Hin Hd) as [a ->].
    exists a. split; [exact Hd|].
    exact (column_fits key cur data (Arr a) Hwf Hrank Hdiff Hin Hd).
  - apply same_shape_distinct in Hone. exists cur. split; [reflexivity|].
    apply Forall_Forall2_diag, Forall_forall. intros data Hin.
    rewrite Forall_forall in Hpres. destruct (Hpres data Hin) as [d Hd].
    exists d, d. split; [exact Hd|]. split.
    { symmetry. apply insert_id. exact Hd. }
    destruct d as [a|b]; [|reflexivity]. exists a. split; [reflexivity|].
    rewrite (max_shapes_same (shapes_of key cur) (shape a) Hone).
    + apply pads_to_refl. exact (well_formed_lookup cur data key a Hwf Hin Hd).
    + apply elem_of_shapes_of. exists data, a. auto.
Qed.

Lemma pad_key_same_shape v key cur :
  Forall (fun data => is_Some (data !! key)) cur ->
  same_shape key cur -> pad_key v cur key = Ok cur.
Proof.
  intros Hpres Hsame. unfold pad_key. rewrite (shapes_at_ok key cur Hpres).
  cbn [mbind result_bind]. apply same_shape_distinct in Hsame.
  destruct (Nat.ltb_spec 1 (distinct (shapes_of key cur))); [lia|reflexivity].
Qed.

Lemma pad_key_rank v key cur :
  Forall (fun data => is_Some (data !! key)) cur ->
  ~ same_rank key cur -> pad_key v cur key = Raise AssertionError.
Proof.
  intros Hpres Hrank. unfold pad_key. rewrite (shapes_at_ok key cur Hpres).
  cbn [mbind result_bind].
  assert (Hshape : ~ same_shape key cur).
  { intros Hs. apply Hrank, same_shape_rank, Hs. }
  rewrite same_shape_distinct in Hshape. rewrite same_rank_distinct in Hrank.
  destruct (Nat.ltb_spec 1 (distinct (shapes_of key cur))); [|lia].
  destruct (Nat.eqb_spec (distinct (map length (shapes_of key cur))) 1);
    [lia | reflexivity].
Qed.

Lemma pad_key_plain v key cur :
  Forall (fun data => is_Some (data !! key)) cur ->
  well_formed cur ->
  same_rank key cur -> ~ same_shape key cur -> ~ all_arrays key cur ->
  pad_key v cur key = Raise AttributeError.
Proof.
  intros Hpres Hwf Hrank Hdiff Hplain. unfold pad_key.
  rewrite (shapes_at_ok key cur Hpres). cbn [mbind result_bind].
  destruct (Nat.ltb_spec 1 (distinct (shapes_of key cur))) as [_|Hone].
  2: { apply same_shape_distinct in Hone. contradiction. }
  rewrite (distinct_ranks_1 key cur Hrank Hdiff). cbn [Nat.eqb].
  apply pad_records_plain.
  - apply Forall_forall. intros data Hin. rewrite Forall_forall in Hpres.
    destruct (Hpres data Hin) as [d Hd]. exists d. split; [exact Hd|].
    exact (column_fits key cur data d Hwf Hrank Hdiff Hin Hd).
  - apply not_all_arrays; assumption.
Qed.

(** Padding under one key leaves the other keys alone. *)
Lemma key_padded_lookup_ne v key key' target data data' :
  key' <> key -> key_padded v key target data data' ->
  data' !! key' = data !! key'.
Proof.
  intros Hne (d & d' & Hd & -> & _). apply lookup_insert_ne. congruence.
Qed.

Lemma key_padded_dom v key target data data' :
  key_padded v key target data data' -> dom data' = dom data.
Proof.
  intros (d & d' & Hd & -> & _). rewrite dom_insert_L.
  apply subseteq_union_1_L, singleton_subseteq_l.
  apply elem_of_dom. eauto.
Qed.

Lemma key_padded_column v key key' target cur cur' :
  key' <> key -> Forall2 (key_padded v key target) cur cur' ->
  column key' cur' = column key' cur.
Proof.
  intros Hne. induction 1 as [|data data' cur cur' Hp _ IH]; [reflexivity|].
  unfold column in *. cbn.
  rewrite (key_padded_lookup_ne v key key' target data data' Hne Hp), IH.
  reflexivity.
Qed.

Lemma key_padded_well_formed v key target cur cur' :
  well_formed cur -> Forall2 (key_padded v key target) cur cur' ->
  well_formed cur'.
Proof.
  unfold well_formed. intros Hwf Hstep.
  induction Hstep as [|data data' cur cur' Hp _ IH]; [constructor|].
  apply Forall_cons in Hwf as [Hdata Hwf]. constructor; [|exact (IH Hwf)].
  destruct Hp as (d & d' & Hd & -> & Hpad).
  apply map_Forall_insert_2; [|exact Hdata].
  destruct d as [a|b]; cbn in Hpad.
  - destruct Hpad as (a' & -> & Hto). apply Hto.
  - subst d'. exact I.
Qed.

Lemma key_padded_doms v key target (D : gset string) cur cur' :
  Forall (fun data => dom data = D) cur ->
  Forall2 (key_padded v key target) cur cur' ->
  Forall (fun data => dom data = D) cur'.
Proof.
  intros HD Hstep.
  induction Hstep as [|data data' cur cur' Hp _ IH]; [constructor|].
  apply Forall_cons in HD as [Hdata HD]. constructor; [|exact (IH HD)].
  rewrite (key_padded_dom v key target data data' Hp). exact Hdata.
Qed.

Lemma column_paddable key cur cur' :
  column key cur' = column key cur -> paddable key cur -> paddable key cur'.
Proof.
  unfold paddable, same_shape, same_rank, all_arrays, shapes_of.
  intros ->. auto.
Qed.

Lemma column_fails e key cur cur' :
  column key cur' = column key cur -> fails e key cur -> fails e key cur'.
Proof.
  unfold fails, same_shape, same_rank, all_arrays, shapes_of.
  intros ->. auto.
Qed.

Lemma pad_key_fails e v key cur :
  Forall (fun data => is_Some (data !! key)) cur ->
  well_formed cur -> fails e key cur -> pad_key v cur key = Raise e.
Proof.
  intros Hpres Hwf Hfail. destruct e; cbn in Hfail; try contradiction.
  - apply pad_key_rank; assumption.
  - destruct Hfail as (Hrank & Hdiff & Hplain).
    apply pad_key_plain; assumption.
Qed.

(** The loop over the keys, when every key can be padded. *)
Lemma pad_keys_ok v (D : gset string) keys :
  NoDup keys ->
  forall cur,
    Forall (fun data => dom data = D) cur ->
    well_formed cur ->
    (forall key, key ∈ keys -> key ∈ D /\ paddable key cur) ->
    exists cur',
      pad_keys v keys cur = Ok cur' /\
      Forall2 (keys_padded v keys cur) cur cur'.
Proof.
  induction 1 as [|k ks Hnotin Hnd IH]; intros cur HD Hwf Hkeys.
  - exists cur. split; [reflexivity|].
    apply Forall_Forall2_diag, Forall_forall. intros data _.
    split; [reflexivity|]. intros key d Hd. exists d.
    split; [exact Hd|]. split; [intros Hin; inversion Hin | reflexivity].
  - destruct (Hkeys k) as [HkD Hpad]; [left|].
    destruct (pad_key_ok v k cur (present_of_dom D k cur HkD HD) Hwf Hpad)
      as (cur1 & Hkey & Hstep).
    assert (Hcol : forall key, key ∈ ks -> column key cur1 = column key cur).
    { intros key Hin. eapply key_padded_column; [|exact Hstep].
      intros ->. contradiction. }
    destruct (IH cur1) as (cur' & Hrest & Hrel).
    { eapply key_padded_doms; eassumption. }
    { eapply key_padded_well_formed; eassumption. }
    { intros key Hin. destruct (Hkeys key) as [HD' Hp]; [right; exact Hin|].
      split; [exact HD'|].
      exact (column_paddable key cur cur1 (Hcol key Hin) Hp). }
    exists cur'. split.
    { cbn [pad_keys]. rewrite Hkey. exact Hrest. }
    eapply Forall2_trans; [|exact Hstep|exact Hrel].
    intros data data1 data' Hp (Hdom & Hall). split.
    { rewrite Hdom. eapply key_padded_dom. exact Hp. }
    intros key d Hd. destruct Hp as (dk & dk' & Hdk & -> & Hpd).
    destruct (decide (key = k)) as [->|Hne].
    + assert (d = dk) by congruence. subst d.
      destruct (Hall k dk') as (d' & Hd' & _ & Hsame).
      { apply lookup_insert_eq. }
      rewrite (Hsame Hnotin) in Hd'. exists dk'. split; [exact Hd'|].
      split; [intros _; exact Hpd|]. intros Hn. exfalso. apply Hn. left.
    + destruct (Hall key d) as (d' & Hd' & Hin' & Hout').
      { rewrite lookup_insert_ne by congruence. exact Hd. }
      exists d'. split; [exact Hd'|]. split.
      * intros Hin. apply elem_of_cons in Hin as [?|Hin]; [contradiction|].
        specialize (Hin' Hin). unfold shapes_of in *.
        rewrite (Hcol key Hin) in Hin'. exact Hin'.
      * intros Hn. apply Hout'. intros Hin. apply Hn. right. exact Hin.
Qed.

(** The loop over the keys, when some key makes the body raise [e] and
    the keys before it can be padded. *)
Lemma pad_keys_raise v (D : gset string) e keys :
  NoDup keys ->
  forall cur,
    Forall (fun data => dom data = D) cur ->
    well_formed cur ->
    (forall key, key ∈ keys -> key ∈ D /\ (paddable key cur \/ fails e key cur)) ->
    (exists key, key ∈ keys /\ fails e key cur) ->
    pad_keys v keys cur = Raise e.
Proof.
  induction 1 as [|k ks Hnotin Hnd IH]; intros cur HD Hwf Hkeys Hex.
  - destruct Hex as (key & Hin & _). inversion Hin.
  - cbn [pad_keys]. destruct (Hkeys k) as [HkD Hcase]; [left|].
    pose proof (present_of_dom D k cur HkD HD) as Hpres.
    assert (Hraise : fails e k cur -> pad_key v cur k ≫= pad_keys v ks = Raise e).
    { intros Hf. rewrite (pad_key_fails e v k cur Hpres Hwf Hf). reflexivity. }
    destruct Hex as (key & Hin & Hf).
    apply elem_of_cons in Hin as [->|Hin]; [exact (Hraise Hf)|].
    destruct Hcase as [Hpad|Hfail]; [|exact (Hraise Hfail)].
    destruct (pad_key_ok v k cur Hpres Hwf Hpad) as (cur1 & Hkey & Hstep).
    assert (Hcol : forall key, key ∈ ks -> column key cur1 = column key cur).
    { intros key' Hin'. eapply key_padded_column; [|exact Hstep].
      intros ->. contradiction. }
    rewrite Hkey. cbn [mbind result_bind]. apply IH.
    + eapply key_padded_doms; eassumption.
    + eapply key_padded_well_formed; eassumption.
    + intros key' Hin'.
      destruct (Hkeys key') as [HD' Hc]; [right; exact Hin'|].
      split; [exact HD'|]. destruct Hc as [Hp|Hf'].
      * left. exact (column_paddable key' cur cur1 (Hcol key' Hin') Hp).
      * right. exact (column_fails e key' cur cur1 (Hcol key' Hin') Hf').
    + exists key. split; [exact Hin|].
      exact (column_fails e key cur cur1 (Hcol key Hin) Hf).
Qed.

Lemma pad_keys_same_shape v keys cur :
  (forall key, key ∈ keys ->
     Forall (fun data => is_Some (data !! key)) cur /\ same_shape key cur) ->
  pad_keys v keys cur = Ok cur.
Proof.
  induction keys as [|k ks IH]; intros Hkeys; [reflexivity|].
  cbn [pad_keys]. destruct (Hkeys k) as [Hpres Hsame]; [left|].
  rewrite (pad_key_same_shape v k cur Hpres Hsame). cbn [mbind result_bind].
  apply IH. intros key Hin. apply Hkeys. right. exact Hin.
Qed.

Lemma pad_batch_unfold first rest v :
  Forall (fun data => dom data = dom first) rest ->
  pad_batch (first :: rest) v
  = pad_keys v (map fst (map_to_list first)) (first :: rest).
Proof.
  intros HD. unfold pad_batch.
  change (py_getitem (first :: rest) 0) with (Ok first).
  cbn [mbind result_bind]. rewrite check_batch_keys_ok; [reflexivity|].
  constructor; [reflexivity | exact HD].
Qed.

Lemma elem_of_keys first key :
  key ∈ map fst (map_to_list first) <-> key ∈ dom first.
Proof.
  change (map fst (map_to_list first)) with (fst <$> map_to_list first).
  rewrite list_elem_of_fmap, elem_of_dom. split.
  - intros ([k d] & -> & Hin). apply elem_of_map_to_list in Hin. eauto.
  - intros [d Hd]. exists (key, d). split; [reflexivity|].
    apply elem_of_map_to_list. exact Hd.
Qed.

End PadBatch.

Ltac same_keys := apply (bool_decide_unpack _); vm_compute; reflexivity.

Ltac one_key Hin :=
  repeat (rewrite dom_insert_L in Hin; apply elem_of_union in Hin as [Hin|Hin]);
  rewrite ?dom_singleton_L in Hin; apply elem_of_singleton in Hin; subst.

Lemma keys_padded_record {A B : Type} (v : A) (D : gset string)
    (keys : list string) (batch cur cur' : list (gmap string (datum A B))) :
  (forall key, key ∈ D -> key ∈ keys) ->
  Forall (fun data => dom data = D) cur ->
  Forall2 (keys_padded v keys batch) cur cur' ->
  Forall2 (padded_record v batch) cur cur'.
Proof.
  intros Hkeys HD Hrel.
  induction Hrel as [|data data' cur cur' [Hdom Hall] _ IH]; [constructor|].
  apply Forall_cons in HD as [Hdata HD]. constructor; [|exact (IH HD)].
  split; [exact Hdom|]. intros key d Hd.
  destruct (Hall key d Hd) as (d' & Hd' & Hin & _). exists d'.
  split; [exact Hd'|]. apply Hin, Hkeys. rewrite <- Hdata.
  apply elem_of_dom. eauto.
Qed.

(** X17. On a batch of records with the same keys where, under every key,
    the arrays have one shape, or every value is an array and the arrays have
    one rank, [pad_batch] succeeds; it keeps the keys of every record, leaves
    the values that are no arrays as they are, and gives every array the
    largest shape found under its key, with the original elements at their
    indices and the pad value at the new ones. *)
Theorem pad_batch_pads {A B : Type} (first : gmap string (datum A B))
    (rest : list (gmap string (datum A B))) (v : A) :
  Forall (fun data => dom data = dom first) rest ->
  well_formed (first :: rest) ->
  (forall key, key ∈ dom first -> paddable key (first :: rest)) ->
  exists batch',
    pad_batch (first :: rest) v = Ok batch' /\
    Forall2 (padded_record v (first :: rest)) (first :: rest) batch'.
Proof.
  intros HD Hwf Hpad. rewrite (pad_batch_unfold first rest v HD).
  assert (HDall : Forall (fun data => dom data = dom first) (first :: rest)).
  { constructor; [reflexivity | exact HD]. }
  destruct (pad_keys_ok v (dom first) (map fst (map_to_list first))
              (NoDup_fst_map_to_list first) (first :: rest) HDall Hwf)
    as (batch' & Hok & Hrel).
  { intros key Hin. apply elem_of_keys in Hin. auto. }
  exists batch'. split; [exact Hok|].
  eapply keys_padded_record; [|exact HDall|exact Hrel].
  intros key Hin. apply elem_of_keys. exact Hin.
Qed.

Lemma pad_batch_pads_witness :
  exists batch',
    pad_batch docstring_batch 0%Z = Ok batch' /\
    Forall2 (padded_record 0%Z docstring_batch) docstring_batch batch'.
Proof.
  apply (pad_batch_pads _ _ 0%Z).
  - constructor; [same_keys | constructor].
  - repeat constructor;
      (apply map_Forall_insert_2; [|apply map_Forall_singleton]);
      vm_compute; auto.
  - intros key Hin. one_key Hin.
    + right. split.
      * vm_compute. repeat econstructor.
      * apply same_rank_distinct. vm_compute. repeat constructor.
    + left. apply same_shape_distinct. vm_compute. repeat constructor.
Defined.

(** X18. When the records have the same keys and the arrays under every key
    already have one shape, [pad_batch] returns the batch unchanged, whatever
    else the records hold. *)
Theorem pad_batch_nothing_to_pad {A B : Type} (first : gmap string (datum A B))
    (rest : list (gmap string (datum A B))) (v : A) :
  Forall (fun data => dom data = dom first) rest ->
  (forall key, key ∈ dom first -> same_shape key (first :: rest)) ->
  pad_batch (first :: rest) v = Ok (first :: rest).
Proof.
  intros HD Hsame. rewrite (pad_batch_unfold first rest v HD).
  apply pad_keys_same_shape. intros key Hin. apply elem_of_keys in Hin.
  split; [|auto]. apply (present_of_dom (dom first)); [exact Hin|].
  constructor; [reflexivity | exact HD].
Qed.

Lemma pad_batch_nothing_to_pad_witness :
  pad_batch square_batch 0%Z = Ok square_batch.
Proof.
  apply (pad_batch_nothing_to_pad _ _ 0%Z).
  - constructor; [same_keys | constructor].
  - intros key Hin.
    one_key Hin; apply same_shape_distinct; vm_compute; repeat constructor.
Defined.

(** X19. A record whose keys differ from those of the first record makes
    [pad_batch] raise [AssertionError]; an empty batch makes it raise
    [IndexError]. *)
Theorem pad_batch_keys_differ {A B : Type} (first : gmap string (datum A B))
    (rest : list (gmap string (datum A B))) (v : A) :
  Exists (fun data => dom data <> dom first) rest ->
  pad_batch (first :: rest) v = Raise AssertionError /\
  pad_batch (@nil (gmap string (datum A B))) v = Raise IndexError.
Proof.
  intros Hex. split; [|reflexivity]. unfold pad_batch.
  change (py_getitem (first :: rest) 0) with (Ok first).
  cbn [mbind result_bind]. rewrite check_batch_keys_raise; [reflexivity|].
  right. exact Hex.
Qed.

Lemma pad_batch_keys_differ_witness :
  pad_batch mixed_keys_batch 0%Z = Raise AssertionError /\
  pad_batch (@nil (gmap string (datum Z Z))) 0%Z = Raise IndexError.
Proof.
  apply (pad_batch_keys_differ _ _ 0%Z).
  left. apply (bool_decide_unpack _). vm_compute. reflexivity.
Defined.

(** X20. When the records have the same keys, no key mixes arrays of
    different shapes with values that are no arrays, and under some key the
    arrays differ in rank, [pad_batch] raises [AssertionError]. *)
Theorem pad_batch_rank_mismatch {A B : Type} (first : gmap string (datum A B))
    (rest : list (gmap string (datum A B))) (v : A) :
  Forall (fun data => dom data = dom first) rest ->
  well_formed (first :: rest) ->
  (forall key, key ∈ dom first ->
     same_shape key (first :: rest) \/ all_arrays key (first :: rest)) ->
  (exists key, key ∈ dom first /\ ~ same_rank key (first :: rest)) ->
  pad_batch (first :: rest) v = Raise AssertionError.
Proof.
  intros HD Hwf Hkeys (bad & Hbad & Hrank).
  rewrite (pad_batch_unfold first rest v HD).
  apply (pad_keys_raise v (dom first)).
  - apply NoDup_fst_map_to_list.
  - constructor; [reflexivity | exact HD].
  - exact Hwf.
  - intros key Hin. apply elem_of_keys in Hin. split; [exact Hin|].
    destruct (Hkeys key Hin) as [Hsame|Hall]; [left; left; exact Hsame|].
    destruct (decide (distinct (map length (shapes_of key (first :: rest))) <= 1))
      as [Hle|Hgt].
    + left. right. split; [exact Hall|]. apply same_rank_distinct, Hle.
    + right. cbn. rewrite same_rank_distinct. exact Hgt.
  - exists bad. split; [apply elem_of_keys; exact Hbad | exact Hrank].
Qed.

Lemma pad_batch_rank_mismatch_witness :
  pad_batch mixed_rank_batch 0%Z = Raise AssertionError.
Proof.
  apply (pad_batch_rank_mismatch _ _ 0%Z).
  - constructor; [same_keys | constructor].
  - repeat constructor; apply map_Forall_singleton; vm_compute; auto.
  - intros key Hin. one_key Hin. right. vm_compute. repeat econstructor.
  - exists "x". split.
    + apply elem_of_dom. vm_compute. eauto.
    + rewrite same_rank_distinct. vm_compute. lia.
Defined.

(** X21. When the records have the same keys, the arrays under every key
    have one rank, and under some key arrays of different shapes stand beside
    a value that is no array, [pad_batch] raises [AttributeError]. *)
Theorem pad_batch_plain_value {A B : Type} (first : gmap string (datum A B))
    (rest : list (gmap string (datum A B))) (v : A) :
  Forall (fun data => dom data = dom first) rest ->
  well_formed (first :: rest) ->
  (forall key, key ∈ dom first -> same_rank key (first :: rest)) ->
  (exists key, key ∈ dom first /\ ~ same_shape key (first :: rest) /\
               ~ all_arrays key (first :: rest)) ->
  pad_batch (first :: rest) v = Raise AttributeError.
Proof.
  intros HD Hwf Hkeys (bad & Hbad & Hdiff & Hplain).
  rewrite (pad_batch_unfold first rest v HD).
  apply (pad_keys_raise v (dom first)).
  - apply NoDup_fst_map_to_list.
  - constructor; [reflexivity | exact HD].
  - exact Hwf.
  - intros key Hin. apply elem_of_keys in Hin. split; [exact Hin|].
    pose proof (Hkeys key Hin) as Hrank.
    destruct (decide (distinct (shapes_of key (first :: rest)) <= 1))
      as [Hle|Hgt].
    { left. left. apply same_shape_distinct, Hle. }
    destruct (decide (Forall (fun d : datum A B => is_Some (shape_of d))
                             (column key (first :: rest)))) as [Hall|Hnot].
    + left. right. split; [exact Hall | exact Hrank].
    + right. cbn. split; [exact Hrank|]. split; [|exact Hnot].
      rewrite same_shape_distinct. exact Hgt.
  - exists bad. split; [apply elem_of_keys; exact Hbad|]. cbn.
    split; [apply Hkeys; exact Hbad|]. split; assumption.
Qed.

Lemma pad_batch_plain_value_witness :
  pad_batch number_batch 0%Z = Raise AttributeError.
Proof.
  apply (pad_batch_plain_value _ _ 0%Z).
  - repeat constructor; same_keys.
  - repeat constructor; apply map_Forall_singleton; vm_compute; auto.
  - intros key Hin. one_key Hin.
    apply same_rank_distinct. vm_compute. repeat constructor.
  - exists "x". split; [|split].
    + apply elem_of_dom. vm_compute. eauto.
    + rewrite same_shape_distinct. vm_compute. lia.
    + intros Hall. apply Forall_cons in Hall as [_ Hall].
      apply Forall_cons in Hall as [_ Hall].
      apply Forall_cons in Hall as [[s Hs] _]. discriminate.
Defined.

End BatchSpec.
